(** * Vertex snapping (ma) and ghosting (pumi) of the SCOREC core mesh runtime

    A shallow embedding of [ma/maSnap.cc], [pumi/pumi_ghost.cc] and the
    singleton of [pumi/pumi_mesh.cc], followed by the properties of the
    specification that were checked against it.

    Conventions.
    - A C++ [double] is a binary64 value of the kernel ([PrimFloat.float]):
      [==], [<] and [>] are the IEEE comparisons ([eqb], [ltb]), so a NaN is
      different from itself and the two zeros are equal.
    - Entity handles ([Entity*], [pMeshEnt]) are natural numbers; a tag
      handle ([Tag*], [pMeshTag]) is the name of the tag, [NULL] is [None].
    - Counters ([int], [long]) are integers of [Z]: every counter of the
      modelled code counts entities of one part, and signed overflow is
      undefined in the source.
    - A failed [assert] and a read the collaborators leave undefined make the
      function return [None].
    - A collective of the messaging layer is a function of the list of the
      values the parts contribute; part [i] is the [i]-th member. *)

From Stdlib Require Import ZArith List Bool Lia PrimFloat.
From stdpp Require Import base option list gmap sets strings.

Abbreviation Entity := nat (only parsing).
Abbreviation Tag := string (only parsing).

(** PCU_Add_Longs: every part receives the sum of the contributions. *)
Definition PCU_Add_Longs (contributions : list Z) : Z :=
  foldr Z.add 0%Z contributions.

(** How a computation that all parts run together ends. *)
Inductive Run (A : Type) :=
| Completed (x : A)
(** an assertion failed or a collaborator was misused on some part *)
| Aborted
(** some part has left the operation while another waits in a collective *)
| OutOfStep
(** the bound on the number of rounds was reached *)
| OutOfFuel.
Arguments Completed {A} x.
Arguments Aborted {A}.
Arguments OutOfStep {A}.
Arguments OutOfFuel {A}.

(* ===================================================================== *)
(** ** Part I.a  The model of ma/maSnap.cc *)
(* ===================================================================== *)

Module ma.

(** apf::Vector3, three doubles. *)
Record Vector := mkVector { v_0 : float; v_1 : float; v_2 : float }.

Definition vector_get (a : Vector) (i : Z) : float :=
  if (i =? 0)%Z then v_0 a else if (i =? 1)%Z then v_1 a else v_2 a.

Definition vector_set (a : Vector) (i : Z) (c : float) : Vector :=
  if (i =? 0)%Z then mkVector c (v_1 a) (v_2 a)
  else if (i =? 1)%Z then mkVector (v_0 a) c (v_2 a)
  else mkVector (v_0 a) (v_1 a) c.

(** The scalar rule of the parametric interpolator.  The source swaps the
    caller's [range] array in place; its caller refills the array before
    every call, so only the returned coordinate is kept.  A failed
    assertion is [None]. *)
Definition interpolateParametricCoordinate
    (t a b : float) (range : float * float) (isPeriodic : bool) : option float :=
  if negb isPeriodic then Some ((1 - t) * a + t * b)%float
  else
    let range := if (range.2 <? range.1)%float then (range.2, range.1) else range in
    let '(a, b, t) := if (b <? a)%float then (b, a, (1 - t)%float) else (a, b, t) in
    let period := (range.2 - range.1)%float in
    let span := (b - a)%float in
    if (span <? period / 2)%float then Some ((1 - t) * a + t * b)%float
    else
      let a := (a + period)%float in
      let result := ((1 - t) * b + t * a)%float in
      let result := if (range.2 <? result)%float then (result - period)%float else result in
      if negb (range.1 <? result)%float then None
      else if negb (result <? range.2)%float then None
      else Some result.

(** The same function as a build with NDEBUG runs it: the two assertions
    are compiled out. *)
Definition interpolateParametricCoordinate_NDEBUG
    (t a b : float) (range : float * float) (isPeriodic : bool) : float :=
  if negb isPeriodic then ((1 - t) * a + t * b)%float
  else
    let range := if (range.2 <? range.1)%float then (range.2, range.1) else range in
    let '(a, b, t) := if (b <? a)%float then (b, a, (1 - t)%float) else (a, b, t) in
    let period := (range.2 - range.1)%float in
    let span := (b - a)%float in
    if (span <? period / 2)%float then ((1 - t) * a + t * b)%float
    else
      let a := (a + period)%float in
      let result := ((1 - t) * b + t * a)%float in
      if (range.2 <? result)%float then (result - period)%float else result.

(** The doubles nearest to 2 pi and to 1/10. *)
Definition two_pi : float := 0x1.921fb54442d18p+2%float.
Definition one_tenth : float := 0x1.999999999999ap-4%float.

(** gmi model entities: dimension and tag. *)
Record Model := mkModel { getModelType : Z; getModelTag : Z }.

(** Per-entity flags of the adapter. *)
Inductive Flag := SNAP | LAYER.

#[global] Instance Flag_eq_dec : EqDecision Flag.
Proof. solve_decision. Defined.

#[global] Instance Flag_countable : Countable Flag.
Proof.
  refine (inj_countable' (λ f, match f with SNAP => 0 | LAYER => 1 end)
                         (λ n, match n with 0 => SNAP | _ => LAYER end) _).
  by intros [].
Defined.

(** The part of apf::Mesh the snapping code reads and writes.  The static
    tables are functions; what snapping mutates (vertex coordinates and
    tag data) is a finite map. *)
Record Mesh := mkMesh {
  getDimension : Z;
  (** vertices in the order of [begin(0)] / [iterate] *)
  vertices : list Entity;
  (** entities of dimension [getDimension] *)
  mesh_elements : list Entity;
  (** getDownward(e, 0, _): the vertices of an element *)
  getDownward0 : Entity → list Entity;
  points : gmap Entity Vector;
  getParam : Entity → Vector;
  toModel : Entity → Model;
  isOwned : Entity → bool;
  (** double tags of size 3, by name *)
  double_tags : gmap string (gmap Entity Vector);
}.

Definition zero_vector : Vector := mkVector 0 0 0.

(** getPoint(v, 0, x) / ma::getPosition. *)
Definition getPosition (m : Mesh) (v : Entity) : Vector :=
  default zero_vector (points m !! v).

Definition setPoint (m : Mesh) (v : Entity) (x : Vector) : Mesh :=
  mkMesh (getDimension m) (vertices m) (mesh_elements m) (getDownward0 m)
         (<[v := x]> (points m)) (getParam m) (toModel m) (isOwned m)
         (double_tags m).

Definition with_double_tags (m : Mesh) (ts : gmap string (gmap Entity Vector)) : Mesh :=
  mkMesh (getDimension m) (vertices m) (mesh_elements m) (getDownward0 m)
         (points m) (getParam m) (toModel m) (isOwned m) ts.

Definition findTag (m : Mesh) (name : string) : option Tag :=
  if decide (is_Some (double_tags m !! name)) then Some name else None.

(** createDoubleTag(name, 3): a fresh tag no entity carries; the mesh
    database refuses a name that is in use. *)
Definition createDoubleTag (m : Mesh) (name : string) : option (Mesh * Tag) :=
  match double_tags m !! name with
  | Some _ => None
  | None => Some (with_double_tags m (<[name := ∅]> (double_tags m)), name)
  end.

Definition destroyTag (m : Mesh) (t : Tag) : Mesh :=
  with_double_tags m (delete t (double_tags m)).

Definition tag_data (m : Mesh) (t : Tag) : gmap Entity Vector :=
  default ∅ (double_tags m !! t).

Definition hasTag (m : Mesh) (e : Entity) (t : Tag) : bool :=
  bool_decide (is_Some (tag_data m t !! e)).

(** getDoubleTag: undefined on an entity that does not carry the tag. *)
Definition getDoubleTag (m : Mesh) (e : Entity) (t : Tag) : option Vector :=
  tag_data m t !! e.

(** setDoubleTag and removeTag act on the data of an existing tag; the
    handle of a destroyed tag changes nothing here. *)
Definition setDoubleTag (m : Mesh) (e : Entity) (t : Tag) (x : Vector) : Mesh :=
  with_double_tags m (alter (insert e x) t (double_tags m)).

Definition removeTag (m : Mesh) (e : Entity) (t : Tag) : Mesh :=
  with_double_tags m (alter (delete e) t (double_tags m)).

(** getAdjacent(vert, getDimension(), _): the elements that have [vert]
    among their vertices. *)
Definition getAdjacent (m : Mesh) (vert : Entity) : list Entity :=
  filter (λ e, vert ∈ getDownward0 m e) (mesh_elements m).

(** ma::Adapt: the mesh, the input switch and the flag store. *)
Record Adapt := mkAdapt {
  mesh : Mesh;
  shouldSnap : bool;
  flags : gset (Flag * Entity);
}.

Definition with_mesh (a : Adapt) (m : Mesh) : Adapt :=
  mkAdapt m (shouldSnap a) (flags a).

Definition getFlag (a : Adapt) (e : Entity) (f : Flag) : bool :=
  bool_decide ((f, e) ∈ flags a).

Definition setFlag (a : Adapt) (e : Entity) (f : Flag) : Adapt :=
  mkAdapt (mesh a) (shouldSnap a) (flags a ∪ {[ (f, e) ]}).

Definition clearFlag (a : Adapt) (e : Entity) (f : Flag) : Adapt :=
  mkAdapt (mesh a) (shouldSnap a) (flags a ∖ {[ (f, e) ]}).

Definition areExactlyEqual (a b : Vector) : bool :=
  (v_0 a =? v_0 b)%float && (v_1 a =? v_1 b)%float && (v_2 a =? v_2 b)%float.

(** The collaborators of the snapping code: the geometry kernel, the
    element validity predicate (maShape) and the Digger (maDigger). *)
Class Collaborators := {
  snapToModel : Model → Vector → Vector;
  getPeriodicRange : Model → Z → (float * float) * bool;
  isElementValid : Adapt → Entity → bool;
  (** Digger::run for the vertex handed over by setVert *)
  digger_run : Adapt → Tag → Entity → bool * Adapt;
}.

Section with_collaborators.
Context `{Collaborators}.

Fixpoint interpolate_axes (g : Model) (t : float) (a b : Vector)
    (dims : list Z) (p : Vector) : option Vector :=
  match dims with
  | [] => Some p
  | d :: rest =>
      let '(range, isPeriodic) := getPeriodicRange g d in
      c ← interpolateParametricCoordinate t (vector_get a d) (vector_get b d)
            range isPeriodic;
      interpolate_axes g t a b rest (vector_set p d c)
  end.

Definition interpolateParametricCoordinates
    (g : Model) (t : float) (a b p : Vector) : option Vector :=
  interpolate_axes g t a b (map Z.of_nat (seq 0 (Z.to_nat (getModelType g)))) p.

Definition getSnapPoint (m : Mesh) (v : Entity) : Vector :=
  snapToModel (toModel m v) (getParam m v).

(** The validity loop of trySnapping: the first invalid element puts the
    vertex back at [x] and leaves the loop. *)
Fixpoint check_elements (a : Adapt) (vert : Entity) (x : Vector)
    (elems : list Entity) : bool * Adapt :=
  match elems with
  | [] => (true, a)
  | e :: rest =>
      if isElementValid a e then check_elements a vert x rest
      else (false, with_mesh a (setPoint (mesh a) vert x))
  end.

Definition trySnapping (adapter : Adapt) (tag : Tag) (vert : Entity)
    : option (bool * Adapt) :=
  let x := getPosition (mesh adapter) vert in
  s ← getDoubleTag (mesh adapter) vert tag;
  let a1 := with_mesh adapter (setPoint (mesh adapter) vert s) in
  let elems := getAdjacent (mesh a1) vert in
  let '(success, a2) := check_elements a1 vert x elems in
  if success then Some (true, with_mesh a2 (removeTag (mesh a2) vert tag))
  else Some (false, a2).

(** class Snapper : public Operator *)
Record Snapper := mkSnapper {
  adapter : Adapt;
  tag : Tag;
  vert : Entity;
  shouldDig : bool;
  successCount : Z;
  didAnything : bool;
}.

Definition Snapper_new (a : Adapt) (t : Tag) (d : bool) : Snapper :=
  mkSnapper a t 0 d 0 false.

Definition getTargetDimension : Z := 0.

Definition shouldApply (s : Snapper) (e : Entity) : bool * Snapper :=
  if negb (getFlag (adapter s) e SNAP) then (false, s)
  else (true, mkSnapper (adapter s) (tag s) e (shouldDig s)
                        (successCount s) (didAnything s)).

Definition apply (s : Snapper) : option Snapper :=
  r ← (if shouldDig s then
         let '(dug, a1) := digger_run (adapter s) (tag s) (vert s) in
         if dug then
           (* didAnything = true; snapped = trySnapping(...) *)
           match trySnapping a1 (tag s) (vert s) with
           | Some (snapped, a2) => Some (snapped, a2, true)
           | None => None
           end
         else Some (false, a1, didAnything s)
       else
         match trySnapping (adapter s) (tag s) (vert s) with
         | Some (snapped, a2) => Some (snapped, a2, didAnything s)
         | None => None
         end);
  let '(snapped, a2, did) := (r : bool * Adapt * bool) in
  Some (mkSnapper (clearFlag a2 (vert s) SNAP) (tag s) (vert s) (shouldDig s)
                  (if snapped then (successCount s + 1)%Z else successCount s)
                  (if snapped then true else did)).

(** What the dig phase is taken to leave alone: the Digger does not move
    a vertex, does not change its parametric coordinate or classification,
    and does not touch tag data. *)
Definition digger_keeps_vertex_data : Prop :=
  ∀ (a : Adapt) (t : Tag) (v : Entity),
    let a' := (digger_run a t v).2 in
    ∀ u, getPosition (mesh a') u = getPosition (mesh a) u
         ∧ getParam (mesh a') u = getParam (mesh a) u
         ∧ toModel (mesh a') u = toModel (mesh a) u
         ∧ ∀ t', getDoubleTag (mesh a') u t' = getDoubleTag (mesh a) u t'.

(** The geometry kernel returns numbers for the vertices of the mesh: no
    coordinate of a snap point is a NaN (the one value [==] tells apart
    from itself). *)
Definition snap_points_are_numbers (m : Mesh) : Prop :=
  ∀ v, areExactlyEqual (getSnapPoint m v) (getSnapPoint m v) = true.


(** The three tests a vertex passes before the planner tags it. *)
Definition is_candidate (a : Adapt) (v : Entity) : bool :=
  negb (getFlag a v LAYER)
  && negb (getModelType (toModel (mesh a) v) =? getDimension (mesh a))%Z
  && negb (areExactlyEqual (getSnapPoint (mesh a) v) (getPosition (mesh a) v)).

(** The tag data the planner's loop leaves behind. *)
Definition planned (a : Adapt) (t : Tag) (vs : list Entity)
    (ts : gmap string (gmap Entity Vector)) : gmap string (gmap Entity Vector) :=
  foldl (λ ts v, if is_candidate a v
                 then alter (insert v (getSnapPoint (mesh a) v)) t ts else ts)
        ts vs.

(** The number of vertices of a part that it owns and that carry [t]. *)
Definition owned_tagged (a : Adapt) (t : Tag) : Z :=
  Z.of_nat (length (filter (λ v, isOwned (mesh a) v = true
                                 ∧ hasTag (mesh a) v t = true)
                           (vertices (mesh a)))).

(** [planner_kept a0 t a]: with [a0] the adapter the planner left, every
    vertex of [a] has the parametric coordinate and classification it had
    in [a0], a vertex that carries [t] holds the snap point computed from
    [a0], and a vertex that has lost [t] since sits on that point. *)
Definition planner_kept (a0 : Adapt) (t : Tag) (a : Adapt) : Prop :=
  ∀ v, getParam (mesh a) v = getParam (mesh a0) v
       ∧ toModel (mesh a) v = toModel (mesh a0) v
       ∧ match getDoubleTag (mesh a) v t with
         | Some s => s = getSnapPoint (mesh a0) v
         | None => is_Some (getDoubleTag (mesh a0) v t) →
                   getPosition (mesh a) v = getSnapPoint (mesh a0) v
         end.

(** The planner on one part, up to the reduction: the loop over the
    vertices. *)
Fixpoint tag_loop (a : Adapt) (t : Tag) (vs : list Entity) (n : Z) : Adapt * Z :=
  match vs with
  | [] => (a, n)
  | v :: rest =>
      let m := mesh a in
      if getFlag a v LAYER then tag_loop a t rest n
      else
        let md := getModelType (toModel m v) in
        if (md =? getDimension m)%Z then tag_loop a t rest n
        else
          let s := getSnapPoint m v in
          let x := getPosition m v in
          if areExactlyEqual s x then tag_loop a t rest n
          else
            tag_loop (with_mesh a (setDoubleTag m v t s)) t rest
                     (if isOwned m v then (n + 1)%Z else n)
  end.

Definition tagVertsToSnap_local (a : Adapt) : option (Adapt * Tag * Z) :=
  '(m, t) ← createDoubleTag (mesh a) "ma_snap";
  let '(a', n) := tag_loop (with_mesh a m) t (vertices m) 0 in
  Some (a', t, n).

(** tagVertsToSnap on every part: the local loops, then PCU_Add_Longs. *)
Definition tagVertsToSnap (parts : list Adapt) : option (list (Adapt * Tag * Z)) :=
  locals ← mapM tagVertsToSnap_local parts;
  let total := PCU_Add_Longs (map snd locals) in
  Some (map (λ r, (r.1, total)) locals).

Definition markVertsToSnap (a : Adapt) (t : Tag) : Adapt :=
  foldl (λ a v, if hasTag (mesh a) v t then setFlag a v SNAP else a)
        a (vertices (mesh a)).

(** Modelled from the spec: applyOperator, the cavity-apply driver of
    maOperator.cc (not among the sources).  For each candidate vertex it
    ensures the locality the operator requests and calls apply; the model
    visits the vertices of the part in iteration order and takes every
    locality request as granted. *)
Fixpoint applyOperator_loop (s : Snapper) (vs : list Entity) : option Snapper :=
  match vs with
  | [] => Some s
  | v :: rest =>
      let '(go, s1) := shouldApply s v in
      if go then s2 ← apply s1; applyOperator_loop s2 rest
      else applyOperator_loop s1 rest
  end.

Definition applyOperator (s : Snapper) : option Snapper :=
  applyOperator_loop s (vertices (mesh (adapter s))).

(** snapOneRound on one part, up to its reduction. *)
Definition snapOneRound_local (a : Adapt) (t : Tag) (shouldDig : bool)
    : option Snapper :=
  applyOperator (Snapper_new (markVertsToSnap a t) t shouldDig).

(** snapOneRound on every part.  A call is the adapter, the shouldDig
    argument and the value of successCount on that part; its outcome is
    the returned flag, the adapter and the updated successCount. *)
Definition snapOneRound (t : Tag) (calls : list (Adapt * bool * Z))
    : option (list (bool * Adapt * Z)) :=
  snappers ← mapM (λ c, snapOneRound_local c.1.1 t c.1.2) calls;
  let n := PCU_Add_Longs (map successCount snappers) in
  Some (zip_with (λ (c : Adapt * bool * Z) s,
                    (didAnything s, adapter s, (c.2 + n)%Z))
                 calls snappers).

(** Where a part stands in [snap]: in the first loop, in the second, or
    past both. *)
Inductive Phase := NoDig | Dig | Finished.

Definition after_round (p : Phase) (again : bool) : Phase :=
  if again then p
  else match p with NoDig => Dig | Dig => Finished | Finished => Finished end.

Record Proc := mkProc {
  p_adapt : Adapt;
  p_phase : Phase;
  p_successCount : Z;
  p_targetCount : Z;
}.

Definition is_finished (p : Proc) : bool :=
  match p_phase p with Finished => true | _ => false end.

Definition is_dig (p : Proc) : bool :=
  match p_phase p with Dig => true | _ => false end.

(** The two while loops of [snap], run by all parts together.  Every round
    holds collectives (the cavity driver, PCU_Add_Longs), so a round is
    taken by all parts that are still in a loop; once some part has left
    its second loop while another has not, the latter waits for a
    collective the former never enters.  [fuel] bounds the number of
    rounds. *)
Fixpoint snap_rounds (fuel : nat) (t : Tag) (procs : list Proc)
    : Run (list Proc) :=
  if forallb is_finished procs then Completed procs
  else if existsb is_finished procs then OutOfStep
  else
    match fuel with
    | O => OutOfFuel
    | S fuel =>
        match snapOneRound t
                (map (λ p, (p_adapt p, is_dig p, p_successCount p)) procs) with
        | None => Aborted
        | Some outs =>
            snap_rounds fuel t
              (zip_with (λ p (o : bool * Adapt * Z),
                           mkProc o.1.2 (after_round (p_phase p) o.1.1) o.2
                                  (p_targetCount p))
                        procs outs)
        end
    end.

(** [snap] on every part: the outcome is, per part, the adapter and the
    two numbers of the report (successCount, targetCount).  The input
    switch is the same on all parts; parts that disagree on it would not
    meet in the collectives. *)
Definition snap (fuel : nat) (parts : list Adapt)
    : Run (list (Adapt * Z * Z)) :=
  if forallb (λ a, negb (shouldSnap a)) parts then
    Completed (map (λ a, (a, 0%Z, 0%Z)) parts)
  else if negb (forallb shouldSnap parts) then OutOfStep
  else
    match tagVertsToSnap parts with
    | None => Aborted
    | Some tagged =>
        match snap_rounds fuel "ma_snap"
                (map (λ r : Adapt * Tag * Z, mkProc r.1.1 NoDig 0 r.2) tagged) with
        | Completed procs =>
            Completed
              (map (λ p, (with_mesh (p_adapt p)
                                    (destroyTag (mesh (p_adapt p)) "ma_snap"),
                          p_successCount p, p_targetCount p)) procs)
        | Aborted => Aborted
        | OutOfStep => OutOfStep
        | OutOfFuel => OutOfFuel
        end
    end.

End with_collaborators.

(** *** A sample setting for the examples

    A planar mesh of two triangles over the model edge y = 0.  An element
    is valid when its signed area is positive; the geometry puts a
    parametric coordinate u at (u, 0, 0); the Digger never digs. *)
Definition signed_area (p q r : Vector) : float :=
  ((v_0 q - v_0 p) * (v_1 r - v_1 p) - (v_0 r - v_0 p) * (v_1 q - v_1 p))%float.

Definition triangle_is_valid (a : Adapt) (e : Entity) : bool :=
  match map (getPosition (mesh a)) (getDownward0 (mesh a) e) with
  | [p; q; r] => (0 <? signed_area p q r)%float
  | _ => false
  end.

Definition sample_collaborators : Collaborators :=
  {| snapToModel := λ _ p, mkVector (v_0 p) 0 0;
     getPeriodicRange := λ _ _, ((0%float, 1%float), false);
     isElementValid := triangle_is_valid;
     digger_run := λ a _ _, (false, a) |}.

(** Vertices 0 and 3 sit on model vertices, 1 and 2 are classified on the
    model edge, 4 on the model face.  Vertex 1 hangs above the edge at
    (1, 1/4) and can be snapped; snapping vertex 2 from (1/2, 1) onto the
    edge would flatten both triangles. *)
Definition sample_mesh : Mesh :=
  {| getDimension := 2;
     vertices := [0; 1; 2; 3; 4];
     mesh_elements := [10; 11];
     getDownward0 := λ e, match e with 10 => [0; 1; 2] | 11 => [1; 3; 2] | _ => [] end;
     points := list_to_map [(0, mkVector 0 0 0); (1, mkVector 1 0.25 0);
                            (2, mkVector 0.5 1 0); (3, mkVector 2 0 0);
                            (4, mkVector 3 3 0)];
     getParam := λ v, match v with
                      | 1 => mkVector 1 0 0 | 2 => mkVector 0.5 0 0
                      | 3 => mkVector 2 0 0 | 4 => mkVector 3 3 0
                      | _ => mkVector 0 0 0 end;
     toModel := λ v, match v with
                     | 0 => mkModel 0 1 | 3 => mkModel 0 2
                     | 1 | 2 => mkModel 1 1 | _ => mkModel 2 1 end;
     isOwned := λ _, true;
     double_tags := ∅ |}.

Definition sample_adapt : Adapt := mkAdapt sample_mesh true ∅.

(** The sample adapter as the planner leaves it. *)
Definition sample_tagged : Adapt :=
  match @tagVertsToSnap_local sample_collaborators sample_adapt with
  | Some (a, _, _) => a
  | None => sample_adapt
  end.

(** A setting in which the Digger digs.  Three triangles over the model
    edge y = 0: element 11 = (0, 3, 1) lies between vertex 1 and the edge,
    element 13 = (1, 6, 7) lies above vertex 1, element 12 = (8, 9, 2) lies
    between vertex 2 and the edge.  Vertices 1 and 2 are classified on the
    model edge and sit one unit above it.  Snapping vertex 1 flattens
    element 11, snapping vertex 2 flattens element 12.  The Digger digs for
    vertex 2 only, by taking element 11 out of the mesh; it leaves the
    vertices alone. *)
Definition dig_mesh : Mesh :=
  {| getDimension := 2;
     vertices := [0; 1; 2; 3; 6; 7; 8; 9];
     mesh_elements := [11; 12; 13];
     getDownward0 := λ e, match e with
                          | 11 => [0; 3; 1] | 12 => [8; 9; 2] | 13 => [1; 6; 7]
                          | _ => [] end;
     points := list_to_map [(0, mkVector 0 0 0); (1, mkVector 1 1 0);
                            (2, mkVector 11 1 0); (3, mkVector 2 0 0);
                            (6, mkVector 3 3 0); (7, mkVector 0 3 0);
                            (8, mkVector 10 0 0); (9, mkVector 12 0 0)];
     getParam := λ v, match v with
                      | 1 => mkVector 1 0 0 | 2 => mkVector 11 0 0
                      | 3 => mkVector 2 0 0 | 8 => mkVector 10 0 0
                      | 9 => mkVector 12 0 0 | _ => mkVector 0 0 0 end;
     toModel := λ v, match v with
                     | 1 | 2 => mkModel 1 1
                     | 6 | 7 => mkModel 2 1
                     | _ => mkModel 0 (Z.of_nat v) end;
     isOwned := λ _, true;
     double_tags := ∅ |}.

Definition dig_collaborators : Collaborators :=
  {| snapToModel := λ _ p, mkVector (v_0 p) 0 0;
     getPeriodicRange := λ _ _, ((0%float, 1%float), false);
     isElementValid := triangle_is_valid;
     digger_run := λ a _ v,
       if (v =? 2) && bool_decide (11 ∈ mesh_elements (mesh a)) then
         (true,
          with_mesh a
            (mkMesh (getDimension (mesh a)) (vertices (mesh a))
                    (filter (λ e, e ≠ 11) (mesh_elements (mesh a)))
                    (getDownward0 (mesh a)) (points (mesh a))
                    (getParam (mesh a)) (toModel (mesh a)) (isOwned (mesh a))
                    (double_tags (mesh a))))
       else (false, a) |}.

Definition dig_adapt : Adapt := mkAdapt dig_mesh true ∅.

(** A geometry kernel that fails: the first coordinate of every snap
    point is a NaN.  Every element counts as valid and the Digger never
    digs. *)
Definition nan_collaborators : Collaborators :=
  {| snapToModel := λ _ _, mkVector nan 0 0;
     getPeriodicRange := λ _ _, ((0%float, 1%float), false);
     isElementValid := λ _ _, true;
     digger_run := λ a _ _, (false, a) |}.

(** A second part on which nothing is left to snap. *)
Definition idle_mesh : Mesh :=
  {| getDimension := 2;
     vertices := [0; 3];
     mesh_elements := [];
     getDownward0 := λ _, [];
     points := list_to_map [(0, mkVector 0 0 0); (3, mkVector 2 0 0)];
     getParam := λ v, match v with 3 => mkVector 2 0 0 | _ => mkVector 0 0 0 end;
     toModel := λ v, match v with 0 => mkModel 0 1 | _ => mkModel 0 2 end;
     isOwned := λ _, false;
     double_tags := ∅ |}.

Definition idle_adapt : Adapt := mkAdapt idle_mesh true ∅.

Definition idle_tagged : Adapt :=
  match @tagVertsToSnap_local sample_collaborators idle_adapt with
  | Some (a, _, _) => a
  | None => idle_adapt
  end.

End ma.

(* ===================================================================== *)
(** ** Part I.b  The model of pumi/pumi_ghost.cc and of the pumi singleton *)
(* ===================================================================== *)

Module pumi.

(** Parts: std::set<int>.  Copies: std::map<int, MeshEntity*>. *)
Abbreviation Parts := (gset Z) (only parsing).
Abbreviation Copies := (gmap Z nat) (only parsing).

(** Calls that take something away from the mesh, in the order made. *)
Inductive Call :=
| Destroy (e : Entity)
| RemoveTag (e : Entity) (t : Tag)
| DeleteGhost (e : Entity)
| DestroyTag (t : Tag).

#[global] Instance Call_eq_dec : EqDecision Call.
Proof. solve_decision. Defined.

(** The part of apf::Mesh2 the ghosting code reads and writes. *)
Record Mesh := mkMesh {
  (** the mesh dimension *)
  getDimension : Z;
  (** the entities of the part, in iteration order *)
  live : list Entity;
  (** apf::getDimension(m, e): fixed by the handle *)
  ent_dim : Entity → nat;
  (** getAdjacent(e, d, _) *)
  getAdjacent : Entity → Z → list Entity;
  getOwner : Entity → Z;
  (** the remote-copy and ghost-copy tables; an entity without copies has
      no entry or an empty one *)
  remotes : gmap Entity (gmap Z Entity);
  ghosts : gmap Entity (gmap Z Entity);
  (** int tags of size 1, by name *)
  int_tags : gmap string (gmap Entity Z);
  history : list Call;
}.

Definition with_tags (m : Mesh) (ts : gmap string (gmap Entity Z)) : Mesh :=
  mkMesh (getDimension m) (live m) (ent_dim m) (getAdjacent m) (getOwner m)
         (remotes m) (ghosts m) ts (history m).

Definition with_ghosts (m : Mesh) (gs : gmap Entity (gmap Z Entity)) : Mesh :=
  mkMesh (getDimension m) (live m) (ent_dim m) (getAdjacent m) (getOwner m)
         (remotes m) gs (int_tags m) (history m).

Definition record (m : Mesh) (c : Call) : Mesh :=
  mkMesh (getDimension m) (live m) (ent_dim m) (getAdjacent m) (getOwner m)
         (remotes m) (ghosts m) (int_tags m) (history m ++ [c]).

(** begin(d) / iterate *)
Definition iterate (m : Mesh) (d : Z) : list Entity :=
  filter (λ e, Z.of_nat (ent_dim m e) = d) (live m).

Definition findTag (m : Mesh) (name : string) : option Tag :=
  if decide (is_Some (int_tags m !! name)) then Some name else None.

(** createIntTag(name, 1): a fresh tag no entity carries; the mesh
    database refuses a name that is in use. *)
Definition createIntTag (m : Mesh) (name : string) : option (Mesh * Tag) :=
  match int_tags m !! name with
  | Some _ => None
  | None => Some (with_tags m (<[name := ∅]> (int_tags m)), name)
  end.

Definition tag_data (m : Mesh) (t : Tag) : gmap Entity Z :=
  default ∅ (int_tags m !! t).

Definition hasTag (m : Mesh) (e : Entity) (t : Tag) : bool :=
  bool_decide (is_Some (tag_data m t !! e)).

Definition getIntTag (m : Mesh) (e : Entity) (t : Tag) : option Z :=
  tag_data m t !! e.

Definition setIntTag (m : Mesh) (e : Entity) (t : Tag) (x : Z) : Mesh :=
  with_tags m (alter (insert e x) t (int_tags m)).

Definition removeTag (m : Mesh) (e : Entity) (t : Tag) : Mesh :=
  record (with_tags m (alter (delete e) t (int_tags m))) (RemoveTag e t).

Definition destroyTag (m : Mesh) (t : Tag) : Mesh :=
  record (with_tags m (delete t (int_tags m))) (DestroyTag t).

Definition getRemotes (m : Mesh) (e : Entity) : Copies :=
  default ∅ (remotes m !! e).

Definition getGhosts (m : Mesh) (e : Entity) : Copies :=
  default ∅ (ghosts m !! e).

(** Modelled from the spec: isShared, isGhosted and isGhost of the mesh
    database (not among the sources).  An entity is shared when it has
    remote copies on other parts, ghosted when the ghost table holds a copy
    of it, and a ghost when it carries ghost_tag, the tag set on the
    received ghost copies. *)
Definition isShared (m : Mesh) (e : Entity) : bool :=
  bool_decide (getRemotes m e ≠ ∅).

Definition isGhosted (m : Mesh) (e : Entity) : bool :=
  bool_decide (getGhosts m e ≠ ∅).

Definition isGhost (m : Mesh) (e : Entity) : bool :=
  hasTag m e "ghost_tag".

Definition addGhost (m : Mesh) (e : Entity) (p : Z) (r : Entity) : Mesh :=
  with_ghosts m (<[e := <[p := r]> (getGhosts m e)]> (ghosts m)).

Definition deleteGhost (m : Mesh) (e : Entity) : Mesh :=
  record (with_ghosts m (delete e (ghosts m))) (DeleteGhost e).

(** destroy(e): the entity leaves the part with everything attached to it. *)
Definition destroy (m : Mesh) (e : Entity) : Mesh :=
  mkMesh (getDimension m) (filter (λ x, x ≠ e) (live m)) (ent_dim m)
         (getAdjacent m) (getOwner m)
         (delete e (remotes m)) (delete e (ghosts m))
         (fmap (delete e) (int_tags m)) (history m ++ [Destroy e]).

(** class pumi: the process-wide singleton (the mesh and model pointers
    play no part in ghosting and are left out). *)
Record pumi := mkPumi {
  ghost_tag : option Tag;
  ghosted_tag : option Tag;
  (** std::vector<pMeshEnt> ghost_vec[4], ghosted_vec[4] *)
  ghost_vec : list (list Entity);
  ghosted_vec : list (list Entity);
}.

(** pumi::pumi() *)
Definition pumi_new : pumi :=
  mkPumi None None (replicate 4 []) (replicate 4 []).

(** What a process holds: the singleton and the mesh. *)
Record World := mkWorld { instance : pumi; the_mesh : Mesh }.

(** v[d].push_back(e) on an array of four vectors *)
Definition push_back (v : list (list Entity)) (d : nat) (e : Entity)
    : list (list Entity) :=
  alter (λ l, l ++ [e]) d v.

Definition vec_at {A} (v : list (list A)) (d : nat) : list A :=
  default [] (v !! d).

(** The conversion of a std::vector size to [int]. *)
Definition int_of_size (n : nat) : Z :=
  ((Z.of_nat n + 2 ^ 31) mod 2 ^ 32 - 2 ^ 31)%Z.

(** class Ghosting: the plan.  [parts_vec] is the array of four vectors of
    destination sets; the index of an entity's set is kept on the mesh, in
    the tag [parts_index_tag]. *)
Record Ghosting := mkGhosting {
  ghost_dim : Z;
  parts_vec : list (list (gset Z));
  parts_index_tag : Tag;
}.

(** if (!m->findTag(name)) pointer = m->createIntTag(name, 1); *)
Definition create_if_missing (m : Mesh) (name : string) (pointer : option Tag)
    : option (Mesh * option Tag) :=
  match findTag m name with
  | None => '(m', t) ← createIntTag m name; Some (m', Some t)
  | Some _ => Some (m, pointer)
  end.

(** Ghosting::Ghosting(mesh, d) *)
Definition Ghosting_new (w : World) (d : Z) : option (Ghosting * World) :=
  let i := instance w in
  '(m, gt) ← create_if_missing (the_mesh w) "ghost_tag" (ghost_tag i);
  '(m, gdt) ← create_if_missing m "ghosted_tag" (ghosted_tag i);
  '(m, t) ← createIntTag m "_parts_index_";
  Some (mkGhosting d (replicate 4 []) t,
        mkWorld (mkPumi gt gdt (ghost_vec i) (ghosted_vec i)) m).

(** Ghosting::has *)
Definition has (plan : Ghosting) (m : Mesh) (e : Entity) : bool :=
  if hasTag m e (parts_index_tag plan) then true else false.

(** Ghosting::send(e, to).  The guard against [to == PCU_Comm_Self()] is
    commented out in the source. *)
Definition send (plan : Ghosting) (m : Mesh) (e : Entity) (to : Z)
    : option (Ghosting * Mesh) :=
  let d := ent_dim m e in
  '(index, plan, m) ←
    (if negb (hasTag m e (parts_index_tag plan)) then
       let index := int_of_size (length (vec_at (parts_vec plan) d)) in
       Some (index,
             mkGhosting (ghost_dim plan)
                        (alter (λ l, l ++ [∅]) d (parts_vec plan))
                        (parts_index_tag plan),
             setIntTag m e (parts_index_tag plan) index)
     else
       index ← getIntTag m e (parts_index_tag plan);
       Some (index, plan, m));
  (* assert(index != -1) *)
  if (index =? -1)%Z then None
  else if (index <? 0)%Z then None
  else
    ps ← vec_at (parts_vec plan) d !! Z.to_nat index;
    Some (mkGhosting (ghost_dim plan)
                     (alter (λ l, <[Z.to_nat index := ps ∪ {[ to ]}]> l) d
                            (parts_vec plan))
                     (parts_index_tag plan),
          m).

(** Ghosting::sending(e, d) *)
Definition sending (plan : Ghosting) (m : Mesh) (e : Entity) (d : nat)
    : option (gset Z) :=
  if negb (hasTag m e (parts_index_tag plan)) then None
  else
    index ← getIntTag m e (parts_index_tag plan);
    if (index <? 0)%Z then None
    else vec_at (parts_vec plan) d !! Z.to_nat index.

(** Ghosting::count(e, d) *)
Definition count_of (plan : Ghosting) (m : Mesh) (e : Entity) (d : nat)
    : option Z :=
  if negb (hasTag m e (parts_index_tag plan)) then Some 0%Z
  else
    index ← getIntTag m e (parts_index_tag plan);
    if (index <? 0)%Z then None
    else ps ← vec_at (parts_vec plan) d !! Z.to_nat index;
         Some (Z.of_nat (size ps)).

(** A plan and the mesh it was built on fit together: the index tag of
    the plan is a tag of the mesh, and the array of destination sets has
    its four slots. *)
Definition plan_fits (plan : Ghosting) (m : Mesh) : Prop :=
  is_Some (int_tags m !! parts_index_tag plan)
  ∧ length (parts_vec plan) = 4
  ∧ ∀ e, ent_dim m e < 4.

(** No destination set of the plan holds the part id [self]. *)
Definition self_free (self : Z) (plan : Ghosting) : Prop :=
  ∀ d i ps, vec_at (parts_vec plan) d !! i = Some ps → self ∉ ps.

Section with_messaging.
(** The rank of the process and the number of processes. *)
Variable PCU_Comm_Self : Z.
Variable PCU_Comm_Peers : Z.
(** pumi_ment_get2ndAdj(e, bridge dimension, target dimension, _) of
    pumi_mentity.cc (not among the sources). *)
Variable pumi_ment_get2ndAdj : Mesh → Entity → Z → Z → list Entity.

Fixpoint send_each (plan : Ghosting) (m : Mesh) (es : list Entity) (to : Z)
    : option (Ghosting * Mesh) :=
  match es with
  | [] => Some (plan, m)
  | e :: rest => '(plan, m) ← send plan m e to; send_each plan m rest to
  end.

(** Ghosting::send(to) *)
Definition send_all (plan : Ghosting) (m : Mesh) (to : Z)
    : option (Ghosting * Mesh) :=
  if (to =? PCU_Comm_Self)%Z then Some (plan, m)
  else send_each plan m (iterate m (ghost_dim plan)) to.

(** set_subtract(A, B, C): the members of A that B does not hold are
    inserted into C. *)
Definition set_subtract (A B C : gset Z) : gset Z :=
  set_fold (λ a C, if decide (a ∈ B) then C else C ∪ {[ a ]}) C A.

(** Modelled from the spec: apf::packEntity (not among the sources) packs
    the entity and all its tags onto the communicator: the entity (its
    handle is the sender handle of the message) and the data of every tag
    of [tags] it carries.  The buffers of the communicator are kept per
    destination. *)
Record Packed := mkPacked { p_ent : Entity; p_tags : list (Tag * Z) }.

Definition pack_tags (m : Mesh) (e : Entity) (tags : list Tag) : list (Tag * Z) :=
  omap (λ t, (λ x, (t, x)) <$> getIntTag m e t) tags.

Definition packEntity (m : Mesh) (to : Z) (e : Entity) (tags : list Tag)
    (comm : gmap Z (list Packed)) : gmap Z (list Packed) :=
  <[to := default [] (comm !! to) ++ [mkPacked e (pack_tags m e tags)]]> comm.

(** ghost_sendEntities(plan, entDim, entitiesToExchg, tags) *)
Fixpoint ghost_sendEntities (plan : Ghosting) (m : Mesh) (entDim : nat)
    (entitiesToExchg : list Entity) (tags : list Tag)
    (comm : gmap Z (list Packed)) : option (gmap Z (list Packed)) :=
  match entitiesToExchg with
  | [] => Some comm
  | ent :: rest =>
      let src_partid := PCU_Comm_Self in
      if isShared m ent && negb (src_partid =? getOwner m ent)%Z then
        (* let the owner part send the ghost copy *)
        ghost_sendEntities plan m entDim rest tags comm
      else
        let res_parts : gset Z :=
          if isShared m ent then dom (getRemotes m ent) ∪ {[ src_partid ]}
          else ∅ in
        let res_parts :=
          if isGhosted m ent then res_parts ∪ dom (getGhosts m ent)
          else res_parts in
        target_pids ← sending plan m ent entDim;
        let temp := set_subtract target_pids res_parts ∅ in
        if decide (size temp = 0) then
          ghost_sendEntities plan m entDim rest tags comm
        else
          ghost_sendEntities plan m entDim rest tags
            (set_fold (λ piter comm,
                         if (piter =? src_partid)%Z then comm
                         else packEntity m piter ent tags comm)
                      comm temp)
  end.

(** The parts the specification sends an entity of the plan to: its
    destination set minus the parts that hold a resident or ghost copy of
    it (its remote-copy parts, the local part, its ghost-copy parts), and
    none at all from a part that shares the entity without owning it. *)
Definition specified_destinations (plan : Ghosting) (m : Mesh) (entDim : nat)
    (e : Entity) : gset Z :=
  if isShared m e && negb (PCU_Comm_Self =? getOwner m e)%Z then ∅
  else
    default ∅ (sending plan m e entDim)
    ∖ (dom (getRemotes m e) ∪ {[ PCU_Comm_Self ]} ∪ dom (getGhosts m e)).

(** What has been packed for part [p]. *)
Definition packed_for (comm : gmap Z (list Packed)) (p : Z) : list Packed :=
  default [] (comm !! p).

(** unpackGhost, from the point where the collaborators have built the
    entity [entity] out of the message: the tags of the message are put on
    it, the sender is stored as its ghost copy, and it is registered. *)
Definition unpackGhost (w : World) (from : Z) (sender : Entity)
    (entity : Entity) (tags : list (Tag * Z)) : option World :=
  let m := the_mesh w in
  let m := mkMesh (getDimension m) (live m ++ [entity]) (ent_dim m)
                  (getAdjacent m) (getOwner m) (remotes m) (ghosts m)
                  (int_tags m) (history m) in
  let m := foldl (λ m (tx : Tag * Z), setIntTag m entity tx.1 tx.2) m tags in
  let m := addGhost m entity from sender in
  let i := instance w in
  let i := mkPumi (ghost_tag i) (ghosted_tag i)
                  (push_back (ghost_vec i) (ent_dim m entity) entity)
                  (ghosted_vec i) in
  t ← ghost_tag i;
  Some (mkWorld i (setIntTag m entity t from)).

(** The receive loop of setupGhosts, for one acknowledgement. *)
Definition setupGhosts_receive (w : World) (from : Z) (entity sender : Entity)
    : option World :=
  let m := addGhost (the_mesh w) entity from sender in
  let i := instance w in
  t ← ghosted_tag i;
  if negb (hasTag m entity t) then
    Some (mkWorld (mkPumi (ghost_tag i) (ghosted_tag i) (ghost_vec i)
                          (push_back (ghosted_vec i) (ent_dim m entity) entity))
                  (setIntTag m entity t from))
  else Some (mkWorld i m).

(** The first layer around a bridge entity: its adjacent entities of the
    ghost dimension. *)
Fixpoint first_layer (plan : Ghosting) (m : Mesh) (to : list Z) (tag : Tag)
    (adjacent : list Entity) (processed_ent : list Entity)
    : option (Ghosting * Mesh * list Entity) :=
  match adjacent with
  | [] => Some (plan, m, processed_ent)
  | ghost_ent :: rest =>
      if isGhost m ghost_ent then
        first_layer plan m to tag rest processed_ent
      else
        '(plan, m) ← foldl (λ st p, '(plan, m) ← st; send plan m ghost_ent p)
                           (Some (plan, m)) to;
        first_layer plan (setIntTag m ghost_ent tag 1) to tag rest
                    (processed_ent ++ [ghost_ent])
  end.

(** The entities a member of the previous layer brings in. *)
Fixpoint next_layer_of (plan : Ghosting) (m : Mesh) (to : list Z) (tag : Tag)
    (adj_ent : list Entity) (processed_ent : list Entity) (num_prev_layer : Z)
    : option (Ghosting * Mesh * list Entity * Z) :=
  match adj_ent with
  | [] => Some (plan, m, processed_ent, num_prev_layer)
  | git :: rest =>
      if isGhost m git || hasTag m git tag then
        next_layer_of plan m to tag rest processed_ent num_prev_layer
      else
        '(plan, m) ← foldl (λ st p, '(plan, m) ← st; send plan m git p)
                           (Some (plan, m)) to;
        next_layer_of plan (setIntTag m git tag 1) to tag rest
                      (processed_ent ++ [git]) (num_prev_layer + 1)%Z
  end.

(** for (i = start_prev_layer; i < size_prev_layer; ++i) *)
Fixpoint scan_prev_layer (plan : Ghosting) (m : Mesh) (to : list Z) (tag : Tag)
    (brg_dim ghost_dim : Z) (idx : list Z) (processed_ent : list Entity)
    (num_prev_layer : Z) : option (Ghosting * Mesh * list Entity * Z) :=
  match idx with
  | [] => Some (plan, m, processed_ent, num_prev_layer)
  | i :: rest =>
      ghost_ent ← processed_ent !! Z.to_nat i;
      '(plan, m, processed_ent, num_prev_layer) ←
        next_layer_of plan m to tag
                      (pumi_ment_get2ndAdj m ghost_ent brg_dim ghost_dim)
                      processed_ent num_prev_layer;
      scan_prev_layer plan m to tag brg_dim ghost_dim rest processed_ent
                      num_prev_layer
  end.

(** for (layer = 2; layer < num_layer + 1; ++layer), [layers] rounds *)
Fixpoint more_layers (layers : nat) (plan : Ghosting) (m : Mesh) (to : list Z)
    (tag : Tag) (brg_dim ghost_dim : Z) (processed_ent : list Entity)
    (start_prev_layer size_prev_layer : Z)
    : option (Ghosting * Mesh * list Entity) :=
  match layers with
  | O => Some (plan, m, processed_ent)
  | S layers =>
      '(plan, m, processed_ent, num_prev_layer) ←
        scan_prev_layer plan m to tag brg_dim ghost_dim
          (seqZ start_prev_layer (size_prev_layer - start_prev_layer))
          processed_ent 0%Z;
      more_layers layers plan m to tag brg_dim ghost_dim processed_ent
                  (start_prev_layer + size_prev_layer)%Z
                  (size_prev_layer + num_prev_layer)%Z
  end.

(** while ((brg_ent = m->iterate(it))) *)
Fixpoint each_bridge (plan : Ghosting) (m : Mesh) (tag : Tag)
    (brg_dim ghost_dim num_layer include_copy : Z) (bridges : list Entity)
    : option (Ghosting * Mesh) :=
  match bridges with
  | [] => Some (plan, m)
  | brg_ent :: rest =>
      if negb (isShared m brg_ent) then
        each_bridge plan m tag brg_dim ghost_dim num_layer include_copy rest
      else if (include_copy =? 0)%Z
              && negb (getOwner m brg_ent =? PCU_Comm_Self)%Z then
        each_bridge plan m tag brg_dim ghost_dim num_layer include_copy rest
      else
        let to := elements (dom (getRemotes m brg_ent)) in
        '(plan, m, processed_ent) ←
          first_layer plan m to tag (getAdjacent m brg_ent ghost_dim) [];
        '(plan, m, processed_ent) ←
          more_layers (Z.to_nat (num_layer - 1)) plan m to tag brg_dim
                      ghost_dim processed_ent 0%Z
                      (Z.of_nat (length processed_ent));
        each_bridge plan (foldl (λ m e, removeTag m e tag) m processed_ent)
                    tag brg_dim ghost_dim num_layer include_copy rest
  end.

(** How a call of pumi_ghost_createLayer ends on one part. *)
Inductive LayerOutcome :=
(** it returned before touching anything, having printed [printed] *)
| Returned (w : World) (printed : list string)
(** it reached [pumi_ghost_create(m, plan)] with this mesh and plan *)
| Ghosts (w : World) (plan : Ghosting)
(** an assertion failed, or a collaborator was misused *)
| Aborted.

Definition pumi_ghost_createLayer (w : World)
    (brg_dim ghost_dim num_layer include_copy : Z) : LayerOutcome :=
  if (PCU_Comm_Peers =? 1)%Z || (num_layer =? 0)%Z then Returned w []
  else
    let mesh_dim := getDimension (the_mesh w) in
    let self := PCU_Comm_Self in
    if (ghost_dim <=? brg_dim)%Z || (brg_dim <? 0)%Z || (mesh_dim <=? brg_dim)%Z
       || (mesh_dim <? ghost_dim)%Z || (ghost_dim <? 1)%Z then
      Returned w (if (self =? 0)%Z
                  then ["pumi_ghost_createLayer ERROR: invalid bridge/ghost dimension"]
                  else [])
    else
      match
        '(m, tag) ← createIntTag (the_mesh w) "ghost_check_mark";
        '(plan, w) ← Ghosting_new (mkWorld (instance w) m) ghost_dim;
        '(plan, m) ← each_bridge plan (the_mesh w) tag brg_dim ghost_dim
                                 num_layer include_copy
                                 (iterate (the_mesh w) brg_dim);
        Some (mkWorld (instance w) (destroyTag m tag), plan)
      with
      | Some (w, plan) => Ghosts w plan
      | None => Aborted
      end.

(** pumi_ghost_delete(m) *)
Definition pumi_ghost_delete (w : World) : option World :=
  let i := instance w in
  (* assert(tag) *)
  tag ← ghosted_tag i;
  let m :=
    foldl (λ m d,
             let m := foldl destroy m (vec_at (ghost_vec i) d) in
             foldl (λ m e, deleteGhost (removeTag m e tag) e) m
                   (vec_at (ghosted_vec i) d))
          (the_mesh w) [3; 2; 1; 0] in
  gt ← ghost_tag i;
  let m := destroyTag m gt in
  let m := destroyTag m tag in
  Some (mkWorld (mkPumi None None
                        (foldl (λ v d, <[d := []]> v) (ghost_vec i) [3; 2; 1; 0])
                        (foldl (λ v d, <[d := []]> v) (ghosted_vec i) [3; 2; 1; 0]))
                m).

End with_messaging.

(** The calls pumi_ghost_delete makes before it destroys the two tags, in
    order: for d = 3 down to 0, every entity of ghost_vec[d] is destroyed,
    then every entity of ghosted_vec[d] loses [tag] and its ghost copies. *)
Definition deletion_calls (i : pumi) (tag : Tag) : list Call :=
  flat_map (λ d, map Destroy (vec_at (ghost_vec i) d)
                 ++ flat_map (λ e, [RemoveTag e tag; DeleteGhost e])
                             (vec_at (ghosted_vec i) d))
           [3; 2; 1; 0].

(** The mesh operation behind a recorded call. *)
Definition perform (m : Mesh) (c : Call) : Mesh :=
  match c with
  | Destroy e => destroy m e
  | RemoveTag e t => removeTag m e t
  | DeleteGhost e => deleteGhost m e
  | DestroyTag t => destroyTag m t
  end.

(** Every entity that has a ghost copy is recorded in one of the two
    registries. *)
Definition registry_complete (w : World) : Prop :=
  ∀ e, getGhosts (the_mesh w) e ≠ ∅ →
       ∃ d, d < 4 ∧ (e ∈ vec_at (ghost_vec (instance w)) d
                     ∨ e ∈ vec_at (ghosted_vec (instance w)) d).

(** The invariant of the registries: they are arrays of four vectors,
    entity dimensions index them, they record every entity with a ghost
    copy and every entity that carries ghosted_tag. *)
Definition registry_ok (w : World) : Prop :=
  length (ghost_vec (instance w)) = 4
  ∧ length (ghosted_vec (instance w)) = 4
  ∧ (∀ e, ent_dim (the_mesh w) e < 4)
  ∧ registry_complete w
  ∧ ∀ t e, ghosted_tag (instance w) = Some t →
           hasTag (the_mesh w) e t = true →
           ∃ d, d < 4 ∧ (e ∈ vec_at (ghost_vec (instance w)) d
                         ∨ e ∈ vec_at (ghosted_vec (instance w)) d).

(** The steps by which ghosting changes what a process holds: a plan is
    constructed, a ghost is unpacked, an acknowledgement is received,
    the ghosts are deleted. *)
Inductive Op :=
| NewGhosting (d : Z)
| Unpack (from : Z) (sender entity : Entity) (tags : list (Tag * Z))
| Acknowledge (from : Z) (entity sender : Entity)
| Delete.

Definition constructs_plan (op : Op) : bool :=
  match op with NewGhosting _ => true | _ => false end.

Definition run (w : World) (op : Op) : option World :=
  match op with
  | NewGhosting d => snd <$> Ghosting_new w d
  | Unpack from sender entity tags => unpackGhost w from sender entity tags
  | Acknowledge from entity sender => setupGhosts_receive w from entity sender
  | Delete => pumi_ghost_delete w
  end.

Fixpoint run_all (w : World) (ops : list Op) : option World :=
  match ops with
  | [] => Some w
  | op :: ops => w ← run w op; run_all w ops
  end.

(** *** A sample setting for the examples

    Part 0 of two: a triangle (face 20, edges 10 to 12, vertices 0 to 2)
    whose vertices 1 and 2 and edge 11 lie on the boundary with part 1.
    Handles below 10 are vertices, below 20 edges, the others faces. *)
Definition sample_mesh : Mesh :=
  {| getDimension := 2;
     live := [0; 1; 2; 10; 11; 12; 20];
     ent_dim := λ e, if e <? 10 then 0 else if e <? 20 then 1 else 2;
     getAdjacent := λ e d,
       if (d =? 2)%Z then (if e <? 20 then [20] else [])
       else if (d =? 0)%Z then
         match e with 10 => [0; 1] | 11 => [1; 2] | 12 => [2; 0]
                    | 20 => [0; 1; 2] | _ => [] end
       else [];
     getOwner := λ _, 0%Z;
     remotes := list_to_map [(1, {[ 1%Z := 101 ]}); (2, {[ 1%Z := 102 ]});
                             (11, {[ 1%Z := 111 ]})];
     ghosts := ∅;
     int_tags := ∅;
     history := [] |}.

Definition sample_world : World := mkWorld pumi_new sample_mesh.

(** Second-order adjacency of the sample: nothing beyond the triangle. *)
Definition sample_get2ndAdj (m : Mesh) (e : Entity) (brg tgt : Z) : list Entity := [].

(** A plan for ghosting faces, freshly constructed on the sample, with the
    world its construction leaves. *)
Definition sample_plan : Ghosting * World :=
  default (mkGhosting 2 [] EmptyString, sample_world) (Ghosting_new sample_world 2).

(** The same plan after the bulk send to part 1, issued on part 0. *)
Definition sample_sent : Ghosting * Mesh :=
  default (sample_plan.1, the_mesh sample_plan.2)
          (send_all 0 sample_plan.1 (the_mesh sample_plan.2) 1).

(** Part 0 after a ghosting in which it received face 30 from part 1 (whose
    handle for it is 500) and was told that its face 20 now has a ghost copy
    on part 1 (handle 700). *)
Definition ghosted_world : World :=
  default sample_world
    (run_all sample_world
       [NewGhosting 2; Unpack 1 500 30 [("_parts_index_", 0%Z)]; Acknowledge 1 20 700]).

(** A process with ghost_tag set and ghosted_tag null, on a mesh that holds
    tags of both names. *)
Definition unplanned_world : World :=
  mkWorld (mkPumi (Some "ghost_tag") None (replicate 4 []) (replicate 4 []))
          (mkMesh 2 [0; 1; 2; 10; 11; 12; 20] (ent_dim sample_mesh)
                  (getAdjacent sample_mesh) (getOwner sample_mesh)
                  (remotes sample_mesh) ∅
                  {[ "ghost_tag" := ∅; "ghosted_tag" := ∅ ]} []).

(** *** The rest of the plan class *)

(** Ghosting::count(): the number of destination sets of the ghost
    dimension.  The array has four vectors; another dimension is out of
    its bounds. *)
Definition count_all (plan : Ghosting) : option Z :=
  if (0 <=? ghost_dim plan)%Z && (ghost_dim plan <? 4)%Z then
    Some (int_of_size (length (vec_at (parts_vec plan) (Z.to_nat (ghost_dim plan)))))
  else None.

(** apf::removeTagFromDimension(m, tag, d) of apf.cc (not among the
    sources): the tag is removed from every entity of dimension [d] that
    carries it. *)
Definition removeTagFromDimension (m : Mesh) (t : Tag) (d : Z) : Mesh :=
  foldl (λ m e, if hasTag m e t then removeTag m e t else m) m (iterate m d).

(** Ghosting::~Ghosting().  The loop over the destination sets only frees
    memory.  A failed assertion is [None]. *)
Definition Ghosting_delete (plan : Ghosting) (m : Mesh) : option Mesh :=
  (* parts_index_tag = m->findTag("_parts_index_"); assert(parts_index_tag) *)
  t ← findTag m "_parts_index_";
  let m := foldl (λ m d, removeTagFromDimension m t d) m
                 (seqZ 0 (ghost_dim plan + 1)) in
  Some (destroyTag m t).

(** A sequence of calls of send(e, to), in order. *)
Definition send_list (plan : Ghosting) (m : Mesh) (sends : list (Entity * Z))
    : option (Ghosting * Mesh) :=
  foldl (λ st (s : Entity * Z), '(plan, m) ← st; send plan m s.1 s.2)
        (Some (plan, m)) sends.

(** The entities of dimension [d] that carry the index tag of the plan. *)
Definition planned_entities (plan : Ghosting) (m : Mesh) (d : nat) : gset Entity :=
  filter (λ e, ent_dim m e = d) (dom (tag_data m (parts_index_tag plan))).

(** The index tags of a plan are sound: every vector of destination sets
    has one set for each entity of its dimension that carries the index
    tag, the index such an entity holds is an index into the vector of its
    dimension, and two entities of one dimension hold different indices. *)
Definition plan_wf (plan : Ghosting) (m : Mesh) : Prop :=
  plan_fits plan m
  ∧ (∀ d, d < 4 →
       length (vec_at (parts_vec plan) d) = size (planned_entities plan m d))
  ∧ (∀ e i, getIntTag m e (parts_index_tag plan) = Some i →
       (0 ≤ i < Z.of_nat (length (vec_at (parts_vec plan) (ent_dim m e))))%Z)
  ∧ (∀ e e' i, getIntTag m e (parts_index_tag plan) = Some i →
       getIntTag m e' (parts_index_tag plan) = Some i →
       ent_dim m e = ent_dim m e' → e = e').

(** What a mesh keeps when the data of tag [t] is taken off it. *)
Definition same_but_tag (t : string) (m m' : Mesh) : Prop :=
  (∀ e t', t' ≠ t → getIntTag m' e t' = getIntTag m e t')
  ∧ (∀ t', is_Some (int_tags m' !! t') ↔ is_Some (int_tags m !! t'))
  ∧ live m' = live m ∧ ent_dim m' = ent_dim m ∧ ghosts m' = ghosts m
  ∧ remotes m' = remotes m ∧ getDimension m' = getDimension m.

(** The registries hold what they are meant to hold: ghost_vec[d] the
    entities of dimension [d] of the part that carry ghost_tag,
    ghosted_vec[d] entities of dimension [d] that carry ghosted_tag and
    have a ghost copy, each of them once; and a tag pointer that is set
    points to the tag of its name on the mesh. *)
Definition registry_sound (w : World) : Prop :=
  let i := instance w in
  let m := the_mesh w in
  (∀ d e, e ∈ vec_at (ghost_vec i) d →
          ent_dim m e = d ∧ e ∈ live m
          ∧ ∃ t, ghost_tag i = Some t ∧ hasTag m e t = true)
  ∧ (∀ d e, e ∈ vec_at (ghosted_vec i) d →
            ent_dim m e = d ∧ getGhosts m e ≠ ∅
            ∧ ∃ t, ghosted_tag i = Some t ∧ hasTag m e t = true)
  ∧ (∀ d, NoDup (vec_at (ghost_vec i) d) ∧ NoDup (vec_at (ghosted_vec i) d))
  ∧ (∀ t, ghost_tag i = Some t → t = "ghost_tag" ∧ is_Some (int_tags m !! t))
  ∧ (∀ t, ghosted_tag i = Some t → t = "ghosted_tag" ∧ is_Some (int_tags m !! t)).

(** Every ghost that is unpacked in the course of [ops] is a new entity of
    the part, as unpackVertex and unpackNonVertex create it. *)
Fixpoint unpacks_fresh (w : World) (ops : list Op) : Prop :=
  match ops with
  | [] => True
  | op :: rest =>
      match op with
      | Unpack _ _ entity _ => entity ∉ live (the_mesh w)
      | _ => True
      end
      ∧ match run w op with
        | Some w' => unpacks_fresh w' rest
        | None => True
        end
  end.

(** The entity a call destroys, if it is a call of destroy. *)
Definition destroyed (c : Call) : option Entity :=
  match c with Destroy e => Some e | _ => None end.

(** Every part id in a destination set of the plan satisfies [P]. *)
Definition dests_in (P : Z → Prop) (plan : Ghosting) : Prop :=
  ∀ d i ps, vec_at (parts_vec plan) d !! i = Some ps → ∀ p, p ∈ ps → P p.

(** What the loops of pumi_ghost_createLayer keep of a plan and its mesh:
    they fit together, the destinations satisfy [P], and the remote copies
    are those of [m0]. *)
Definition layer_keeps (P : Z → Prop) (m0 : Mesh) (plan : Ghosting) (m : Mesh)
    : Prop :=
  plan_fits plan m ∧ dests_in P plan ∧ remotes m = remotes m0.

End pumi.
(* ===================================================================== *)
(** ** Part II.a  Properties of the snapping code *)
(* ===================================================================== *)

Module snap_properties.
Import ma.

Lemma getPosition_setPoint m v x u :
  getPosition (setPoint m v x) u = if decide (u = v) then x else getPosition m u.
Proof.
  unfold getPosition, setPoint; simpl.
  destruct (decide (u = v)) as [->|Hne].
  - by rewrite lookup_insert_eq.
  - by rewrite lookup_insert_ne.
Qed.

Lemma getPosition_setPoint_twice m v s x u :
  x = getPosition m v →
  getPosition (setPoint (setPoint m v s) v x) u = getPosition m u.
Proof.
  intros ->. rewrite !getPosition_setPoint.
  by destruct (decide (u = v)) as [->|].
Qed.

Lemma tag_data_alter m t (f : gmap nat Vector → gmap nat Vector) t' :
  tag_data (with_double_tags m (alter f t (double_tags m))) t' =
  if decide (t' = t) then
    match double_tags m !! t with Some d => f d | None => ∅ end
  else tag_data m t'.
Proof.
  unfold tag_data; simpl. destruct (decide (t' = t)) as [->|Hne].
  - rewrite lookup_alter_eq. by destruct (double_tags m !! t).
  - by rewrite lookup_alter_ne.
Qed.

Lemma getDoubleTag_removeTag m e t e' t' :
  getDoubleTag (removeTag m e t) e' t' =
  if decide (t' = t ∧ e' = e) then None else getDoubleTag m e' t'.
Proof.
  unfold getDoubleTag, removeTag. rewrite tag_data_alter.
  destruct (decide (t' = t)) as [->|Hne].
  - unfold tag_data. destruct (double_tags m !! t) as [d|] eqn:Hd; simpl.
    + destruct (decide (e' = e)) as [->|Hne].
      * rewrite decide_True by done. by rewrite lookup_delete_eq.
      * rewrite decide_False by naive_solver. by rewrite lookup_delete_ne.
    + by destruct (decide _).
  - by rewrite decide_False by naive_solver.
Qed.

Lemma getDoubleTag_setDoubleTag m e t x e' t' :
  is_Some (double_tags m !! t) →
  getDoubleTag (setDoubleTag m e t x) e' t' =
  if decide (t' = t ∧ e' = e) then Some x else getDoubleTag m e' t'.
Proof.
  intros [d Hd]. unfold getDoubleTag, setDoubleTag. rewrite tag_data_alter.
  destruct (decide (t' = t)) as [->|Hne].
  - unfold tag_data. rewrite Hd; simpl.
    destruct (decide (e' = e)) as [->|Hne].
    + rewrite decide_True by done. by rewrite lookup_insert_eq.
    + rewrite decide_False by naive_solver. by rewrite lookup_insert_ne.
  - by rewrite decide_False by naive_solver.
Qed.

Lemma hasTag_getDoubleTag m e t :
  hasTag m e t = bool_decide (is_Some (getDoubleTag m e t)).
Proof. done. Qed.

Section validity.
Context `{Collaborators}.

Lemma check_elements_spec a vert x elems :
  check_elements a vert x elems =
  if forallb (isElementValid a) elems then (true, a)
  else (false, with_mesh a (setPoint (mesh a) vert x)).
Proof.
  induction elems as [|e elems IH]; simpl; [done|].
  destruct (isElementValid a e); simpl; [apply IH|done].
Qed.

Lemma trySnapping_unfold a t v :
  trySnapping a t v =
  s ← getDoubleTag (mesh a) v t;
  let moved := with_mesh a (setPoint (mesh a) v s) in
  if forallb (isElementValid moved) (getAdjacent (mesh moved) v)
  then Some (true, with_mesh moved (removeTag (mesh moved) v t))
  else Some (false, with_mesh moved (setPoint (mesh moved) v (getPosition (mesh a) v))).
Proof.
  unfold trySnapping. destruct (getDoubleTag (mesh a) v t) as [s|]; simpl; [|done].
  rewrite check_elements_spec.
  by destruct (forallb _ _).
Qed.




End validity.

Section planner.
Context `{Collaborators}.

Lemma tag_loop_spec a t vs n :
  tag_loop a t vs n =
  (with_mesh a (with_double_tags (mesh a) (planned a t vs (double_tags (mesh a)))),
   (n + Z.of_nat (length (filter (λ v, is_candidate a v && isOwned (mesh a) v = true) vs)))%Z).
Proof.
  revert a n. induction vs as [|v vs IH]; intros a n.
  - simpl. destruct a as [[] ? ?]. simpl. f_equal. lia.
  - cbn [tag_loop]. cbv zeta.
    rewrite filter_cons. unfold planned. cbn [foldl]. fold (planned a t vs).
    assert (Hc : is_candidate a v =
                 negb (getFlag a v LAYER)
                 && negb (getModelType (toModel (mesh a) v) =? getDimension (mesh a))%Z
                 && negb (areExactlyEqual (getSnapPoint (mesh a) v) (getPosition (mesh a) v)))
      by done.
    destruct (getFlag a v LAYER); cbn [negb andb] in Hc.
    { rewrite IH, Hc. by rewrite decide_False. }
    destruct (getModelType (toModel (mesh a) v) =? getDimension (mesh a))%Z;
      cbn [negb andb] in Hc.
    { rewrite IH, Hc. by rewrite decide_False. }
    destruct (areExactlyEqual _ _); cbn [negb andb] in Hc.
    { rewrite IH, Hc. by rewrite decide_False. }
    set (a1 := with_mesh a (setDoubleTag (mesh a) v t (getSnapPoint (mesh a) v))).
    rewrite (IH a1), Hc.
    change (is_candidate a1) with (is_candidate a).
    change (planned a1) with (planned a).
    change (isOwned (mesh a1)) with (isOwned (mesh a)).
    f_equal.
    destruct (isOwned (mesh a) v); cbn [andb].
    + rewrite decide_True by done. cbn [length]. lia.
    + by rewrite decide_False.
Qed.

Lemma planned_cons a t v vs ts :
  planned a t (v :: vs) ts =
  planned a t vs (if is_candidate a v
                  then alter (insert v (getSnapPoint (mesh a) v)) t ts else ts).
Proof. done. Qed.

Lemma planned_lookup a t vs ts d :
  ts !! t = Some d →
  planned a t vs ts !! t =
  Some (foldl (λ d v, if is_candidate a v then <[v := getSnapPoint (mesh a) v]> d else d) d vs).
Proof.
  revert ts d. induction vs as [|v vs IH]; intros ts d Hd; [done|].
  rewrite planned_cons. cbn [foldl].
  destruct (is_candidate a v).
  - apply IH. by rewrite lookup_alter_eq, Hd.
  - by apply IH.
Qed.

Lemma planned_lookup_ne a t vs ts t' :
  t' ≠ t → planned a t vs ts !! t' = ts !! t'.
Proof.
  intros Hne. revert ts. induction vs as [|v vs IH]; intros ts; [done|].
  rewrite planned_cons.
  destruct (is_candidate a v); rewrite IH; [|done].
  by rewrite lookup_alter_ne.
Qed.

Lemma planned_data_lookup a vs (d : gmap nat Vector) u :
  foldl (λ d v, if is_candidate a v then <[v := getSnapPoint (mesh a) v]> d else d) d vs !! u
  = if decide (u ∈ vs ∧ is_candidate a u = true) then Some (getSnapPoint (mesh a) u)
    else d !! u.
Proof.
  revert d. induction vs as [|v vs IH]; intros d.
  - cbn. rewrite decide_False; [done|]. intros [Hin _]. by apply elem_of_nil in Hin.
  - cbn [foldl]. rewrite IH.
    destruct (decide (u ∈ vs ∧ is_candidate a u = true)) as [[Hin Hc]|Hno].
    + rewrite decide_True; [done|]. split; [by right|done].
    + destruct (decide (u = v)) as [->|Hne].
      * destruct (is_candidate a v) eqn:Hc.
        -- rewrite decide_True; [|split; [left|done]]. by rewrite lookup_insert_eq.
        -- rewrite decide_False; [done|]. naive_solver.
      * rewrite decide_False.
        -- destruct (is_candidate a v); [by rewrite lookup_insert_ne|done].
        -- intros [Hin Hc]. apply elem_of_cons in Hin as [?|?]; naive_solver.
Qed.

End planner.

Lemma filter_ext_elem {A} (P Q : A → Prop) `{!∀ x, Decision (P x)}
    `{!∀ x, Decision (Q x)} (l : list A) :
  (∀ x, x ∈ l → P x ↔ Q x) → filter P l = filter Q l.
Proof.
  induction l as [|x l IH]; intros Hext; [done|].
  rewrite !filter_cons.
  rewrite IH by (intros y Hy; apply Hext; by right).
  destruct (decide (P x)) as [HP|HP], (decide (Q x)) as [HQ|HQ]; try done.
  - exfalso. apply HQ, Hext; [by left|done].
  - exfalso. apply HP, Hext; [by left|done].
Qed.

Section planner.
Context `{Collaborators}.

Lemma is_candidate_true a v :
  is_candidate a v = true ↔
  getFlag a v LAYER = false
  ∧ getModelType (toModel (mesh a) v) ≠ getDimension (mesh a)
  ∧ areExactlyEqual (getSnapPoint (mesh a) v) (getPosition (mesh a) v) = false.
Proof.
  unfold is_candidate. rewrite !andb_true_iff, !negb_true_iff, Z.eqb_neq. tauto.
Qed.

Lemma tagVertsToSnap_local_spec a :
  findTag (mesh a) "ma_snap" = None →
  ∃ ts, let a' := with_mesh a (with_double_tags (mesh a) ts) in
    tagVertsToSnap_local a = Some (a', "ma_snap", owned_tagged a' "ma_snap")
    ∧ (∀ v, getDoubleTag (mesh a') v "ma_snap" =
            if decide (v ∈ vertices (mesh a) ∧ is_candidate a v = true)
            then Some (getSnapPoint (mesh a) v) else None)
    ∧ (∀ t', t' ≠ "ma_snap" → ts !! t' = double_tags (mesh a) !! t').
Proof.
  intros Hfresh. unfold findTag in Hfresh. case_decide as Hno; [done|].
  assert (Hnone : double_tags (mesh a) !! "ma_snap" = None).
  { destruct (double_tags (mesh a) !! "ma_snap") eqn:E; [|done]. exfalso. apply Hno. eauto. }
  unfold tagVertsToSnap_local, createDoubleTag. rewrite Hnone.
  cbn [mbind option_bind]. rewrite tag_loop_spec.
  set (a0 := with_mesh a (with_double_tags (mesh a) (<["ma_snap" := ∅]> (double_tags (mesh a))))).
  change (is_candidate a0) with (is_candidate a).
  change (planned a0) with (planned a).
  change (isOwned (mesh a0)) with (isOwned (mesh a)).
  change (vertices (with_double_tags (mesh a) _)) with (vertices (mesh a)).
  set (ts := planned a "ma_snap" (vertices (mesh a)) (double_tags (mesh a0))).
  exists ts. cbv zeta.
  change (with_mesh a0 (with_double_tags (mesh a0) ts))
    with (with_mesh a (with_double_tags (mesh a) ts)).
  set (a' := with_mesh a (with_double_tags (mesh a) ts)).
  assert (Hget : ∀ v, getDoubleTag (mesh a') v "ma_snap" =
            if decide (v ∈ vertices (mesh a) ∧ is_candidate a v = true)
            then Some (getSnapPoint (mesh a) v) else None).
  { intros v. unfold getDoubleTag, tag_data. subst a' ts. cbn [mesh with_mesh double_tags with_double_tags].
    erewrite planned_lookup; [|apply lookup_insert_eq]. cbn [from_option id].
    rewrite planned_data_lookup. by case_decide. }
  split; [|split; [done|]].
  - f_equal. f_equal. rewrite Z.add_0_l. unfold owned_tagged. f_equal. f_equal.
    change (vertices (mesh a')) with (vertices (mesh a)).
    change (isOwned (mesh a')) with (isOwned (mesh a)).
    apply filter_ext_elem. intros v Hv.
    rewrite hasTag_getDoubleTag, Hget.
    destruct (is_candidate a v) eqn:Hc.
    + rewrite decide_True by done. rewrite bool_decide_eq_true. naive_solver.
    + rewrite decide_False by naive_solver. rewrite bool_decide_eq_true.
      split; [done|]. intros [_ [? ?]]. done.
  - intros t' Hne. subst ts. rewrite planned_lookup_ne by done.
    by apply lookup_insert_ne.
Qed.

Lemma tagVertsToSnap_spec parts :
  Forall (λ a, findTag (mesh a) "ma_snap" = None) parts →
  ∃ results, tagVertsToSnap parts = Some results
    ∧ Forall2 (λ a (r : Adapt * string * Z),
                 tagVertsToSnap_local a = Some (r.1.1, r.1.2, owned_tagged r.1.1 r.1.2)
                 ∧ r.2 = PCU_Add_Longs (map (λ r : Adapt * string * Z, owned_tagged r.1.1 r.1.2) results))
              parts results.
Proof.
  intros Hfresh. unfold tagVertsToSnap.
  assert (Hlocals : ∃ locals, mapM tagVertsToSnap_local parts = Some locals
            ∧ Forall2 (λ a (r : Adapt * string * Z),
                         tagVertsToSnap_local a = Some r ∧ r.2 = owned_tagged r.1.1 r.1.2)
                      parts locals).
  { induction Hfresh as [|a parts Ha _ IH].
    - exists []. split; [done|constructor].
    - destruct IH as (locals & Hm & Hall).
      destruct (tagVertsToSnap_local_spec a Ha) as (ts & Hloc & _).
      eexists (_ :: locals). split.
      + rewrite mapM_Some. constructor; [done|]. by apply mapM_Some.
      + constructor; [done|done]. }
  destruct Hlocals as (locals & Hm & Hall). rewrite Hm. cbn [mbind option_bind].
  eexists. split; [done|].
  assert (Hsum : map snd locals =
                 map (λ r : Adapt * string * Z, owned_tagged r.1.1 r.1.2)
                     (map (λ r : Adapt * string * Z, (r.1, PCU_Add_Longs (map snd locals))) locals)).
  { rewrite map_map. apply map_ext_Forall.
    clear -Hall. induction Hall as [|???? [_ ?]]; constructor; done. }
  rewrite <- Hsum.
  clear Hsum Hm. generalize (PCU_Add_Longs (map snd locals)). intros total.
  clear Hfresh.
  induction Hall as [|a [[a' t] n] parts locals [Hloc Hn] _ IH]; [constructor|].
  constructor; [|done]. simpl in *. subst n. done.
Qed.

End planner.

Section rounds.
Context `{Collaborators}.

Lemma planner_kept_same_mesh a0 t a a' :
  mesh a' = mesh a → planner_kept a0 t a → planner_kept a0 t a'.
Proof. unfold planner_kept. intros ->. done. Qed.

Lemma trySnapping_keeps a0 t a u b a' :
  planner_kept a0 t a →
  trySnapping a t u = Some (b, a') →
  planner_kept a0 t a'.
Proof.
  intros Hkept Htry. rewrite trySnapping_unfold in Htry.
  destruct (getDoubleTag (mesh a) u t) as [s|] eqn:Hs; [|done].
  cbn [mbind option_bind] in Htry. cbv zeta in Htry.
  destruct (forallb _ _); injection Htry as <- <-; intros v;
    destruct (Hkept v) as (Hparam & Hmodel & Htag); (split; [done|split; [done|]]).
  - (* snapped *)
    cbn [mesh with_mesh]. rewrite getDoubleTag_removeTag.
    case_decide as Hv.
    + destruct Hv as [_ ->]. intros _.
      change (getPosition (setPoint (mesh a) u s) u = getSnapPoint (mesh a0) u).
      rewrite getPosition_setPoint, decide_True by done.
      destruct (Hkept u) as (_ & _ & Hu). by rewrite Hs in Hu.
    + change (getDoubleTag (setPoint (mesh a) u s) v t) with (getDoubleTag (mesh a) v t).
      destruct (getDoubleTag (mesh a) v t) as [s'|] eqn:Hv'; [done|].
      intros Hwas.
      change (getPosition (setPoint (mesh a) u s) v = getSnapPoint (mesh a0) v).
      rewrite getPosition_setPoint. case_decide as Hvu; [|by apply Htag].
      subst v. by rewrite Hs in Hv'.
  - (* put back *)
    cbn [mesh with_mesh].
    change (getDoubleTag (setPoint (setPoint (mesh a) u s) u (getPosition (mesh a) u)) v t)
      with (getDoubleTag (mesh a) v t).
    destruct (getDoubleTag (mesh a) v t); [done|].
    intros Hwas. rewrite getPosition_setPoint_twice by done. by apply Htag.
Qed.

Lemma digger_keeps a0 t a u :
  digger_keeps_vertex_data →
  planner_kept a0 t a → planner_kept a0 t (digger_run a t u).2.
Proof.
  intros Hdig Hkept v. destruct (Hdig a t u v) as (Hpos & Hparam & Hmodel & Htags).
  destruct (Hkept v) as (Hp & Hm & Ht).
  rewrite Hparam, Hmodel, Htags, Hpos. done.
Qed.

Lemma apply_keeps a0 s s' :
  digger_keeps_vertex_data →
  planner_kept a0 (tag s) (adapter s) →
  apply s = Some s' →
  planner_kept a0 (tag s') (adapter s') ∧ tag s' = tag s ∧ shouldDig s' = shouldDig s.
Proof.
  intros Hdig Hkept Happly. unfold apply in Happly.
  destruct (shouldDig s) eqn:Hsd.
  - destruct (digger_run (adapter s) (tag s) (vert s)) as [dug a1] eqn:Hrun.
    assert (Hk1 : planner_kept a0 (tag s) a1).
    { pose proof (digger_keeps a0 (tag s) (adapter s) (vert s) Hdig Hkept) as Hk.
      by rewrite Hrun in Hk. }
    destruct dug.
    + destruct (trySnapping a1 (tag s) (vert s)) as [[snapped a2]|] eqn:Htry; [|done].
      cbn in Happly. injection Happly as <-. cbn. split; [|done].
      eapply planner_kept_same_mesh; [|by eapply trySnapping_keeps]. done.
    + cbn in Happly. injection Happly as <-. cbn. split; [|done].
      eapply planner_kept_same_mesh; [|done]. done.
  - destruct (trySnapping (adapter s) (tag s) (vert s)) as [[snapped a2]|] eqn:Htry; [|done].
    cbn in Happly. injection Happly as <-. cbn. split; [|done].
    eapply planner_kept_same_mesh; [|by eapply trySnapping_keeps]. done.
Qed.

Lemma applyOperator_loop_keeps a0 vs s s' :
  digger_keeps_vertex_data →
  planner_kept a0 (tag s) (adapter s) →
  applyOperator_loop s vs = Some s' →
  planner_kept a0 (tag s') (adapter s') ∧ tag s' = tag s.
Proof.
  intros Hdig. revert s. induction vs as [|v vs IH]; intros s Hkept Hloop.
  - injection Hloop as <-. done.
  - cbn [applyOperator_loop] in Hloop. unfold shouldApply in Hloop.
    destruct (negb (getFlag (adapter s) v SNAP)).
    + by apply IH.
    + set (s1 := mkSnapper _ _ _ _ _ _) in Hloop.
      destruct (apply s1) as [s2|] eqn:Happly; [|done].
      cbn [mbind option_bind] in Hloop.
      destruct (apply_keeps a0 s1 s2 Hdig Hkept Happly) as (Hk2 & Ht2 & _).
      destruct (IH s2 Hk2 Hloop) as (Hk' & Ht').
      split; [done|]. by rewrite Ht', Ht2.
Qed.

Lemma markVertsToSnap_mesh a t : mesh (markVertsToSnap a t) = mesh a.
Proof.
  unfold markVertsToSnap. generalize (vertices (mesh a)). intros vs.
  assert (Hgen : ∀ b, mesh b = mesh a →
            mesh (foldl (λ a v, if hasTag (mesh a) v t then setFlag a v SNAP else a) b vs) = mesh a).
  { induction vs as [|v vs IH]; intros b Hb; [done|].
    cbn [foldl]. apply IH. by destruct (hasTag (mesh b) v t). }
  by apply Hgen.
Qed.

Lemma snapOneRound_local_keeps a0 t a d s :
  digger_keeps_vertex_data →
  planner_kept a0 t a →
  snapOneRound_local a t d = Some s →
  planner_kept a0 t (adapter s).
Proof.
  intros Hdig Hkept Hround. unfold snapOneRound_local, applyOperator in Hround.
  apply applyOperator_loop_keeps with (a0 := a0) in Hround as [Hk Ht]; [|done|].
  - by rewrite Ht in Hk.
  - cbn. eapply planner_kept_same_mesh; [|done]. apply markVertsToSnap_mesh.
Qed.


Lemma snapOneRound_keeps t a0s procs outs :
  digger_keeps_vertex_data →
  Forall2 (λ a0 p, planner_kept a0 t (p_adapt p)) a0s procs →
  snapOneRound t (map (λ p, (p_adapt p, is_dig p, p_successCount p)) procs) = Some outs →
  Forall2 (λ a0 p, planner_kept a0 t (p_adapt p)) a0s
    (zip_with (λ p (o : bool * Adapt * Z),
                 mkProc o.1.2 (after_round (p_phase p) o.1.1) o.2 (p_targetCount p))
              procs outs).
Proof.
  intros Hdig Hkept Hround. unfold snapOneRound in Hround.
  destruct (mapM _ _) as [snappers|] eqn:Hm; [|done].
  cbn [mbind option_bind] in Hround. injection Hround as <-.
  apply mapM_Some in Hm. rewrite Forall2_fmap_l in Hm.
  generalize (PCU_Add_Longs (map successCount snappers)). intros n.
  revert a0s Hkept. induction Hm as [|p s procs snappers Hloc _ IH]; intros a0s Hkept.
  - inversion Hkept; subst. constructor.
  - inversion Hkept as [|a0 ? a0s' ? Hk Hks]; subst. cbn. constructor.
    + cbn. cbn in Hloc. by eapply snapOneRound_local_keeps.
    + by apply IH.
Qed.

Lemma snap_rounds_keeps fuel t a0s procs procs' :
  digger_keeps_vertex_data →
  Forall2 (λ a0 p, planner_kept a0 t (p_adapt p)) a0s procs →
  snap_rounds fuel t procs = Completed procs' →
  Forall2 (λ a0 p, planner_kept a0 t (p_adapt p)) a0s procs'.
Proof.
  intros Hdig. revert procs. induction fuel as [|fuel IH]; intros procs Hkept Hrun.
  - cbn in Hrun. destruct (forallb is_finished procs); [by injection Hrun as <-|].
    by destruct (existsb is_finished procs).
  - cbn [snap_rounds] in Hrun.
    destruct (forallb is_finished procs); [by injection Hrun as <-|].
    destruct (existsb is_finished procs); [done|].
    destruct (snapOneRound _ _) as [outs|] eqn:Hround; [|done].
    eapply IH; [|done]. by eapply snapOneRound_keeps.
Qed.

Lemma planner_kept_init a a' n :
  findTag (mesh a) "ma_snap" = None →
  tagVertsToSnap_local a = Some (a', "ma_snap", n) →
  planner_kept a' "ma_snap" a'.
Proof.
  intros Hfresh Hloc.
  destruct (tagVertsToSnap_local_spec a Hfresh) as (ts & Hloc1 & Hget & _).
  rewrite Hloc1 in Hloc. injection Hloc as <- _.
  intros v. split; [done|split; [done|]].
  rewrite Hget. by case_decide.
Qed.

End rounds.

Section planner.
Context `{Collaborators}.

(** What the planner leaves behind, read off its loop: on every part the
    tag "ma_snap" sits on exactly the vertices of the part that are not
    flagged LAYER, whose model entity has a dimension other than the mesh
    dimension (the test of the source is [md == dim]), and whose snap
    point differs from the current position in some component under
    [==]; the tag holds that snap point.  Every part is returned the sum
    over all parts of the number of owned vertices that carry the tag. *)
Lemma tagVertsToSnap_tags_spec (parts : list Adapt) :
  Forall (λ a, findTag (mesh a) "ma_snap" = None) parts →
  ∃ results, tagVertsToSnap parts = Some results
    ∧ Forall2 (λ a (r : Adapt * string * Z),
         r.1.2 = "ma_snap"
         ∧ (∀ v, getDoubleTag (mesh r.1.1) v "ma_snap" =
                 if decide (v ∈ vertices (mesh a)
                            ∧ getFlag a v LAYER = false
                            ∧ getModelType (toModel (mesh a) v) ≠ getDimension (mesh a)
                            ∧ areExactlyEqual (getSnapPoint (mesh a) v)
                                              (getPosition (mesh a) v) = false)
                 then Some (getSnapPoint (mesh a) v) else None)
         ∧ r.2 = PCU_Add_Longs (map (λ r : Adapt * string * Z, owned_tagged r.1.1 "ma_snap")
                                    results))
       parts results.
Proof.
  intros Hfresh.
  destruct (tagVertsToSnap_spec parts Hfresh) as (results & Hrun & Hall).
  exists results. split; [done|].
  assert (Hnames : Forall (λ r : Adapt * string * Z, r.1.2 = "ma_snap") results).
  { clear Hrun. generalize dependent (PCU_Add_Longs
       (map (λ r : Adapt * string * Z, owned_tagged r.1.1 r.1.2) results)).
    intros total Hall.
    induction Hall as [|a r parts' results' [Hloc _] _ IH];
      constructor; [|apply IH; by apply Forall_cons in Hfresh as [_ ?]].
    apply Forall_cons in Hfresh as [Ha _].
    destruct (tagVertsToSnap_local_spec a Ha) as (ts & Hloc1 & _).
    rewrite Hloc1 in Hloc. by injection Hloc. }
  assert (Hsum : map (λ r : Adapt * string * Z, owned_tagged r.1.1 r.1.2) results
                 = map (λ r : Adapt * string * Z, owned_tagged r.1.1 "ma_snap") results).
  { apply map_ext_Forall. eapply Forall_impl; [done|]. intros r Hr. cbn. by rewrite Hr. }
  rewrite <- Hsum. clear Hsum Hnames Hrun.
  generalize dependent (PCU_Add_Longs (map (λ r : Adapt * string * Z, owned_tagged r.1.1 r.1.2) results)).
  intros total Hall.
  induction Hall as [|a r parts' results' [Hloc Hn] _ IH]; [constructor|].
  apply Forall_cons in Hfresh as [Ha Hfresh].
  constructor; [|by apply IH].
  destruct (tagVertsToSnap_local_spec a Ha) as (ts & Hloc1 & Hget & _).
  rewrite Hloc1 in Hloc. injection Hloc as Ha' Ht _.
  split; [done|split; [|done]].
  intros v. rewrite <- Ha', Hget.
  destruct (decide (v ∈ vertices (mesh a) ∧ is_candidate a v = true)) as [[Hv Hc]|Hno].
  - apply is_candidate_true in Hc. by rewrite decide_True.
  - rewrite decide_False; [done|]. intros (Hv & Hc). apply Hno. split; [done|].
    by apply is_candidate_true.
Qed.

(** C4.  On a mesh where no vertex is classified on a model entity of a
    dimension above the mesh dimension, the planner creates the tag
    "ma_snap" and leaves it on exactly the vertices of the part that are
    not flagged LAYER, whose model entity has a dimension strictly below
    the mesh dimension, and whose snap point differs from the current
    position in some component under [==] (a vertex whose snap point
    equals its position in every component is skipped); the tag holds the
    snap point.  Every part is returned the sum over all parts of the
    number of owned vertices that carry the tag. *)
Theorem tagVertsToSnap_tags (parts : list Adapt) :
  Forall (λ a, findTag (mesh a) "ma_snap" = None) parts →
  Forall (λ a, ∀ v, v ∈ vertices (mesh a) →
                    (getModelType (toModel (mesh a) v) ≤ getDimension (mesh a))%Z)
         parts →
  ∃ results, tagVertsToSnap parts = Some results
    ∧ Forall2 (λ a (r : Adapt * string * Z),
         r.1.2 = "ma_snap"
         ∧ (∀ v, getDoubleTag (mesh r.1.1) v "ma_snap" =
                 if decide (v ∈ vertices (mesh a)
                            ∧ getFlag a v LAYER = false
                            ∧ (getModelType (toModel (mesh a) v)
                               < getDimension (mesh a))%Z
                            ∧ areExactlyEqual (getSnapPoint (mesh a) v)
                                              (getPosition (mesh a) v) = false)
                 then Some (getSnapPoint (mesh a) v) else None)
         ∧ (∀ v, hasTag (mesh r.1.1) v "ma_snap" = true ↔
                 v ∈ vertices (mesh a)
                 ∧ getFlag a v LAYER = false
                 ∧ (getModelType (toModel (mesh a) v) < getDimension (mesh a))%Z
                 ∧ areExactlyEqual (getSnapPoint (mesh a) v)
                                   (getPosition (mesh a) v) = false)
         ∧ r.2 = PCU_Add_Longs (map (λ r : Adapt * string * Z, owned_tagged r.1.1 "ma_snap")
                                    results))
       parts results.
Proof.
  intros Hfresh Hdims.
  destruct (tagVertsToSnap_tags_spec parts Hfresh) as (results & Hrun & Hall).
  exists results. split; [done|].
  generalize dependent (PCU_Add_Longs
    (map (λ r : Adapt * string * Z, owned_tagged r.1.1 "ma_snap") results)).
  intros total Hall. clear Hrun Hfresh.
  induction Hall as [|a r parts' results' (Hname & Hget & Hsum) _ IH]; [constructor|].
  apply Forall_cons in Hdims as [Hdim Hdims].
  constructor; [|by apply IH].
  assert (Hget' : ∀ v, getDoubleTag (mesh r.1.1) v "ma_snap" =
                 if decide (v ∈ vertices (mesh a)
                            ∧ getFlag a v LAYER = false
                            ∧ (getModelType (toModel (mesh a) v)
                               < getDimension (mesh a))%Z
                            ∧ areExactlyEqual (getSnapPoint (mesh a) v)
                                              (getPosition (mesh a) v) = false)
                 then Some (getSnapPoint (mesh a) v) else None).
  { intros v. rewrite Hget.
    destruct (decide (v ∈ vertices (mesh a))) as [Hv|Hv].
    - specialize (Hdim v Hv).
      case_decide as H1; case_decide as H2; try done.
      + exfalso. apply H2. destruct H1 as (? & ? & ? & ?). repeat split; try done. lia.
      + exfalso. apply H1. destruct H2 as (? & ? & ? & ?). repeat split; try done. lia.
    - rewrite !decide_False; [done|by intros [? _]|by intros [? _]]. }
  split; [done|]. split; [done|]. split; [|done].
  intros v. rewrite hasTag_getDoubleTag, bool_decide_eq_true, Hget'.
  case_decide as Hc; [split; [done|eauto]|]. split; [by intros [? ?]|done].
Qed.

(** C5, as amended.  A vertex that was snapped is no candidate of the
    next planner run.  Let the planner tag the parts and let the rounds of
    [snap] end; take a vertex the planner tagged and that has lost its tag
    since (it was snapped: its position was set to the snap point and its
    tag removed).  In the adapter [snap] returns for its part, the snap
    point the planner computes is the very position of the vertex, and a
    second planner run leaves the vertex without a tag: it finds no
    candidate among the vertices snapped before.  The geometry is taken
    to return numbers for the snap points, and the Digger not to move
    vertices nor to touch their parametric coordinates, classification
    and tag data.  (Nothing is said of the vertices the first run could
    not snap: they are candidates again.) *)
Theorem snapped_vertices_are_no_candidates
    (parts : list Adapt) (tagged : list (Adapt * string * Z))
    (fuel : nat) (procs : list Proc) :
  digger_keeps_vertex_data →
  Forall (λ a, snap_points_are_numbers (mesh a)) parts →
  Forall (λ a, findTag (mesh a) "ma_snap" = None) parts →
  tagVertsToSnap parts = Some tagged →
  snap_rounds fuel "ma_snap"
    (map (λ r : Adapt * string * Z, mkProc r.1.1 NoDig 0 r.2) tagged) = Completed procs →
  Forall2 (λ (r : Adapt * string * Z) p,
     ∀ v, hasTag (mesh r.1.1) v "ma_snap" = true →
          hasTag (mesh (p_adapt p)) v "ma_snap" = false →
          let a := with_mesh (p_adapt p) (destroyTag (mesh (p_adapt p)) "ma_snap") in
          getSnapPoint (mesh a) v = getPosition (mesh a) v
          ∧ areExactlyEqual (getSnapPoint (mesh a) v) (getPosition (mesh a) v) = true
          ∧ is_candidate a v = false
          ∧ ∃ a2 n, tagVertsToSnap_local a = Some (a2, "ma_snap", n)
                    ∧ hasTag (mesh a2) v "ma_snap" = false)
    tagged procs.
Proof.
  intros Hdig Hnumbers Hfresh Htag Hrun.
  destruct (tagVertsToSnap_spec parts Hfresh) as (results & Hrun' & Hall).
  rewrite Htag in Hrun'. injection Hrun' as <-.
  assert (Hinit : Forall2 (λ a0 p, planner_kept a0 "ma_snap" (p_adapt p))
                    (map (λ r : Adapt * string * Z, r.1.1) tagged)
                    (map (λ r : Adapt * string * Z, mkProc r.1.1 NoDig 0 r.2) tagged)
                  ∧ Forall (λ r : Adapt * string * Z,
                              snap_points_are_numbers (mesh r.1.1)) tagged).
  { rewrite Forall2_fmap. clear Htag Hrun.
    generalize dependent (PCU_Add_Longs
       (map (λ r : Adapt * string * Z, owned_tagged r.1.1 r.1.2) tagged)).
    intros total Hall.
    induction Hall as [|a r parts' tagged' [Hloc _] _ IH]; [split; constructor|].
    apply Forall_cons in Hfresh as [Ha Hfresh].
    apply Forall_cons in Hnumbers as [Hnum Hnumbers].
    destruct (IH Hnumbers Hfresh) as [IH1 IH2].
    destruct (tagVertsToSnap_local_spec a Ha) as (ts & Hloc1 & _).
    assert (r.1.2 = "ma_snap") as Hname.
    { rewrite Hloc1 in Hloc. by injection Hloc. }
    split; (constructor; [|done]); cbn.
    - rewrite Hname in Hloc. by eapply planner_kept_init.
    - rewrite Hloc1 in Hloc. injection Hloc as <- _ _. exact Hnum. }
  destruct Hinit as [Hinit Hnum].
  pose proof (snap_rounds_keeps _ _ _ _ _ Hdig Hinit Hrun) as Hend.
  rewrite Forall2_fmap_l in Hend.
  assert (Hboth : Forall2 (λ (r : Adapt * string * Z) p,
                    planner_kept r.1.1 "ma_snap" (p_adapt p)
                    ∧ snap_points_are_numbers (mesh r.1.1)) tagged procs).
  { clear -Hend Hnum. induction Hend as [|r p tagged procs Hk _ IH]; [constructor|].
    apply Forall_cons in Hnum as [Hn Hnum]. constructor; [done|by apply IH]. }
  eapply Forall2_impl; [exact Hboth|]. cbn.
  intros r p [Hkept Hnumr] v Hwas Hnow.
  destruct (Hkept v) as (Hparam & Hmodel & Htagv).
  rewrite hasTag_getDoubleTag, bool_decide_eq_true in Hwas.
  rewrite hasTag_getDoubleTag, bool_decide_eq_false in Hnow.
  destruct (getDoubleTag (mesh (p_adapt p)) v "ma_snap") eqn:Hv; [by destruct Hnow|].
  specialize (Htagv Hwas).
  assert (Hsnap : getSnapPoint (destroyTag (mesh (p_adapt p)) "ma_snap") v
                  = getPosition (destroyTag (mesh (p_adapt p)) "ma_snap") v).
  { change (getPosition (destroyTag (mesh (p_adapt p)) "ma_snap") v)
      with (getPosition (mesh (p_adapt p)) v).
    rewrite Htagv. unfold getSnapPoint. cbn. by rewrite Hparam, Hmodel. }
  assert (Hequal : areExactlyEqual
                     (getSnapPoint (destroyTag (mesh (p_adapt p)) "ma_snap") v)
                     (getPosition (destroyTag (mesh (p_adapt p)) "ma_snap") v) = true).
  { rewrite Hsnap.
    change (getPosition (destroyTag (mesh (p_adapt p)) "ma_snap") v)
      with (getPosition (mesh (p_adapt p)) v).
    rewrite Htagv. apply Hnumr. }
  split; [done|]. split; [done|].
  set (a := with_mesh (p_adapt p) (destroyTag (mesh (p_adapt p)) "ma_snap")).
  assert (Hno : is_candidate a v = false).
  { destruct (is_candidate a v) eqn:Hc; [|done].
    apply is_candidate_true in Hc as (_ & _ & Hne).
    change (mesh a) with (destroyTag (mesh (p_adapt p)) "ma_snap") in Hne.
    by rewrite Hequal in Hne. }
  split; [done|].
  assert (Hfresh2 : findTag (mesh a) "ma_snap" = None).
  { unfold findTag. cbn. rewrite lookup_delete_eq. case_decide as Hx; [by destruct Hx|done]. }
  destruct (tagVertsToSnap_local_spec a Hfresh2) as (ts & Hloc & Hget & _).
  eexists _, _. split; [done|].
  rewrite hasTag_getDoubleTag, Hget.
  rewrite decide_False; [done|]. intros [_ Hc]. by rewrite Hno in Hc.
Qed.

End planner.


Lemma sample_digger_keeps : @digger_keeps_vertex_data sample_collaborators.
Proof. intros a t v a' u. done. Qed.


(** The sample part has two candidates, both owned; the idle part none. *)
Lemma tagVertsToSnap_tags_witness :
  ∃ results, @tagVertsToSnap sample_collaborators [sample_adapt; idle_adapt] = Some results
    ∧ length results = 2
    ∧ Forall (λ r : Adapt * string * Z, r.2 = 2%Z) results
    ∧ Forall2 (λ a (r : Adapt * string * Z),
         ∀ v, hasTag (mesh r.1.1) v "ma_snap" = true ↔
              v ∈ vertices (mesh a)
              ∧ getFlag a v LAYER = false
              ∧ (getModelType (toModel (mesh a) v) < getDimension (mesh a))%Z
              ∧ areExactlyEqual (@getSnapPoint sample_collaborators (mesh a) v)
                                (getPosition (mesh a) v) = false)
       [sample_adapt; idle_adapt] results.
Proof.
  destruct (@tagVertsToSnap_tags sample_collaborators [sample_adapt; idle_adapt])
    as (results & Hrun & Hall).
  { repeat constructor. }
  { repeat constructor; intros v Hv; cbn in Hv;
      repeat (apply elem_of_cons in Hv as [->|Hv]; [by vm_compute|]);
      by apply elem_of_nil in Hv. }
  exists results. split; [exact Hrun|].
  split; [|split].
  - vm_compute in Hrun. by injection Hrun as <-.
  - vm_compute in Hrun. injection Hrun as <-. repeat constructor.
  - eapply Forall2_impl; [exact Hall|]. intros a r (_ & _ & Hiff & _). exact Hiff.
Defined.

Lemma sample_snap_points_are_numbers :
  @snap_points_are_numbers sample_collaborators (mesh sample_adapt).
Proof. intros v. do 5 (destruct v as [|v]; [vm_compute; reflexivity|]). vm_compute. reflexivity. Qed.

(** One part: vertex 1 is snapped in the first round, and the second
    planner run passes it by. *)
Lemma snapped_vertices_are_no_candidates_witness :
  ∃ r p,
    @tagVertsToSnap sample_collaborators [sample_adapt] = Some [r]
    ∧ @snap_rounds sample_collaborators 3 "ma_snap" [mkProc r.1.1 NoDig 0 r.2]
      = Completed [p]
    ∧ hasTag (mesh r.1.1) 1 "ma_snap" = true
    ∧ hasTag (mesh (p_adapt p)) 1 "ma_snap" = false
    ∧ let a := with_mesh (p_adapt p) (destroyTag (mesh (p_adapt p)) "ma_snap") in
      @getSnapPoint sample_collaborators (mesh a) 1 = getPosition (mesh a) 1
      ∧ ∃ a2 n, @tagVertsToSnap_local sample_collaborators a = Some (a2, "ma_snap", n)
                ∧ hasTag (mesh a2) 1 "ma_snap" = false.
Proof.
  eexists _, _. split; [vm_compute; reflexivity|]. split; [vm_compute; reflexivity|].
  split; [vm_compute; reflexivity|]. split; [vm_compute; reflexivity|].
  pose proof (@snapped_vertices_are_no_candidates sample_collaborators [sample_adapt] _ 3 _
                sample_digger_keeps
                ltac:(repeat constructor; exact sample_snap_points_are_numbers)
                ltac:(repeat constructor)
                ltac:(vm_compute; reflexivity)
                ltac:(vm_compute; reflexivity)) as Hall.
  apply Forall2_cons_1 in Hall as [Hv _].
  destruct (Hv 1 ltac:(vm_compute; reflexivity) ltac:(vm_compute; reflexivity))
    as (Hsnap & _ & _ & Hnext).
  split; [exact Hsnap|]. exact Hnext.
Defined.

Lemma dig_digger_keeps : @digger_keeps_vertex_data dig_collaborators.
Proof.
  intros a t v. cbn. destruct ((v =? 2) && bool_decide _); done.
Qed.

Lemma dig_snap_points_are_numbers :
  @snap_points_are_numbers dig_collaborators (mesh dig_adapt).
Proof.
  intros v. do 10 (destruct v as [|v]; [vm_compute; reflexivity|]). vm_compute. reflexivity.
Qed.

(** C5, as stated, fails: snap twice is not snap once.  In the digging
    setting the first run tags vertices 1 and 2 and snaps neither: vertex
    1 stays at (1, 1, 0), since element 11 would be flattened.  In the dig
    phase of that run the Digger takes element 11 out while working on
    vertex 2, and the dig phase tries a vertex only after the Digger dug
    for that very vertex.  The second run tags vertices 1 and 2 again and
    now snaps vertex 1 to (1, 0, 0).  The Digger of the setting leaves the
    vertex data alone and the snap points are numbers. *)
Lemma snap_twice_is_not_snap_once :
  ∃ a1 a2,
    @snap dig_collaborators 5 [dig_adapt] = Completed [(a1, 0%Z, 2%Z)]
    ∧ @snap dig_collaborators 5 [a1] = Completed [(a2, 1%Z, 2%Z)]
    ∧ getPosition (mesh a1) 1 = mkVector 1 1 0
    ∧ getPosition (mesh a2) 1 = mkVector 1 0 0
    ∧ @digger_keeps_vertex_data dig_collaborators
    ∧ @snap_points_are_numbers dig_collaborators (mesh dig_adapt).
Proof.
  eexists _, _. split; [vm_compute; reflexivity|].
  split; [vm_compute; reflexivity|].
  split; [vm_compute; reflexivity|]. split; [vm_compute; reflexivity|].
  split; [exact dig_digger_keeps|exact dig_snap_points_are_numbers].
Qed.

(** Why the snap points have to be numbers.  With a geometry kernel that
    returns a NaN, the first run snaps the four vertices of the sample
    part that lie on the model boundary; the position of vertex 1 is then
    its snap point bit for bit, and yet the second planner run tags it
    again: [==] tells a NaN apart from itself. *)
Remark nan_snap_point_is_tagged_again :
  ∃ a1 target a2 n,
    @snap nan_collaborators 3 [sample_adapt] = Completed [(a1, 4%Z, target)]
    ∧ @getSnapPoint nan_collaborators (mesh a1) 1 = getPosition (mesh a1) 1
    ∧ @tagVertsToSnap_local nan_collaborators a1 = Some (a2, "ma_snap", n)
    ∧ hasTag (mesh a2) 1 "ma_snap" = true.
Proof.
  eexists _, _, _, _. split; [vm_compute; reflexivity|].
  split; [vm_compute; reflexivity|]. split; [vm_compute; reflexivity|].
  vm_compute. reflexivity.
Qed.

(** C2 at its failing inputs, all with a periodic axis.  With a = 0.1,
    b = 2 pi - 0.1 and t = 1/2 on [0, 2 pi] the blend is the upper end of
    the range itself: it is not above it, so nothing is subtracted, and the
    assertion [result < range[1]] fails (a build without assertions
    returns 2 pi).  The same happens with a = 1/4, b = 3/4 on [0, 1].
    With a = 1/8 and b = 7/8 on [0, 1] the call returns b at t = 0 and a at
    t = 1, in either order of the two endpoints. *)
Theorem interpolate_wrap_defects :
  interpolateParametricCoordinate 0.5 one_tenth (two_pi - one_tenth) (0%float, two_pi) true = None
  ∧ interpolateParametricCoordinate_NDEBUG 0.5 one_tenth (two_pi - one_tenth) (0%float, two_pi) true
    = two_pi
  ∧ interpolateParametricCoordinate 0.5 0.25 0.75 (0%float, 1%float) true = None
  ∧ interpolateParametricCoordinate_NDEBUG 0.5 0.25 0.75 (0%float, 1%float) true = 1%float
  ∧ interpolateParametricCoordinate 0 0.125 0.875 (0%float, 1%float) true = Some 0.875%float
  ∧ interpolateParametricCoordinate 1 0.125 0.875 (0%float, 1%float) true = Some 0.125%float
  ∧ interpolateParametricCoordinate 0 0.875 0.125 (0%float, 1%float) true = Some 0.125%float.
Proof. repeat split; vm_compute; reflexivity. Qed.

Section fuel.
Context `{Collaborators}.

Lemma snap_rounds_more_fuel fuel t procs (r : Run (list Proc)) k :
  snap_rounds fuel t procs = r → r ≠ OutOfFuel →
  snap_rounds (fuel + k) t procs = r.
Proof.
  revert procs. induction fuel as [|fuel IH]; intros procs Hrun Hr.
  - cbn in Hrun. destruct k; cbn [Nat.add snap_rounds]; [done|].
    destruct (forallb is_finished procs); [done|].
    destruct (existsb is_finished procs); [done|]. by subst r.
  - cbn [Nat.add snap_rounds] in *.
    destruct (forallb is_finished procs); [done|].
    destruct (existsb is_finished procs); [done|].
    destruct (snapOneRound _ _); [|done]. by apply IH.
Qed.

Lemma snap_more_fuel fuel parts (r : Run (list (Adapt * Z * Z))) k :
  snap fuel parts = r → r ≠ OutOfFuel → snap (fuel + k) parts = r.
Proof.
  unfold snap. intros Hrun Hr.
  destruct (forallb (λ a, negb (shouldSnap a)) parts); [done|].
  destruct (negb (forallb shouldSnap parts)); [done|].
  destruct (tagVertsToSnap parts) as [tagged|]; [|done].
  destruct (snap_rounds fuel _ _) as [procs| | |] eqn:Hrounds.
  - by rewrite (snap_rounds_more_fuel _ _ _ _ k Hrounds).
  - by rewrite (snap_rounds_more_fuel _ _ _ _ k Hrounds).
  - by rewrite (snap_rounds_more_fuel _ _ _ _ k Hrounds).
  - by subst r.
Qed.

End fuel.

(** C3 at its failing input: two parts, a vertex to snap on the first and
    none on the second.  After the first round without digging the first
    part is told to go on and the second to stop, although both are given
    the global success count 1; the second part then runs ahead and leaves
    [snap] while the first still waits for it, whatever the bound on the
    rounds. *)
Theorem snapOneRound_returns_the_local_flag :
  (∃ a0 a1,
     @snapOneRound sample_collaborators "ma_snap"
        [(sample_tagged, false, 0%Z); (idle_tagged, false, 0%Z)]
     = Some [(true, a0, 1%Z); (false, a1, 1%Z)])
  ∧ ∀ fuel, @snap sample_collaborators (S (S fuel)) [sample_adapt; idle_adapt] = OutOfStep.
Proof.
  split.
  - eexists _, _. vm_compute. reflexivity.
  - intros fuel. change (S (S fuel)) with (2 + fuel).
    apply snap_more_fuel; [|done]. vm_compute. reflexivity.
Qed.

End snap_properties.

(* ===================================================================== *)
(** ** Part II.b  Properties of the ghosting code *)
(* ===================================================================== *)

Module ghost_properties.
Import pumi.

(** *** Tags and the destination sets of a plan *)

Lemma int_tag_data_alter m t (f : gmap nat Z → gmap nat Z) t' :
  tag_data (with_tags m (alter f t (int_tags m))) t' =
  if decide (t' = t) then
    match int_tags m !! t with Some d => f d | None => ∅ end
  else tag_data m t'.
Proof.
  unfold tag_data; simpl. destruct (decide (t' = t)) as [->|Hne].
  - rewrite lookup_alter_eq. by destruct (int_tags m !! t).
  - by rewrite lookup_alter_ne.
Qed.

Lemma getIntTag_setIntTag m e t x e' t' :
  is_Some (int_tags m !! t) →
  getIntTag (setIntTag m e t x) e' t' =
  if decide (t' = t ∧ e' = e) then Some x else getIntTag m e' t'.
Proof.
  intros [d Hd]. unfold getIntTag, setIntTag. rewrite int_tag_data_alter.
  destruct (decide (t' = t)) as [->|Hne].
  - unfold tag_data. rewrite Hd; simpl.
    destruct (decide (e' = e)) as [->|Hne].
    + rewrite decide_True by done. by rewrite lookup_insert_eq.
    + rewrite decide_False by naive_solver. by rewrite lookup_insert_ne.
  - by rewrite decide_False by naive_solver.
Qed.

Lemma hasTag_getIntTag m e t :
  hasTag m e t = bool_decide (is_Some (getIntTag m e t)).
Proof. done. Qed.

Lemma hasTag_false m e t : hasTag m e t = false ↔ getIntTag m e t = None.
Proof.
  rewrite hasTag_getIntTag, bool_decide_eq_false.
  destruct (getIntTag m e t); split; try done.
  intros Hno. destruct Hno. eauto.
Qed.

Lemma hasTag_true m e t : hasTag m e t = true ↔ is_Some (getIntTag m e t).
Proof. by rewrite hasTag_getIntTag, bool_decide_eq_true. Qed.

Lemma int_of_size_small n : (Z.of_nat n < 2 ^ 31)%Z → int_of_size n = Z.of_nat n.
Proof.
  intros Hn. unfold int_of_size.
  rewrite Z.mod_small; lia.
Qed.

Lemma vec_at_alter {A} (f : list A → list A) d d' (v : list (list A)) :
  d < length v →
  vec_at (alter f d v) d' = if decide (d' = d) then f (vec_at v d) else vec_at v d'.
Proof.
  intros Hd. unfold vec_at. case_decide as Hdd.
  - subst d'. rewrite list_lookup_alter_eq.
    destruct (lookup_lt_is_Some_2 v d Hd) as [l Hl]. by rewrite Hl.
  - by rewrite list_lookup_alter_ne.
Qed.

Lemma vec_at_alter_ge {A} (f : list A → list A) d d' (v : list (list A)) :
  length v ≤ d → vec_at (alter f d v) d' = vec_at v d'.
Proof.
  intros Hd. unfold vec_at.
  destruct (decide (d' = d)) as [->|Hne].
  - rewrite list_lookup_alter_eq. by rewrite (lookup_ge_None_2 v d Hd).
  - by rewrite list_lookup_alter_ne.
Qed.

(** What send does, case by case. *)
Lemma send_Some plan m e to plan' m' :
  plan_fits plan m →
  send plan m e to = Some (plan', m') →
  let d := ent_dim m e in
  let t := parts_index_tag plan in
  ∃ index : nat,
    getIntTag m' e t = Some (Z.of_nat index)
    ∧ (∀ e', e' ≠ e → getIntTag m' e' t = getIntTag m e' t)
    ∧ ent_dim m' = ent_dim m
    ∧ parts_index_tag plan' = t
    ∧ ghost_dim plan' = ghost_dim plan
    ∧ plan_fits plan' m'
    ∧ vec_at (parts_vec plan') d !! index
      = Some (default ∅ (vec_at (parts_vec plan) d !! index) ∪ {[ to ]})
    ∧ (∀ d' i ps, vec_at (parts_vec plan) d' !! i = Some ps →
                  (d', i) ≠ (d, index) →
                  vec_at (parts_vec plan') d' !! i = Some ps)
    ∧ (∀ d' i ps, vec_at (parts_vec plan') d' !! i = Some ps →
                  (d', i) ≠ (d, index) →
                  ps = default ∅ (vec_at (parts_vec plan) d' !! i))
    ∧ match getIntTag m e t with
      | Some i => i = Z.of_nat index ∧ m' = m
      | None => Z.of_nat index = int_of_size (length (vec_at (parts_vec plan) d))
                ∧ m' = setIntTag m e t (Z.of_nat index)
      end.
Proof.
  intros (Htag & Hlen & Hdim) Hsend. cbv zeta.
  unfold send in Hsend.
  set (d := ent_dim m e) in *. set (t := parts_index_tag plan) in *.
  assert (Hd : d < length (parts_vec plan)) by (rewrite Hlen; apply Hdim).
  destruct (hasTag m e t) eqn:Hhas; cbn [negb] in Hsend.
  - (* the entity has its slot *)
    apply hasTag_true in Hhas as [i Hi]. rewrite Hi in Hsend.
    cbn [mbind option_bind] in Hsend.
    destruct (i =? -1)%Z eqn:E1; [done|].
    destruct (i <? 0)%Z eqn:E2; [done|]. apply Z.ltb_ge in E2.
    destruct (vec_at (parts_vec plan) d !! Z.to_nat i) as [ps|] eqn:Hps; [|done].
    cbn [mbind option_bind] in Hsend. injection Hsend as <- <-.
    exists (Z.to_nat i). rewrite Hi, Z2Nat.id by done.
    cbn [parts_index_tag ghost_dim parts_vec].
    split; [done|]. split; [done|]. split; [done|]. split; [done|]. split; [done|].
    split.
    { split; [done|]. split; [|done]. cbn. by rewrite length_alter. }
    rewrite vec_at_alter by done. rewrite decide_True by done.
    split.
    { rewrite Hps. apply list_lookup_insert_eq. by eapply lookup_lt_Some. }
    split.
    { intros d' j ps0 Hps0 Hne. rewrite vec_at_alter by done.
      case_decide as Hdd; [|done]. subst d'.
      rewrite list_lookup_insert_ne; [done|]. intros <-. done. }
    split; [|done].
    intros d' j ps0 Hps0 Hne. rewrite vec_at_alter in Hps0 by done.
    case_decide as Hdd; [|by rewrite Hps0]. subst d'.
    rewrite list_lookup_insert_ne in Hps0 by (intros <-; done). by rewrite Hps0.
  - (* a new slot *)
    apply hasTag_false in Hhas.
    cbn [mbind option_bind] in Hsend.
    set (n := length (vec_at (parts_vec plan) d)) in *.
    destruct (int_of_size n =? -1)%Z eqn:E1; [done|].
    destruct (int_of_size n <? 0)%Z eqn:E2; [done|]. apply Z.ltb_ge in E2.
    cbn [parts_vec] in Hsend.
    rewrite vec_at_alter in Hsend by done. rewrite decide_True in Hsend by done.
    destruct ((vec_at (parts_vec plan) d ++ [∅]) !! Z.to_nat (int_of_size n))
      as [ps|] eqn:Hps; [|done].
    cbn [mbind option_bind] in Hsend. injection Hsend as <- <-.
    cbn [parts_index_tag ghost_dim parts_vec].
    exists (Z.to_nat (int_of_size n)). rewrite Z2Nat.id by done. rewrite Hhas.
    fold t.
    split. { rewrite getIntTag_setIntTag by done. by rewrite decide_True. }
    split. { intros e' Hne. rewrite getIntTag_setIntTag by done.
             rewrite decide_False; [done|]. naive_solver. }
    split; [done|]. split; [done|]. split; [done|].
    split.
    { split; [|split; [|done]].
      - cbn. destruct Htag as [x Hx]. rewrite lookup_alter_eq, Hx. eauto.
      - cbn. by rewrite !length_alter. }
    rewrite list_alter_alter_eq.
    rewrite vec_at_alter by done. rewrite decide_True by done. cbn.
    assert (Hold : ps = default ∅ (vec_at (parts_vec plan) d !! Z.to_nat (int_of_size n))).
    { destruct (decide (Z.to_nat (int_of_size n) < n)) as [Hlt|Hge].
      - rewrite lookup_app_l in Hps by done. by rewrite Hps.
      - rewrite (lookup_ge_None_2 (vec_at (parts_vec plan) d)) by (fold n; lia).
        apply lookup_lt_Some in Hps as Hlt. rewrite length_app in Hlt. cbn in Hlt.
        fold n in Hlt.
        assert (Z.to_nat (int_of_size n) = n) as Heq by lia.
        rewrite Heq in Hps. rewrite list_lookup_middle in Hps by done.
        by injection Hps as <-. }
    split.
    { rewrite <- Hold. apply list_lookup_insert_eq. by eapply lookup_lt_Some. }
    split.
    { intros d' j ps0 Hps0 Hne. rewrite vec_at_alter by done.
      case_decide as Hdd; [|done]. subst d'. cbn.
      rewrite list_lookup_insert_ne by (intros <-; done).
      rewrite lookup_app_l; [done|]. by eapply lookup_lt_Some. }
    split; [|done].
    intros d' j ps0 Hps0 Hne. rewrite vec_at_alter in Hps0 by done.
    case_decide as Hdd; [|by rewrite Hps0]. subst d'. cbn in Hps0.
    rewrite list_lookup_insert_ne in Hps0 by (intros <-; done).
    destruct (decide (j < n)) as [Hlt|Hge].
    + rewrite lookup_app_l in Hps0 by done. by rewrite Hps0.
    + rewrite (lookup_ge_None_2 (vec_at (parts_vec plan) d)) by (fold n; lia).
      apply lookup_lt_Some in Hps0 as Hlt. rewrite length_app in Hlt. cbn in Hlt.
      fold n in Hlt. assert (j = n) as -> by lia.
      rewrite list_lookup_middle in Hps0 by done. by injection Hps0 as <-.
Qed.

Lemma sending_Some plan m e d ps :
  sending plan m e d = Some ps ↔
  ∃ i, getIntTag m e (parts_index_tag plan) = Some i ∧ (0 ≤ i)%Z
       ∧ vec_at (parts_vec plan) d !! Z.to_nat i = Some ps.
Proof.
  unfold sending. destruct (hasTag m e (parts_index_tag plan)) eqn:Hhas; cbn [negb].
  - apply hasTag_true in Hhas as [i Hi]. rewrite Hi. cbn [mbind option_bind].
    destruct (i <? 0)%Z eqn:E.
    + apply Z.ltb_lt in E. split; [done|]. intros (i' & Hi' & Hpos & _).
      injection Hi' as <-. lia.
    + apply Z.ltb_ge in E. split; [by exists i|].
      intros (i' & Hi' & _ & Hps). by injection Hi' as <-.
  - apply hasTag_false in Hhas. rewrite Hhas. split; [done|].
    by intros (i & Hi & _).
Qed.

(** *** What a send adds to a plan *)

Lemma send_adds plan m e to plan' m' :
  plan_fits plan m →
  send plan m e to = Some (plan', m') →
  ∃ ps, sending plan' m' e (ent_dim m e) = Some ps ∧ to ∈ ps.
Proof.
  intros Hfits Hsend.
  destruct (send_Some _ _ _ _ _ _ Hfits Hsend)
    as (index & Hidx & _ & _ & Htag & _ & _ & Hslot & _).
  eexists. split.
  - apply sending_Some. exists (Z.of_nat index). rewrite Htag, Nat2Z.id.
    split; [done|]. split; [lia|done].
  - set_solver.
Qed.

Lemma send_grows plan m e to plan' m' e' ps :
  plan_fits plan m →
  send plan m e to = Some (plan', m') →
  sending plan m e' (ent_dim m e') = Some ps →
  ∃ ps', sending plan' m' e' (ent_dim m e') = Some ps'
         ∧ ps ⊆ ps' ∧ ps' ⊆ ps ∪ {[ to ]}.
Proof.
  intros Hfits Hsend Hold.
  destruct (send_Some _ _ _ _ _ _ Hfits Hsend)
    as (index & Hidx & Hother & _ & Htag & _ & _ & Hslot & Hrest & _ & Hcase).
  apply sending_Some in Hold as (i' & Hi' & Hpos & Hps).
  assert (Hi'' : getIntTag m' e' (parts_index_tag plan') = Some i').
  { rewrite Htag. destruct (decide (e' = e)) as [->|Hne]; [|by rewrite Hother].
    rewrite Hi' in Hcase. destruct Hcase as [-> ->]. done. }
  destruct (decide ((ent_dim m e', Z.to_nat i') = (ent_dim m e, index))) as [Heq|Hne].
  - injection Heq as Hd Hi. exists (ps ∪ {[ to ]}). split; [|set_solver].
    apply sending_Some. exists i'. split; [done|]. split; [done|].
    rewrite Hd, Hi, Hslot. rewrite Hd, Hi in Hps. by rewrite Hps.
  - exists ps. split; [|set_solver].
    apply sending_Some. exists i'. split; [done|]. split; [done|].
    by apply Hrest.
Qed.

Lemma send_self_free self plan m e to plan' m' :
  plan_fits plan m →
  send plan m e to = Some (plan', m') →
  to ≠ self → self_free self plan → self_free self plan'.
Proof.
  intros Hfits Hsend Hne Hfree d i ps Hps.
  destruct (send_Some _ _ _ _ _ _ Hfits Hsend)
    as (index & _ & _ & _ & _ & _ & _ & Hslot & _ & Hnew & _).
  assert (Hold : self ∉ default ∅ (vec_at (parts_vec plan) d !! i)).
  { destruct (vec_at (parts_vec plan) d !! i) as [old|] eqn:Hold; cbn.
    - by eapply Hfree.
    - set_solver. }
  destruct (decide ((d, i) = (ent_dim m e, index))) as [Heq|Hneq].
  - injection Heq as -> ->. rewrite Hslot in Hps. injection Hps as <-. set_solver.
  - by rewrite (Hnew _ _ _ Hps Hneq).
Qed.

Section with_rank.
Variable PCU_Comm_Self : Z.

Lemma send_each_spec plan m es to plan' m' :
  plan_fits plan m →
  send_each plan m es to = Some (plan', m') →
  plan_fits plan' m'
  ∧ ent_dim m' = ent_dim m
  ∧ (to ≠ PCU_Comm_Self → self_free PCU_Comm_Self plan → self_free PCU_Comm_Self plan')
  ∧ (∀ e ps, sending plan m e (ent_dim m e) = Some ps →
             ∃ ps', sending plan' m' e (ent_dim m e) = Some ps' ∧ ps ⊆ ps')
  ∧ (∀ e, e ∈ es → ∃ ps, sending plan' m' e (ent_dim m e) = Some ps ∧ to ∈ ps).
Proof.
  revert plan m. induction es as [|e es IH]; intros plan m Hfits Heach.
  - injection Heach as <- <-. split; [done|]. split; [done|].
    split; [intros _ Hfree; exact Hfree|].
    split; [intros e ps Hps; by exists ps|].
    intros e He. by apply elem_of_nil in He.
  - cbn [send_each] in Heach.
    destruct (send plan m e to) as [[plan1 m1]|] eqn:Hsend; [|done].
    cbn [mbind option_bind] in Heach.
    destruct (send_Some _ _ _ _ _ _ Hfits Hsend)
      as (_ & _ & _ & Hdim1 & _ & _ & Hfits1 & _).
    destruct (IH plan1 m1 Hfits1 Heach) as (Hfits' & Hdim' & Hfree' & Hgrow' & Hall').
    split; [done|]. split; [exact (eq_trans Hdim' Hdim1)|]. split; [|split].
    + intros Hne Hfree. apply Hfree'; [done|].
      exact (send_self_free _ _ _ _ _ _ _ Hfits Hsend Hne Hfree).
    + intros e' ps Hps.
      destruct (send_grows _ _ _ _ _ _ _ _ Hfits Hsend Hps) as (ps1 & Hps1 & Hsub & _).
      rewrite <- Hdim1 in Hps1.
      destruct (Hgrow' _ _ Hps1) as (ps' & Hps' & Hsub').
      exists ps'. rewrite <- Hdim1. split; [done|]. set_solver.
    + intros e' He'. apply elem_of_cons in He' as [->|He'].
      * destruct (send_adds _ _ _ _ _ _ Hfits Hsend) as (ps1 & Hps1 & Hto).
        rewrite <- Hdim1 in Hps1.
        destruct (Hgrow' _ _ Hps1) as (ps' & Hps' & Hsub').
        exists ps'. rewrite <- Hdim1. split; [done|]. set_solver.
      * rewrite <- Hdim1. by apply Hall'.
Qed.

End with_rank.

(** *** The send pass *)

Lemma set_subtract_spec (A B C : gset Z) : set_subtract A B C = C ∪ (A ∖ B).
Proof.
  unfold set_subtract.
  apply (set_fold_ind_L (λ (r : gset Z) (X : gset Z), r = C ∪ (X ∖ B))).
  - set_solver.
  - intros a X r Ha ->. case_decide; set_solver.
Qed.

Section send_pass.
Variable PCU_Comm_Self : Z.

Lemma packed_for_packEntity m to e tags comm p :
  packed_for (packEntity m to e tags comm) p =
  packed_for comm p ++ (if decide (p = to) then [mkPacked e (pack_tags m e tags)] else []).
Proof.
  unfold packed_for, packEntity. case_decide as Hp.
  - subst p. by rewrite lookup_insert_eq.
  - rewrite lookup_insert_ne by done. by rewrite app_nil_r.
Qed.

Lemma pack_to_each m ent tags (temp : gset Z) comm p :
  packed_for (set_fold (λ piter comm,
                          if (piter =? PCU_Comm_Self)%Z then comm
                          else packEntity m piter ent tags comm) comm temp) p
  = packed_for comm p
    ++ (if decide (p ∈ temp ∧ p ≠ PCU_Comm_Self)
        then [mkPacked ent (pack_tags m ent tags)] else []).
Proof.
  revert p temp.
  set (P := λ (r : gmap Z (list Packed)) (X : gset Z),
           ∀ p, packed_for r p = packed_for comm p
                ++ (if decide (p ∈ X ∧ p ≠ PCU_Comm_Self)
                    then [mkPacked ent (pack_tags m ent tags)] else [])).
  intros p temp. revert p. change (P (set_fold (λ piter comm,
                          if (piter =? PCU_Comm_Self)%Z then comm
                          else packEntity m piter ent tags comm) comm temp) temp).
  apply (set_fold_ind_L P); subst P; cbv beta.
  - intros p. rewrite decide_False by set_solver. by rewrite app_nil_r.
  - intros x X r Hx IH p.
    destruct (x =? PCU_Comm_Self)%Z eqn:E.
    + apply Z.eqb_eq in E. subst x. rewrite IH.
      f_equal. repeat case_decide; set_solver.
    + apply Z.eqb_neq in E. rewrite packed_for_packEntity, IH.
      rewrite <- app_assoc. f_equal.
      destruct (decide (p = x)) as [->|Hpx].
      * rewrite decide_False by set_solver. rewrite decide_True by set_solver. done.
      * rewrite app_nil_r. repeat case_decide; set_solver.
Qed.

Lemma ghost_sendEntities_spec plan m entDim es tags comm comm' :
  ghost_sendEntities PCU_Comm_Self plan m entDim es tags comm = Some comm' →
  ∀ p, packed_for comm' p =
       packed_for comm p
       ++ flat_map (λ e, if decide (p ∈ specified_destinations PCU_Comm_Self plan m entDim e)
                         then [mkPacked e (pack_tags m e tags)] else []) es.
Proof.
  revert comm. induction es as [|ent es IH]; intros comm Hrun p.
  - injection Hrun as <-. by rewrite app_nil_r.
  - cbn [ghost_sendEntities flat_map] in Hrun |- *. cbv zeta in Hrun.
    destruct (isShared m ent && negb (PCU_Comm_Self =? getOwner m ent)%Z) eqn:Hskip.
    { assert (Hd : specified_destinations PCU_Comm_Self plan m entDim ent = ∅).
      { unfold specified_destinations. by rewrite Hskip. }
      rewrite Hd, decide_False by set_solver. by apply IH. }
    destruct (sending plan m ent entDim) as [target|] eqn:Htarget; [|done].
    cbn [mbind option_bind] in Hrun.
    assert (Hd : specified_destinations PCU_Comm_Self plan m entDim ent
                 = target ∖ (dom (getRemotes m ent) ∪ {[PCU_Comm_Self]}
                             ∪ dom (getGhosts m ent))).
    { unfold specified_destinations. by rewrite Hskip, Htarget. }
    rewrite Hd. clear Hd.
    rewrite set_subtract_spec in Hrun.
    set (res := if isGhosted m ent
                then (if isShared m ent
                      then dom (getRemotes m ent) ∪ {[PCU_Comm_Self]} else ∅)
                     ∪ dom (getGhosts m ent)
                else if isShared m ent
                     then dom (getRemotes m ent) ∪ {[PCU_Comm_Self]} else ∅) in Hrun.
    assert (Hres : ∀ q, q ≠ PCU_Comm_Self →
              (q ∈ res ↔ q ∈ dom (getRemotes m ent) ∪ {[PCU_Comm_Self]}
                             ∪ dom (getGhosts m ent))).
    { intros q Hq. subst res. unfold isGhosted, isShared.
      destruct (decide (getRemotes m ent = ∅)) as [Hr|Hr];
        destruct (decide (getGhosts m ent = ∅)) as [Hg|Hg];
        rewrite ?(bool_decide_eq_false_2 (getRemotes m ent ≠ ∅)) by (by intros []);
        rewrite ?(bool_decide_eq_false_2 (getGhosts m ent ≠ ∅)) by (by intros []);
        rewrite ?(bool_decide_eq_true_2 (getRemotes m ent ≠ ∅)) by done;
        rewrite ?(bool_decide_eq_true_2 (getGhosts m ent ≠ ∅)) by done;
        rewrite ?Hr, ?Hg, ?dom_empty_L; set_solver. }
    assert (Hmem : (p ∈ (∅ ∪ target ∖ res) ∧ p ≠ PCU_Comm_Self) ↔
                   p ∈ target ∖ (dom (getRemotes m ent) ∪ {[PCU_Comm_Self]}
                                 ∪ dom (getGhosts m ent))).
    { destruct (decide (p = PCU_Comm_Self)) as [->|Hp]; [set_solver|].
      specialize (Hres p Hp). set_solver. }
    case_decide as Hempty.
    + apply size_empty_iff in Hempty. rewrite (IH _ Hrun). f_equal.
      rewrite decide_False; [done|]. intros Hin. apply Hmem in Hin as [Hin _].
      rewrite leibniz_equiv_iff in Hempty. rewrite Hempty in Hin. set_solver.
    + rewrite (IH _ Hrun), pack_to_each, <- app_assoc. f_equal. f_equal.
      repeat case_decide; tauto.
Qed.

End send_pass.

(** *** The calls of pumi_ghost_delete *)

Lemma foldl_perform_app m cs1 cs2 :
  foldl perform m (cs1 ++ cs2) = foldl perform (foldl perform m cs1) cs2.
Proof. apply foldl_app. Qed.

Lemma foldl_destroy m es : foldl destroy m es = foldl perform m (map Destroy es).
Proof. revert m. induction es as [|e es IH]; intros m; [done|]. cbn. apply IH. Qed.

Lemma foldl_unghost m es tag :
  foldl (λ m e, deleteGhost (removeTag m e tag) e) m es
  = foldl perform m (flat_map (λ e, [RemoveTag e tag; DeleteGhost e]) es).
Proof. revert m. induction es as [|e es IH]; intros m; [done|]. cbn. apply IH. Qed.

Lemma history_perform m c : history (perform m c) = history m ++ [c].
Proof. by destruct c. Qed.

Lemma history_foldl_perform m cs : history (foldl perform m cs) = history m ++ cs.
Proof.
  revert m. induction cs as [|c cs IH]; intros m; cbn.
  - by rewrite app_nil_r.
  - rewrite IH, history_perform, <- app_assoc. done.
Qed.

Lemma ghosts_perform_None m c e :
  ghosts m !! e = None → ghosts (perform m c) !! e = None.
Proof.
  intros Hno. destruct c as [e'|e' t|e'|t]; cbn; try done.
  - destruct (decide (e = e')) as [->|]; [by rewrite lookup_delete_eq|].
    by rewrite lookup_delete_ne.
  - destruct (decide (e = e')) as [->|]; [by rewrite lookup_delete_eq|].
    by rewrite lookup_delete_ne.
Qed.

Lemma ghosts_foldl_perform_None m cs e :
  ghosts m !! e = None → ghosts (foldl perform m cs) !! e = None.
Proof.
  revert m. induction cs as [|c cs IH]; intros m Hno; [done|].
  cbn. by apply IH, ghosts_perform_None.
Qed.

Lemma ghosts_foldl_perform_gone m cs e :
  Destroy e ∈ cs ∨ DeleteGhost e ∈ cs →
  ghosts (foldl perform m cs) !! e = None.
Proof.
  revert m. induction cs as [|c cs IH]; intros m Hin.
  - destruct Hin as [Hin|Hin]; by apply elem_of_nil in Hin.
  - cbn. destruct (decide (c = Destroy e ∨ c = DeleteGhost e)) as [Hc|Hc].
    + apply ghosts_foldl_perform_None.
      destruct Hc as [->| ->]; cbn; apply lookup_delete_eq.
    + apply IH. rewrite !elem_of_cons in Hin. naive_solver.
Qed.

Lemma ghosts_foldl_perform_sub m cs e x :
  ghosts (foldl perform m cs) !! e = Some x → ghosts m !! e = Some x.
Proof.
  revert m. induction cs as [|c cs IH]; intros m Hx; [done|].
  cbn in Hx. apply IH in Hx.
  destruct c as [e'|e' t|e'|t]; cbn in Hx; try done.
  - apply lookup_delete_Some in Hx as [_ ?]. done.
  - apply lookup_delete_Some in Hx as [_ ?]. done.
Qed.

Lemma live_perform_sub m c e : e ∈ live (perform m c) → e ∈ live m.
Proof.
  destruct c as [e'|e' t|e'|t]; cbn; try done.
  rewrite list_elem_of_filter. tauto.
Qed.

Lemma live_foldl_perform_sub m cs e : e ∈ live (foldl perform m cs) → e ∈ live m.
Proof.
  revert m. induction cs as [|c cs IH]; intros m He; [done|].
  cbn in He. by eapply live_perform_sub, IH.
Qed.

Lemma live_foldl_perform_gone m cs e :
  Destroy e ∈ cs → e ∉ live (foldl perform m cs).
Proof.
  revert m. induction cs as [|c cs IH]; intros m Hin.
  - by apply elem_of_nil in Hin.
  - cbn. apply elem_of_cons in Hin as [<-|Hin]; [|by apply IH].
    intros He. apply live_foldl_perform_sub in He. cbn in He.
    apply list_elem_of_filter in He as [? _]. done.
Qed.

Lemma tags_perform_None m c t :
  int_tags m !! t = None → int_tags (perform m c) !! t = None.
Proof.
  intros Hno. destruct c as [e'|e' t'|e'|t']; cbn; try done.
  - by rewrite lookup_fmap, Hno.
  - destruct (decide (t = t')) as [->|Hne].
    + by rewrite lookup_alter_eq, Hno.
    + by rewrite lookup_alter_ne.
  - destruct (decide (t = t')) as [->|Hne]; [by rewrite lookup_delete_eq|].
    by rewrite lookup_delete_ne.
Qed.

Lemma tags_foldl_perform_None m cs t :
  int_tags m !! t = None → int_tags (foldl perform m cs) !! t = None.
Proof.
  revert m. induction cs as [|c cs IH]; intros m Hno; [done|].
  cbn. by apply IH, tags_perform_None.
Qed.

Lemma tags_foldl_perform_gone m cs t :
  DestroyTag t ∈ cs → int_tags (foldl perform m cs) !! t = None.
Proof.
  revert m. induction cs as [|c cs IH]; intros m Hin.
  - by apply elem_of_nil in Hin.
  - cbn. apply elem_of_cons in Hin as [<-|Hin]; [|by apply IH].
    apply tags_foldl_perform_None. cbn. apply lookup_delete_eq.
Qed.

Lemma hasTag_no_tag m e t : int_tags m !! t = None → hasTag m e t = false.
Proof.
  intros Hno. apply hasTag_false. unfold getIntTag, tag_data. by rewrite Hno.
Qed.

Lemma pumi_ghost_delete_mesh w gt gdt :
  ghost_tag (instance w) = Some gt →
  ghosted_tag (instance w) = Some gdt →
  pumi_ghost_delete w =
  Some (mkWorld
          (mkPumi None None
             (foldl (λ v d, <[d := []]> v) (ghost_vec (instance w)) [3; 2; 1; 0])
             (foldl (λ v d, <[d := []]> v) (ghosted_vec (instance w)) [3; 2; 1; 0]))
          (foldl perform (the_mesh w)
                 (deletion_calls (instance w) gdt ++ [DestroyTag gt; DestroyTag gdt]))).
Proof.
  intros Hgt Hgdt. unfold pumi_ghost_delete. rewrite Hgt, Hgdt.
  cbn [mbind option_bind]. f_equal. f_equal.
  rewrite foldl_perform_app. cbn [foldl perform]. f_equal. f_equal.
  unfold deletion_calls. cbn [foldl flat_map]. rewrite app_nil_r.
  rewrite !foldl_perform_app, !foldl_destroy, !foldl_unghost. done.
Qed.

Lemma cleared_vec {A} (v : list (list A)) d :
  d < 4 → vec_at (foldl (λ v d, <[d := []]> v) v [3; 2; 1; 0]) d = [].
Proof.
  intros Hd. cbn [foldl]. unfold vec_at.
  destruct (decide (d < length v)) as [Hlt|Hge].
  - destruct d as [|[|[|[|d]]]]; try lia;
      repeat first [ rewrite list_lookup_insert_eq by (rewrite ?length_insert; lia)
                   | rewrite list_lookup_insert_ne by lia ]; done.
  - rewrite lookup_ge_None_2; [done|]. rewrite !length_insert. lia.
Qed.

Lemma elem_of_deletion_calls_destroy i tag d e :
  d < 4 → e ∈ vec_at (ghost_vec i) d → Destroy e ∈ deletion_calls i tag.
Proof.
  intros Hd He. unfold deletion_calls. apply list_elem_of_In, in_flat_map.
  exists d. split.
  - destruct d as [|[|[|[|d]]]]; cbn; try lia; tauto.
  - apply list_elem_of_In, elem_of_app. left. by apply list_elem_of_fmap_2.
Qed.

Lemma elem_of_deletion_calls_unghost i tag d e :
  d < 4 → e ∈ vec_at (ghosted_vec i) d →
  RemoveTag e tag ∈ deletion_calls i tag ∧ DeleteGhost e ∈ deletion_calls i tag.
Proof.
  intros Hd He. unfold deletion_calls.
  assert (Hd' : In d [3; 2; 1; 0]).
  { destruct d as [|[|[|[|d]]]]; cbn; try lia; tauto. }
  split; apply list_elem_of_In, in_flat_map; exists d; (split; [done|]);
    apply list_elem_of_In, elem_of_app; right;
    apply list_elem_of_In, in_flat_map; exists e;
    (split; [by apply list_elem_of_In|]); cbn; tauto.
Qed.

(** *** The constructor of a plan *)

Lemma findTag_None m name : findTag m name = None ↔ int_tags m !! name = None.
Proof.
  unfold findTag. case_decide as Hx.
  - split; [done|]. intros Hn. rewrite Hn in Hx. by destruct Hx.
  - split; [|done]. intros _. destruct (int_tags m !! name); [|done].
    exfalso. apply Hx. eauto.
Qed.

Lemma createIntTag_Some m name m' t :
  createIntTag m name = Some (m', t) ↔
  findTag m name = None ∧ t = name ∧ m' = with_tags m (<[name := ∅]> (int_tags m)).
Proof.
  rewrite findTag_None. unfold createIntTag.
  destruct (int_tags m !! name) eqn:Hn.
  - split; [done|]. by intros [? _].
  - split; [by intros [= <- <-]|]. by intros (_ & -> & ->).
Qed.

Lemma getIntTag_new_tag m name e t :
  int_tags m !! name = None →
  getIntTag (with_tags m (<[name := ∅]> (int_tags m))) e t = getIntTag m e t.
Proof.
  intros Hn. unfold getIntTag, tag_data. cbn.
  destruct (decide (t = name)) as [->|Hne].
  - by rewrite lookup_insert_eq, Hn.
  - by rewrite lookup_insert_ne.
Qed.

Lemma create_if_missing_Some m name pointer :
  ∃ ts, create_if_missing m name pointer
        = Some (with_tags m ts,
                if findTag m name is Some _ then pointer else Some name)
    ∧ (∀ e t, getIntTag (with_tags m ts) e t = getIntTag m e t)
    ∧ (∀ t, t ≠ name → ts !! t = int_tags m !! t)
    ∧ is_Some (ts !! name).
Proof.
  unfold create_if_missing. destruct (findTag m name) as [t|] eqn:Hf.
  - exists (int_tags m). split; [by destruct m|]. split; [done|]. split; [done|].
    unfold findTag in Hf. by case_decide.
  - apply findTag_None in Hf as Hn. unfold createIntTag. rewrite Hn.
    cbn [mbind option_bind]. eexists. split; [done|].
    split; [intros e t; by apply getIntTag_new_tag|].
    split; [intros t Hne; by apply lookup_insert_ne|].
    rewrite lookup_insert_eq. eauto.
Qed.

(** What the constructor of a plan does to the singleton and the mesh. *)
Lemma Ghosting_new_Some w d plan w' :
  Ghosting_new w d = Some (plan, w') →
  ∃ ts,
    plan = mkGhosting d (replicate 4 []) "_parts_index_"
    ∧ w' = mkWorld
             (mkPumi (if findTag (the_mesh w) "ghost_tag" is Some _
                      then ghost_tag (instance w) else Some "ghost_tag")
                     (if findTag (the_mesh w) "ghosted_tag" is Some _
                      then ghosted_tag (instance w) else Some "ghosted_tag")
                     (ghost_vec (instance w)) (ghosted_vec (instance w)))
             (with_tags (the_mesh w) ts)
    ∧ (∀ e t, getIntTag (with_tags (the_mesh w) ts) e t = getIntTag (the_mesh w) e t)
    ∧ is_Some (ts !! "_parts_index_").
Proof.
  unfold Ghosting_new. intros Hnew.
  destruct (create_if_missing_Some (the_mesh w) "ghost_tag" (ghost_tag (instance w)))
    as (ts1 & Hc1 & Hget1 & Hother1 & _).
  rewrite Hc1 in Hnew. cbn [mbind option_bind] in Hnew.
  destruct (create_if_missing_Some (with_tags (the_mesh w) ts1) "ghosted_tag"
              (ghosted_tag (instance w))) as (ts2 & Hc2 & Hget2 & Hother2 & _).
  rewrite Hc2 in Hnew. cbn [mbind option_bind] in Hnew.
  destruct (createIntTag _ "_parts_index_") as [[m3 t3]|] eqn:Hc3; [|done].
  cbn [mbind option_bind] in Hnew. injection Hnew as <- <-.
  apply createIntTag_Some in Hc3 as (Hf3 & -> & ->).
  apply findTag_None in Hf3. cbn in Hf3.
  eexists. split; [done|]. split; [|split].
  - assert (Hsame : findTag (with_tags (the_mesh w) ts1) "ghosted_tag"
                     = findTag (the_mesh w) "ghosted_tag").
    { unfold findTag. cbn. by rewrite Hother1. }
    by rewrite Hsame.
  - intros e t. etransitivity; [|apply Hget1]. etransitivity; [|apply Hget2].
    by apply (getIntTag_new_tag (with_tags (with_tags (the_mesh w) ts1) ts2)).
  - rewrite lookup_insert_eq. eauto.
Qed.

Lemma Ghosting_new_fits w d plan w' :
  (∀ e, ent_dim (the_mesh w) e < 4) →
  Ghosting_new w d = Some (plan, w') →
  plan_fits plan (the_mesh w') ∧ ∀ self, self_free self plan.
Proof.
  intros Hdim Hnew. apply Ghosting_new_Some in Hnew as (ts & -> & -> & _ & Hidx).
  split.
  - split; [done|]. split; [done|]. done.
  - intros self d' i ps Hps. unfold vec_at in Hps. cbn in Hps.
    destruct d' as [|[|[|[|d']]]]; cbn in Hps; by rewrite ?lookup_nil in Hps.
Qed.

(** The registries under the four steps. *)
Lemma registry_ok_initial m :
  ghosts m = ∅ → (∀ e, ent_dim m e < 4) → registry_ok (mkWorld pumi_new m).
Proof.
  intros Hg Hdim. split; [done|]. split; [done|]. split; [done|]. split.
  - intros e He. exfalso. apply He. unfold getGhosts. cbn. by rewrite Hg, lookup_empty.
  - intros t e Ht. done.
Qed.

Lemma vec_at_push_back v d e d' :
  d < length v →
  vec_at (push_back v d e) d' = if decide (d' = d) then vec_at v d ++ [e] else vec_at v d'.
Proof.
  intros Hd. unfold push_back.
  by rewrite (vec_at_alter (λ l, l ++ [e]) d d' v Hd).
Qed.

Lemma registry_ok_Ghosting_new w d plan w' :
  registry_ok w → Ghosting_new w d = Some (plan, w') → registry_ok w'.
Proof.
  intros (Hl1 & Hl2 & Hdim & Hcomplete & Htagged) Hnew.
  apply Ghosting_new_Some in Hnew as (ts & -> & -> & Hget & _).
  split; [done|]. split; [done|]. split; [done|]. split; [done|].
  cbn [instance the_mesh ghosted_tag ghost_vec ghosted_vec].
  intros t e Ht Hhas.
  assert (Hhas' : hasTag (the_mesh w) e t = true).
  { rewrite hasTag_getIntTag in Hhas |- *. by rewrite Hget in Hhas. }
  destruct (findTag (the_mesh w) "ghosted_tag") eqn:Hf.
  - by eapply Htagged.
  - injection Ht as <-. apply findTag_None in Hf.
    by rewrite (hasTag_no_tag _ _ _ Hf) in Hhas'.
Qed.

(** *** The registries under the steps of a ghosting *)

Lemma getGhosts_addGhost m e p r e' :
  getGhosts (addGhost m e p r) e' =
  if decide (e' = e) then <[p := r]> (getGhosts m e) else getGhosts m e'.
Proof.
  unfold getGhosts, addGhost. cbn. case_decide as He.
  - subst e'. by rewrite lookup_insert_eq.
  - by rewrite lookup_insert_ne.
Qed.

Lemma getIntTag_setIntTag_other m e t x e' t' :
  e' ≠ e → getIntTag (setIntTag m e t x) e' t' = getIntTag m e' t'.
Proof.
  intros Hne. unfold getIntTag, setIntTag. rewrite int_tag_data_alter.
  case_decide as Ht; [|done]. subst t'. unfold tag_data.
  destruct (int_tags m !! t); cbn; [|done]. by rewrite lookup_insert_ne.
Qed.

Lemma getIntTag_set_tags_other m entity (tags : list (string * Z)) e' t' :
  e' ≠ entity →
  getIntTag (foldl (λ m (tx : string * Z), setIntTag m entity tx.1 tx.2) m tags) e' t'
  = getIntTag m e' t'.
Proof.
  intros Hne. revert m. induction tags as [|tx tags IH]; intros m; [done|].
  cbn [foldl]. rewrite IH. by apply getIntTag_setIntTag_other.
Qed.

Lemma set_tags_frame m entity (tags : list (string * Z)) :
  let m' := foldl (λ m (tx : string * Z), setIntTag m entity tx.1 tx.2) m tags in
  ghosts m' = ghosts m ∧ ent_dim m' = ent_dim m ∧ live m' = live m
  ∧ history m' = history m.
Proof.
  cbv zeta. revert m. induction tags as [|tx tags IH]; intros m; [done|].
  cbn [foldl]. destruct (IH (setIntTag m entity tx.1 tx.2)) as (-> & -> & -> & ->).
  done.
Qed.

Lemma registry_ok_unpackGhost w from sender entity tags w' :
  registry_ok w → unpackGhost w from sender entity tags = Some w' → registry_ok w'.
Proof.
  intros (Hl1 & Hl2 & Hdim & Hcomplete & Htagged) Hun.
  unfold unpackGhost in Hun. cbn [ghost_tag] in Hun.
  destruct (ghost_tag (instance w)) as [gt|] eqn:Hgt; [|done].
  cbn [mbind option_bind] in Hun. injection Hun as <-.
  set (m0 := mkMesh _ _ _ _ _ _ _ _ _) in *.
  set (m1 := foldl _ m0 tags) in *.
  destruct (set_tags_frame m0 entity tags) as (Hg1 & Hd1 & _ & _). fold m1 in Hg1, Hd1.
  assert (Hdim1 : ent_dim (addGhost m1 entity from sender) = ent_dim (the_mesh w)).
  { cbn. by rewrite Hd1. }
  cbn [ent_dim addGhost with_ghosts] in Hdim1 |- *. rewrite ?Hdim1, ?Hd1.
  assert (Hin : ∀ e d, d < 4 →
            (e ∈ vec_at (ghost_vec (instance w)) d → 
             e ∈ vec_at (push_back (ghost_vec (instance w))
                                   (ent_dim (the_mesh w) entity) entity) d)
            ∧ entity ∈ vec_at (push_back (ghost_vec (instance w))
                                   (ent_dim (the_mesh w) entity) entity)
                              (ent_dim (the_mesh w) entity)).
  { intros e d Hd. rewrite !vec_at_push_back by (rewrite Hl1; apply Hdim).
    split; [case_decide; [subst d|]; set_solver|].
    case_decide; [set_solver|done]. }
  split; [by cbn; unfold push_back; rewrite length_alter|]. split; [done|].
  split; [by cbn; rewrite Hd1|].
  cbn [instance the_mesh ghost_vec ghosted_vec ghosted_tag ghost_tag].
  split.
  - intros e He. unfold getGhosts in He. cbn in He.
    destruct (decide (e = entity)) as [->|Hne].
    + exists (ent_dim (the_mesh w) entity). split; [apply Hdim|]. left.
      by apply (Hin entity _ (Hdim entity)).
    + rewrite lookup_insert_ne in He by done. rewrite Hg1 in He.
      destruct (Hcomplete e He) as (d & Hd & [Hv|Hv]); exists d; (split; [done|]).
      * left. by apply Hin.
      * by right.
  - intros t e Ht Hhas.
    destruct (decide (e = entity)) as [->|Hne].
    + exists (ent_dim (the_mesh w) entity). split; [apply Hdim|]. left.
      by apply (Hin entity _ (Hdim entity)).
    + assert (Hhas' : hasTag (the_mesh w) e t = true).
      { rewrite hasTag_getIntTag in Hhas |- *.
        rewrite getIntTag_setIntTag_other in Hhas by done.
        change (getIntTag (addGhost m1 entity from sender) e t)
          with (getIntTag m1 e t) in Hhas.
        subst m1. by rewrite getIntTag_set_tags_other in Hhas. }
      destruct (Htagged t e Ht Hhas') as (d & Hd & [Hv|Hv]); exists d; (split; [done|]).
      * left. by apply Hin.
      * by right.
Qed.

Lemma registry_ok_setupGhosts_receive w from entity sender w' :
  registry_ok w → setupGhosts_receive w from entity sender = Some w' → registry_ok w'.
Proof.
  intros Hok Hack.
  unfold setupGhosts_receive in Hack.
  destruct (ghosted_tag (instance w)) as [gdt|] eqn:Hgdt; [|done].
  destruct Hok as (Hl1 & Hl2 & Hdim & Hcomplete & Htagged).
  cbn [mbind option_bind] in Hack.
  set (m1 := addGhost (the_mesh w) entity from sender) in *.
  assert (Hothers : ∀ e, e ≠ entity → getGhosts m1 e ≠ ∅ →
            ∃ d, d < 4 ∧ (e ∈ vec_at (ghost_vec (instance w)) d
                          ∨ e ∈ vec_at (ghosted_vec (instance w)) d)).
  { intros e Hne He. subst m1. rewrite getGhosts_addGhost in He.
    rewrite decide_False in He by done. by apply Hcomplete. }
  destruct (hasTag m1 entity gdt) eqn:Hhas; cbn [negb] in Hack; injection Hack as <-.
  - (* already registered *)
    split; [done|]. split; [done|]. split; [exact Hdim|]. split.
    + intros e He. destruct (decide (e = entity)) as [->|Hne].
      * exact (Htagged gdt entity Hgdt Hhas).
      * by apply Hothers.
    + intros t e Ht Hh. exact (Htagged t e Ht Hh).
  - (* first acknowledgement for the entity *)
    assert (Hin : ∀ e d, d < 4 →
              (e ∈ vec_at (ghosted_vec (instance w)) d →
               e ∈ vec_at (push_back (ghosted_vec (instance w))
                                     (ent_dim m1 entity) entity) d)
              ∧ entity ∈ vec_at (push_back (ghosted_vec (instance w))
                                     (ent_dim m1 entity) entity)
                                (ent_dim m1 entity)).
    { intros e d Hd. rewrite !vec_at_push_back by (rewrite Hl2; apply Hdim).
      split; [case_decide; [subst d|]; set_solver|].
      case_decide; [set_solver|done]. }
    split; [done|]. split; [by cbn; unfold push_back; rewrite length_alter|].
    split; [exact Hdim|].
    cbn [instance the_mesh ghost_vec ghosted_vec ghosted_tag ghost_tag].
    split.
    + intros e He. destruct (decide (e = entity)) as [->|Hne].
      * exists (ent_dim m1 entity). split; [apply Hdim|]. right.
        by apply (Hin entity _ (Hdim entity)).
      * destruct (Hothers e Hne He) as (d & Hd & [Hv|Hv]); exists d; (split; [done|]).
        -- by left.
        -- right. by apply Hin.
    + intros t e Ht Hh. destruct (decide (e = entity)) as [->|Hne].
      * exists (ent_dim m1 entity). split; [apply Hdim|]. right.
        by apply (Hin entity _ (Hdim entity)).
      * assert (Hh' : hasTag (the_mesh w) e t = true).
        { rewrite hasTag_getIntTag in Hh |- *.
          by rewrite getIntTag_setIntTag_other in Hh. }
        rewrite <- Hgdt in Ht.
        destruct (Htagged t e Ht Hh') as (d & Hd & [Hv|Hv]); exists d; (split; [done|]).
        -- by left.
        -- right. by apply Hin.
Qed.

Lemma getGhosts_after_deletion w gdt rest e :
  registry_complete w →
  getGhosts (foldl perform (the_mesh w) (deletion_calls (instance w) gdt ++ rest)) e = ∅.
Proof.
  intros Hcomplete. set (cs := deletion_calls (instance w) gdt ++ rest).
  unfold getGhosts.
  destruct (ghosts (foldl perform (the_mesh w) cs) !! e) as [x|] eqn:Hx; [|done].
  cbn. destruct (decide (x = ∅)) as [->|Hne]; [done|]. exfalso.
  pose proof (ghosts_foldl_perform_sub _ _ _ _ Hx) as Hbefore.
  destruct (Hcomplete e) as (d & Hd & [He|He]).
  { unfold getGhosts. by rewrite Hbefore. }
  - rewrite ghosts_foldl_perform_gone in Hx; [done|]. left. subst cs.
    apply elem_of_app. left. by eapply elem_of_deletion_calls_destroy.
  - rewrite ghosts_foldl_perform_gone in Hx; [done|]. right. subst cs.
    apply elem_of_app. left. by eapply elem_of_deletion_calls_unghost.
Qed.

Lemma ent_dim_foldl_perform m cs : ent_dim (foldl perform m cs) = ent_dim m.
Proof.
  revert m. induction cs as [|c cs IH]; intros m; [done|].
  cbn [foldl]. rewrite IH. by destruct c.
Qed.

Lemma registry_ok_pumi_ghost_delete w w' :
  registry_ok w → pumi_ghost_delete w = Some w' → registry_ok w'.
Proof.
  intros Hok Hdel.
  destruct (ghosted_tag (instance w)) as [gdt|] eqn:Hgdt;
    [|by unfold pumi_ghost_delete in Hdel; rewrite Hgdt in Hdel].
  destruct (ghost_tag (instance w)) as [gt|] eqn:Hgt;
    [|by unfold pumi_ghost_delete in Hdel; rewrite Hgdt, Hgt in Hdel].
  rewrite (pumi_ghost_delete_mesh w gt gdt Hgt Hgdt) in Hdel. injection Hdel as <-.
  destruct Hok as (Hl1 & Hl2 & Hdim & Hcomplete & Htagged).
  split; [by cbn; rewrite !length_insert|].
  split; [by cbn; rewrite !length_insert|].
  split; [by cbn [the_mesh]; rewrite ent_dim_foldl_perform|].
  split; [|done].
  intros e He. exfalso. apply He. by apply getGhosts_after_deletion.
Qed.

Lemma registry_ok_run w op w' : registry_ok w → run w op = Some w' → registry_ok w'.
Proof.
  intros Hok Hrun. destruct op as [d|from sender entity tags|from entity sender|];
    cbn [run] in Hrun.
  - destruct (Ghosting_new w d) as [[plan w1]|] eqn:Hnew; [|done].
    injection Hrun as <-. by eapply registry_ok_Ghosting_new.
  - by eapply registry_ok_unpackGhost.
  - by eapply registry_ok_setupGhosts_receive.
  - by eapply registry_ok_pumi_ghost_delete.
Qed.

Lemma registry_ok_run_all ops w w' :
  registry_ok w → run_all w ops = Some w' → registry_ok w'.
Proof.
  revert w. induction ops as [|op ops IH]; intros w Hok Hrun; cbn [run_all] in Hrun.
  - by injection Hrun as <-.
  - destruct (run w op) as [w1|] eqn:Hop; [|done]. cbn [mbind option_bind] in Hrun.
    eapply IH; [|done]. by eapply registry_ok_run.
Qed.

(** ghosted_tag stays null until a plan is constructed. *)
Lemma ghosted_tag_run w op w' :
  constructs_plan op = false → ghosted_tag (instance w) = None →
  run w op = Some w' → ghosted_tag (instance w') = None.
Proof.
  intros Hop Hnull Hrun. destruct op as [d|from sender entity tags|from entity sender|];
    [done| | |]; cbn [run] in Hrun.
  - unfold unpackGhost in Hrun. cbn [ghost_tag] in Hrun.
    destruct (ghost_tag (instance w)); [|done]. by injection Hrun as <-.
  - unfold setupGhosts_receive in Hrun. by rewrite Hnull in Hrun.
  - unfold pumi_ghost_delete in Hrun. by rewrite Hnull in Hrun.
Qed.

Lemma ghosted_tag_run_all ops w w' :
  Forall (λ op, constructs_plan op = false) ops →
  ghosted_tag (instance w) = None →
  run_all w ops = Some w' → ghosted_tag (instance w') = None.
Proof.
  intros Hops. revert w. induction Hops as [|op ops Hop Hops IH]; intros w Hnull Hrun;
    cbn [run_all] in Hrun.
  - by injection Hrun as <-.
  - destruct (run w op) as [w1|] eqn:Hrun1; [|done]. cbn [mbind option_bind] in Hrun.
    eapply IH; [|done]. by eapply ghosted_tag_run.
Qed.

(** *** The claims *)

Lemma sample_dimensions e : ent_dim sample_mesh e < 4.
Proof. cbn. repeat case_match; lia. Qed.

Lemma sample_registry_ok : registry_ok sample_world.
Proof. apply registry_ok_initial; [done|apply sample_dimensions]. Qed.

(** C6, as amended.  On a plan that fits its mesh: the bulk send(to)
    leaves the plan and the mesh alone when [to] is the local part, so it
    keeps the destination sets free of the local part id, and for another
    part it puts [to] into the destination set of every entity of the
    ghost dimension.  The per-entity send(e, to) puts [to] into the
    destination set of [e] whatever [to] is, the local part id included
    (its guard is commented out); it keeps the sets free of the local part
    id when [to] is another part.  Destination sets only grow. *)
Theorem self_sends_elided_in_bulk_only (self : Z) (plan : Ghosting) (m : Mesh) :
  plan_fits plan m →
  (∀ to plan' m',
     send_all self plan m to = Some (plan', m') →
     (self_free self plan → self_free self plan')
     ∧ (to = self → plan' = plan ∧ m' = m)
     ∧ (to ≠ self → ∀ e, e ∈ iterate m (ghost_dim plan) →
          ∃ ps, sending plan' m' e (ent_dim m e) = Some ps ∧ to ∈ ps))
  ∧ (∀ e to plan' m',
       send plan m e to = Some (plan', m') →
       (∃ ps, sending plan' m' e (ent_dim m e) = Some ps ∧ to ∈ ps)
       ∧ (to ≠ self → self_free self plan → self_free self plan')
       ∧ (∀ e' ps, sending plan m e' (ent_dim m e') = Some ps →
            ∃ ps', sending plan' m' e' (ent_dim m e') = Some ps' ∧ ps ⊆ ps')).
Proof.
  intros Hfit. split.
  - intros to plan' m' Hsend. unfold send_all in Hsend.
    destruct (Z.eqb_spec to self) as [->|Hne].
    + injection Hsend as <- <-. split; [done|]. split; [done|]. done.
    + destruct (send_each_spec self plan m _ to plan' m' Hfit Hsend)
        as (_ & _ & Hfree & _ & Hall).
      split; [by apply Hfree|]. split; [done|]. intros _. exact Hall.
  - intros e to plan' m' Hsend. split; [by eapply send_adds|].
    split; [by eapply send_self_free|].
    intros e' ps Hps.
    destruct (send_grows plan m e to plan' m' e' ps Hfit Hsend Hps) as (ps' & ? & ? & _).
    by exists ps'.
Qed.

Lemma sample_plan_eq : Ghosting_new sample_world 2 = Some sample_plan.
Proof. vm_compute. reflexivity. Qed.

Lemma sample_plan_fits : plan_fits sample_plan.1 (the_mesh sample_plan.2).
Proof.
  destruct sample_plan as [plan w] eqn:Hp. pose proof sample_plan_eq as Hnew.
  rewrite Hp in Hnew. cbn [fst snd].
  eapply Ghosting_new_fits; [|exact Hnew]. apply sample_dimensions.
Qed.

(** On the sample, part 0 sends every face to part 1 in bulk: face 20 is
    marked for part 1 and no destination set holds part 0. *)
Lemma self_sends_elided_in_bulk_only_witness :
  ∃ plan' m',
    send_all 0 sample_plan.1 (the_mesh sample_plan.2) 1 = Some (plan', m')
    ∧ self_free 0 plan'
    ∧ ∃ ps, sending plan' m' 20 2 = Some ps ∧ 1%Z ∈ ps.
Proof.
  destruct (send_all 0 sample_plan.1 (the_mesh sample_plan.2) 1)
    as [[plan' m']|] eqn:Hsend; [|by vm_compute in Hsend].
  exists plan', m'. split; [done|].
  destruct (self_sends_elided_in_bulk_only 0 _ _ sample_plan_fits) as [Hbulk _].
  destruct (Hbulk _ _ _ Hsend) as (Hfree & _ & Hall). split.
  - apply Hfree.
    apply (Ghosting_new_fits sample_world 2 sample_plan.1 sample_plan.2
             sample_dimensions sample_plan_eq).
  - apply (Hall ltac:(done) 20). vm_compute. apply list_elem_of_here.
Defined.

(** C6, as stated, fails: on the sample part 0 calls send(face 20, 0) on a
    fresh plan, whose destination sets are free of part 0; afterwards the
    destination set of face 20 is {0}, the local part id. *)
Lemma send_entity_to_self :
  ∃ plan' m',
    self_free 0 sample_plan.1
    ∧ send sample_plan.1 (the_mesh sample_plan.2) 20 0 = Some (plan', m')
    ∧ sending plan' m' 20 2 = Some {[ 0%Z ]}.
Proof.
  eexists _, _. split.
  { apply (Ghosting_new_fits sample_world 2 sample_plan.1 sample_plan.2
             sample_dimensions sample_plan_eq). }
  split; [vm_compute; reflexivity|]. vm_compute. reflexivity.
Qed.

Lemma ghost_sendEntities_total self plan m entDim es tags comm :
  Forall (λ e, is_Some (sending plan m e entDim)) es →
  is_Some (ghost_sendEntities self plan m entDim es tags comm).
Proof.
  intros Hes. revert comm. induction Hes as [|ent es [target Htarget] Hes IH]; intros comm.
  - done.
  - cbn [ghost_sendEntities]. cbv zeta. rewrite Htarget. cbn [mbind option_bind].
    destruct (isShared m ent && negb (self =? getOwner m ent)%Z); [apply IH|].
    case_decide; apply IH.
Qed.

(** C7.  The send pass.  When every listed entity is in the plan,
    ghost_sendEntities completes, and what it has packed for a part [p] is,
    in the order of the list, one message for each entity whose destination
    set holds [p] while [p] is neither a part of its remote copies, nor the
    local part, nor a part of its ghost copies; an entity that is shared
    and owned by another part is packed for no part.  The message of an
    entity carries the data of every listed tag the entity has. *)
Theorem send_pass_destinations (self : Z) (plan : Ghosting) (m : Mesh)
    (entDim : nat) (es : list Entity) (tags : list string) :
  Forall (λ e, is_Some (sending plan m e entDim)) es →
  ∃ comm,
    ghost_sendEntities self plan m entDim es tags ∅ = Some comm
    ∧ (∀ p, packed_for comm p =
            flat_map (λ e, if decide (p ∈ specified_destinations self plan m entDim e)
                           then [mkPacked e (pack_tags m e tags)] else []) es)
    ∧ (∀ p e, mkPacked e (pack_tags m e tags) ∈ packed_for comm p
              ↔ e ∈ es ∧ p ∈ specified_destinations self plan m entDim e)
    ∧ (∀ p e, isShared m e = true → self ≠ getOwner m e →
              mkPacked e (pack_tags m e tags) ∉ packed_for comm p)
    ∧ (∀ e t x, getIntTag m e t = Some x → t ∈ tags → (t, x) ∈ pack_tags m e tags).
Proof.
  intros Hes.
  destruct (ghost_sendEntities_total self plan m entDim es tags ∅ Hes) as [comm Hrun].
  exists comm. split; [done|].
  pose proof (ghost_sendEntities_spec self plan m entDim es tags ∅ comm Hrun) as Hspec.
  assert (Hlist : ∀ p, packed_for comm p =
            flat_map (λ e, if decide (p ∈ specified_destinations self plan m entDim e)
                           then [mkPacked e (pack_tags m e tags)] else []) es).
  { intros p. rewrite Hspec. unfold packed_for. by rewrite lookup_empty. }
  assert (Hiff : ∀ p e, mkPacked e (pack_tags m e tags) ∈ packed_for comm p
              ↔ e ∈ es ∧ p ∈ specified_destinations self plan m entDim e).
  { intros p e. rewrite Hlist, list_elem_of_In, in_flat_map. split.
    - intros (e' & He' & Hin). case_decide as Hp; [|done].
      destruct Hin as [Heq|[]]. injection Heq as ->. by rewrite list_elem_of_In.
    - intros [He Hp]. exists e. rewrite <- list_elem_of_In. split; [done|].
      rewrite decide_True by done. by left. }
  split; [done|]. split; [done|]. split.
  - intros p e Hshared Howner Hin. apply Hiff in Hin as [_ Hp].
    unfold specified_destinations in Hp. rewrite Hshared in Hp.
    destruct (Z.eqb_spec self (getOwner m e)); [done|]. set_solver.
  - intros e t x Hx Ht. unfold pack_tags. apply list_elem_of_omap.
    exists t. split; [done|]. by rewrite Hx.
Qed.

(** On the sample after the bulk send to part 1: face 20 is packed for
    part 1 with its tag, and nothing is packed for part 0. *)
Lemma send_pass_destinations_witness :
  Forall (λ e, is_Some (sending sample_sent.1 sample_sent.2 e 2)) [20]
  ∧ ∃ comm,
      ghost_sendEntities 0 sample_sent.1 sample_sent.2 2 [20] ["_parts_index_"] ∅
      = Some comm
      ∧ packed_for comm 1 = [mkPacked 20 [("_parts_index_", 0%Z)]]
      ∧ packed_for comm 0 = [].
Proof.
  assert (Hes : Forall (λ e, is_Some (sending sample_sent.1 sample_sent.2 e 2)) [20]).
  { constructor; [|constructor]. exists {[ 1%Z ]}. vm_compute. reflexivity. }
  split; [exact Hes|].
  destruct (send_pass_destinations 0 sample_sent.1 sample_sent.2 2 [20]
              ["_parts_index_"] Hes) as (comm & Hrun & Hlist & _).
  exists comm. split; [exact Hrun|]. rewrite !Hlist. split; vm_compute; reflexivity.
Defined.

Section layer_parameters.
Local Open Scope Z_scope.

(** C9, as amended.  pumi_ghost_createLayer returns at once, printing
    nothing and touching nothing, when there is one process or the layer
    count is 0.  Otherwise it checks the two dimensions: unless
    0 <= bridge < ghost <= mesh dimension it prints the error on rank 0 and
    returns without touching the mesh or making a plan.  With dimensions
    that pass, the call does not return early, whatever the layer count
    and include_copy are. *)
Theorem createLayer_checks_the_dimensions (self peers : Z)
    (get2ndAdj : Mesh → Entity → Z → Z → list Entity) (w : World)
    (brg_dim ghost_dim num_layer include_copy : Z) :
  (peers = 1 ∨ num_layer = 0 →
     pumi_ghost_createLayer self peers get2ndAdj w brg_dim ghost_dim num_layer
                            include_copy
     = Returned w [])
  ∧ (peers ≠ 1 → num_layer ≠ 0 →
     ¬ (0 ≤ brg_dim < ghost_dim ∧ ghost_dim ≤ getDimension (the_mesh w)) →
     pumi_ghost_createLayer self peers get2ndAdj w brg_dim ghost_dim num_layer
                            include_copy
     = Returned w (if self =? 0
                   then ["pumi_ghost_createLayer ERROR: invalid bridge/ghost dimension"%string]
                   else []))
  ∧ (peers ≠ 1 → num_layer ≠ 0 →
     0 ≤ brg_dim < ghost_dim ∧ ghost_dim ≤ getDimension (the_mesh w) →
     ∀ w' printed,
       pumi_ghost_createLayer self peers get2ndAdj w brg_dim ghost_dim num_layer
                              include_copy
       ≠ Returned w' printed).
Proof.
  unfold pumi_ghost_createLayer. split; [|split].
  - intros [->| ->]; [done|]. by rewrite orb_true_r.
  - intros Hpeers Hlayer Hdims.
    destruct (Z.eqb_spec peers 1) as [|_]; [done|].
    destruct (Z.eqb_spec num_layer 0) as [|_]; [done|]. cbn [orb]. cbv zeta.
    destruct (Z.leb_spec ghost_dim brg_dim); [done|].
    destruct (Z.ltb_spec brg_dim 0); [done|].
    destruct (Z.leb_spec (getDimension (the_mesh w)) brg_dim); [done|].
    destruct (Z.ltb_spec (getDimension (the_mesh w)) ghost_dim); [done|].
    destruct (Z.ltb_spec ghost_dim 1); [done|]. lia.
  - intros Hpeers Hlayer Hdims w' printed.
    destruct (Z.eqb_spec peers 1) as [|_]; [done|].
    destruct (Z.eqb_spec num_layer 0) as [|_]; [done|]. cbn [orb]. cbv zeta.
    destruct (Z.leb_spec ghost_dim brg_dim); [lia|].
    destruct (Z.ltb_spec brg_dim 0); [lia|].
    destruct (Z.leb_spec (getDimension (the_mesh w)) brg_dim); [lia|].
    destruct (Z.ltb_spec (getDimension (the_mesh w)) ghost_dim); [lia|].
    destruct (Z.ltb_spec ghost_dim 1); [lia|]. cbn [orb].
    by destruct (mbind _ _) as [[??]|].
Qed.

(** C9, as stated, fails: on the sample (two processes, rank 0, mesh
    dimension 2) the call with bridge 0, ghost 2, layer count -1 and
    include_copy 7 is not rejected: it makes a plan that sends face 20 to
    part 1 and leaves new tags on the mesh.  With layer count 0 the call
    returns without a report on rank 0. *)
Lemma createLayer_accepts_other_inputs :
  (∃ w' plan,
     pumi_ghost_createLayer 0 2 sample_get2ndAdj sample_world 0 2 (-1) 7
     = Ghosts w' plan
     ∧ parts_vec plan = [[]; []; [{[ 1 ]}]; []]
     ∧ findTag (the_mesh w') "_parts_index_" = Some "_parts_index_"%string
     ∧ findTag sample_mesh "_parts_index_" = None)
  ∧ pumi_ghost_createLayer 0 2 sample_get2ndAdj sample_world 0 2 0 0
    = Returned sample_world [].
Proof.
  split; [|reflexivity].
  eexists _, _. split; [vm_compute; reflexivity|].
  split; [vm_compute; reflexivity|]. split; vm_compute; reflexivity.
Qed.

End layer_parameters.

(** C10.  pumi_ghost_delete asserts ghosted_tag.  The pointer is null in
    a new process; from a state where it is null, deletion fails the
    assertion, and so it does after any steps that construct no plan, which
    leave the pointer null.  The constructor of a plan sets the pointer
    (when the mesh has no tag of that name yet). *)
Theorem delete_asserts_a_plan_was_made (w : World) (ops : list Op) (w' : World) :
  ghosted_tag (instance w) = None →
  Forall (λ op, constructs_plan op = false) ops →
  run_all w ops = Some w' →
  ghosted_tag pumi_new = None
  ∧ pumi_ghost_delete w = None
  ∧ ghosted_tag (instance w') = None
  ∧ pumi_ghost_delete w' = None
  ∧ ∀ d plan w'',
      Ghosting_new w' d = Some (plan, w'') →
      findTag (the_mesh w') "ghosted_tag" = None →
      ghosted_tag (instance w'') = Some "ghosted_tag".
Proof.
  intros Hnull Hops Hrun.
  pose proof (ghosted_tag_run_all ops w w' Hops Hnull Hrun) as Hnull'.
  split; [done|].
  split; [by unfold pumi_ghost_delete; rewrite Hnull|].
  split; [done|].
  split; [by unfold pumi_ghost_delete; rewrite Hnull'|].
  intros d plan w'' Hnew Hfind.
  apply Ghosting_new_Some in Hnew as (ts & _ & -> & _). cbn. by rewrite Hfind.
Qed.

(** A process whose ghosted_tag is null receives a ghost: the ghost copy
    is there, the pointer is still null, and deletion fails. *)
Lemma delete_asserts_a_plan_was_made_witness :
  ∃ w',
    run_all unplanned_world [Unpack 1 500 30 []] = Some w'
    ∧ getGhosts (the_mesh w') 30 = {[ 1%Z := 500 ]}
    ∧ ghosted_tag (instance w') = None
    ∧ pumi_ghost_delete w' = None.
Proof.
  destruct (run_all unplanned_world [Unpack 1 500 30 []]) as [w'|] eqn:Hrun;
    [|by vm_compute in Hrun].
  exists w'. split; [done|].
  split; [by vm_compute in Hrun; injection Hrun as <-; vm_compute|].
  destruct (delete_asserts_a_plan_was_made unplanned_world [Unpack 1 500 30 []] w')
    as (_ & _ & Htag & Hdel & _); [done|by repeat constructor|done|].
  by split.
Defined.

(** C8.  Delete completeness.  When both tag pointers are set and every
    entity with a ghost copy is in one of the two registries (the
    registries keep this under every step of a ghosting, see
    [registry_ok_run_all]), pumi_ghost_delete completes.  Its calls on the
    mesh are, in this order: for d = 3 down to 0, destroy on every entity
    of ghost_vec[d], then removeTag of ghosted_tag and deleteGhost on every
    entity of ghosted_vec[d]; then destroyTag on ghost_tag and on
    ghosted_tag.  Afterwards the entities of ghost_vec are gone from the
    part, the mesh has neither tag, both pointers are null, both registries
    are empty in every dimension, and no entity carries ghost_tag or
    ghosted_tag or has a ghost copy. *)
Theorem delete_completeness (w : World) (gt gdt : string) :
  ghost_tag (instance w) = Some gt →
  ghosted_tag (instance w) = Some gdt →
  registry_complete w →
  ∃ w', pumi_ghost_delete w = Some w'
    ∧ history (the_mesh w')
      = history (the_mesh w) ++ deletion_calls (instance w) gdt
        ++ [DestroyTag gt; DestroyTag gdt]
    ∧ (∀ d e, d < 4 → e ∈ vec_at (ghost_vec (instance w)) d →
              e ∉ live (the_mesh w'))
    ∧ findTag (the_mesh w') gt = None
    ∧ findTag (the_mesh w') gdt = None
    ∧ ghost_tag (instance w') = None
    ∧ ghosted_tag (instance w') = None
    ∧ (∀ d, d < 4 → vec_at (ghost_vec (instance w')) d = []
                    ∧ vec_at (ghosted_vec (instance w')) d = [])
    ∧ (∀ e, hasTag (the_mesh w') e gt = false
            ∧ hasTag (the_mesh w') e gdt = false
            ∧ getGhosts (the_mesh w') e = ∅).
Proof.
  intros Hgt Hgdt Hcomplete. eexists. split; [by apply pumi_ghost_delete_mesh|].
  cbn [the_mesh instance ghost_tag ghosted_tag ghost_vec ghosted_vec].
  set (cs := deletion_calls (instance w) gdt ++ [DestroyTag gt; DestroyTag gdt]).
  assert (Hgt' : int_tags (foldl perform (the_mesh w) cs) !! gt = None).
  { apply tags_foldl_perform_gone. subst cs. set_solver. }
  assert (Hgdt' : int_tags (foldl perform (the_mesh w) cs) !! gdt = None).
  { apply tags_foldl_perform_gone. subst cs. set_solver. }
  split; [apply history_foldl_perform|].
  split.
  { intros d e Hd He. apply live_foldl_perform_gone. subst cs.
    apply elem_of_app. left. by eapply elem_of_deletion_calls_destroy. }
  split. { unfold findTag. rewrite Hgt'. case_decide as Hx; [by destruct Hx|done]. }
  split. { unfold findTag. rewrite Hgdt'. case_decide as Hx; [by destruct Hx|done]. }
  split; [done|]. split; [done|].
  split. { intros d Hd. split; by apply cleared_vec. }
  intros e. split; [by apply hasTag_no_tag|]. split; [by apply hasTag_no_tag|].
  subst cs. by apply getGhosts_after_deletion.
Qed.

Lemma ghosted_world_eq :
  run_all sample_world
    [NewGhosting 2; Unpack 1 500 30 [("_parts_index_", 0%Z)]; Acknowledge 1 20 700]
  = Some ghosted_world.
Proof. vm_compute. reflexivity. Qed.

(** On part 0 of the sample after a ghosting: the received face 30 is
    destroyed, face 20 loses ghosted_tag and its ghost copy, both tags are
    destroyed and the registries are empty. *)
Lemma delete_completeness_witness :
  ghost_vec (instance ghosted_world) = [[]; []; [30]; []]
  ∧ ghosted_vec (instance ghosted_world) = [[]; []; [20]; []]
  ∧ getGhosts (the_mesh ghosted_world) 20 = {[ 1%Z := 700 ]}
  ∧ ∃ w',
      pumi_ghost_delete ghosted_world = Some w'
      ∧ history (the_mesh w')
        = [Destroy 30; RemoveTag 20 "ghosted_tag"; DeleteGhost 20;
           DestroyTag "ghost_tag"; DestroyTag "ghosted_tag"]
      ∧ 30 ∉ live (the_mesh w')
      ∧ ghost_tag (instance w') = None
      ∧ ghosted_tag (instance w') = None
      ∧ ghost_vec (instance w') = [[]; []; []; []]
      ∧ ghosted_vec (instance w') = [[]; []; []; []]
      ∧ getGhosts (the_mesh w') 20 = ∅.
Proof.
  split; [vm_compute; reflexivity|]. split; [vm_compute; reflexivity|].
  split; [vm_compute; reflexivity|].
  assert (Hok : registry_ok ghosted_world).
  { exact (registry_ok_run_all _ _ _ sample_registry_ok ghosted_world_eq). }
  destruct Hok as (_ & _ & _ & Hcomplete & _).
  destruct (delete_completeness ghosted_world "ghost_tag" "ghosted_tag"
              ltac:(vm_compute; reflexivity) ltac:(vm_compute; reflexivity) Hcomplete)
    as (w' & Hdel & Hhist & Hlive & _ & _ & Hgt & Hgdt & Hvec & Hclean).
  exists w'. split; [exact Hdel|].
  split; [rewrite Hhist; vm_compute; reflexivity|].
  split; [apply (Hlive 2 30); [lia|vm_compute; apply list_elem_of_here]|].
  split; [exact Hgt|]. split; [exact Hgdt|].
  assert (Hdel' := Hdel). vm_compute in Hdel'. injection Hdel' as <-.
  split; [reflexivity|]. split; [reflexivity|].
  apply Hclean.
Defined.

End ghost_properties.

(* ===================================================================== *)
(** ** Part III  Further properties of the code *)
(* ===================================================================== *)


Module ghost_coverage.
Import pumi ghost_properties.

Lemma size_list_to_set_le (l : list nat) : size (list_to_set l : gset nat) ≤ length l.
Proof.
  induction l as [|x l IH]; [done|]. cbn [list_to_set length].
  destruct (decide (x ∈ (list_to_set l : gset nat))) as [Hin|Hnot].
  - replace ({[x]} ∪ list_to_set l : gset nat) with (list_to_set l : gset nat) by set_solver.
    lia.
  - rewrite size_union by set_solver. rewrite size_singleton. lia.
Qed.

Lemma size_filter_le (P : nat → Prop) `{!∀ x, Decision (P x)} (X : gset nat) :
  size (filter P X) ≤ size X.
Proof. apply subseteq_size. intros x [_ ?]%elem_of_filter. done. Qed.

Lemma sending_None plan m e d :
  getIntTag m e (parts_index_tag plan) = None → sending plan m e d = None.
Proof.
  intros Hnone. unfold sending. apply hasTag_false in Hnone. by rewrite Hnone.
Qed.

Lemma sending_at plan m e d i :
  getIntTag m e (parts_index_tag plan) = Some i → (0 ≤ i)%Z →
  sending plan m e d = vec_at (parts_vec plan) d !! Z.to_nat i.
Proof.
  intros Hi Hpos. unfold sending.
  assert (Hhas : hasTag m e (parts_index_tag plan) = true).
  { apply hasTag_true. by rewrite Hi. }
  rewrite Hhas, Hi. cbn [negb mbind option_bind].
  destruct (Z.ltb_spec i 0); [lia|done].
Qed.

Lemma tag_data_setIntTag m e t x :
  is_Some (int_tags m !! t) →
  tag_data (setIntTag m e t x) t = <[e := x]> (tag_data m t).
Proof.
  intros [data Hdata]. unfold setIntTag. rewrite int_tag_data_alter.
  rewrite decide_True by done. unfold tag_data. by rewrite Hdata.
Qed.

Lemma planned_entities_new plan plan' m e x d :
  is_Some (int_tags m !! parts_index_tag plan) →
  parts_index_tag plan' = parts_index_tag plan →
  getIntTag m e (parts_index_tag plan) = None →
  planned_entities plan' (setIntTag m e (parts_index_tag plan) x) d
  = if decide (ent_dim m e = d) then {[ e ]} ∪ planned_entities plan m d
    else planned_entities plan m d.
Proof.
  intros Htag Heq Hnone. unfold planned_entities. rewrite Heq.
  rewrite tag_data_setIntTag by done. rewrite dom_insert_L.
  change (ent_dim (setIntTag m e (parts_index_tag plan) x)) with (ent_dim m).
  apply set_eq. intros y. case_decide as Hd.
  - rewrite elem_of_union, !elem_of_filter, elem_of_union, elem_of_singleton.
    split; [intros [? [->|?]]; auto|intros [->|[? ?]]; auto].
  - rewrite !elem_of_filter, elem_of_union, elem_of_singleton.
    split; [intros [? [->|?]]; [done|auto]|intros [? ?]; auto].
Qed.

(** One call of send(e, to) on a sound plan. *)
Lemma send_step plan m e to :
  plan_wf plan m →
  (Z.of_nat (length (vec_at (parts_vec plan) (ent_dim m e))) < 2 ^ 31)%Z →
  ∃ plan' m',
    send plan m e to = Some (plan', m')
    ∧ plan_wf plan' m'
    ∧ ent_dim m' = ent_dim m
    ∧ parts_index_tag plan' = parts_index_tag plan
    ∧ ghost_dim plan' = ghost_dim plan
    ∧ sending plan' m' e (ent_dim m e)
      = Some (default ∅ (sending plan m e (ent_dim m e)) ∪ {[ to ]})
    ∧ (∀ e', e' ≠ e →
         sending plan' m' e' (ent_dim m e') = sending plan m e' (ent_dim m e')
         ∧ getIntTag m' e' (parts_index_tag plan)
           = getIntTag m e' (parts_index_tag plan))
    ∧ (∀ d, length (vec_at (parts_vec plan') d)
            = if decide (d = ent_dim m e
                         ∧ getIntTag m e (parts_index_tag plan) = None)
              then S (length (vec_at (parts_vec plan) d))
              else length (vec_at (parts_vec plan) d))
    ∧ (∀ e' t', t' ≠ parts_index_tag plan → getIntTag m' e' t' = getIntTag m e' t')
    ∧ live m' = live m ∧ ghosts m' = ghosts m ∧ remotes m' = remotes m.
Proof.
  intros (Hfit & Hsize & Hrange & Hinj) Hroom.
  destruct Hfit as (Htag & Hlen & Hdim).
  set (t := parts_index_tag plan) in *. set (d := ent_dim m e) in *.
  assert (Hd : d < length (parts_vec plan)) by (rewrite Hlen; apply Hdim).
  unfold send. fold t d.
  destruct (getIntTag m e t) as [i|] eqn:Hi.
  - (* the entity is in the plan *)
    assert (Hhas : hasTag m e t = true) by (apply hasTag_true; by rewrite Hi).
    rewrite Hhas. cbn [negb mbind option_bind].
    destruct (Hrange e i Hi) as [Hi0 Hi1]. fold d in Hi1.
    destruct (Z.eqb_spec i (-1)); [lia|]. destruct (Z.ltb_spec i 0); [lia|].
    destruct (lookup_lt_is_Some_2 (vec_at (parts_vec plan) d) (Z.to_nat i))
      as [ps Hps]; [lia|].
    rewrite Hps. cbn [mbind option_bind].
    eexists _, _. split; [reflexivity|].
    assert (Hvec : ∀ d', vec_at (alter (λ l, <[Z.to_nat i := ps ∪ {[to]}]> l) d
                                       (parts_vec plan)) d'
                   = if decide (d' = d)
                     then <[Z.to_nat i := ps ∪ {[to]}]> (vec_at (parts_vec plan) d)
                     else vec_at (parts_vec plan) d').
    { intros d'. by rewrite vec_at_alter. }
    assert (Hlens : ∀ d', length (vec_at (alter (λ l, <[Z.to_nat i := ps ∪ {[to]}]> l) d
                                       (parts_vec plan)) d')
                          = length (vec_at (parts_vec plan) d')).
    { intros d'. rewrite Hvec. case_decide; [subst d'|done]. by rewrite length_insert. }
    split.
    { split; [split; [done|split; [by cbn; rewrite length_alter|done]]|].
      cbn [parts_vec parts_index_tag]. split.
      { intros d' Hd'. rewrite Hlens. by apply Hsize. }
      split.
      { intros e' i' Hi'. rewrite Hlens. by apply Hrange. }
      exact Hinj. }
    split; [done|]. split; [done|]. split; [done|]. split.
    { rewrite (sending_at _ m e d i) by done.
      rewrite (sending_at plan m e d i) by done. cbn [parts_vec].
      rewrite Hvec, decide_True by done. rewrite Hps. cbn [from_option id].
      apply list_lookup_insert_eq. eapply lookup_lt_Some, Hps. }
    split.
    { intros e' Hne. split; [|done].
      destruct (getIntTag m e' t) as [i'|] eqn:Hi'.
      - destruct (Hrange e' i' Hi') as [Hi0' _].
        rewrite (sending_at _ m e' _ i') by done.
        rewrite (sending_at plan m e' _ i') by done. cbn [parts_vec].
        rewrite Hvec. case_decide as Hdd; [|done]. rewrite Hdd.
        apply list_lookup_insert_ne. intros Heq.
        apply Hne. symmetry. apply (Hinj e e' i); [done| |done].
        rewrite Hi'. f_equal. lia.
      - by rewrite !sending_None. }
    split.
    { intros d'. rewrite Hlens. case_decide as Hc; [by destruct Hc|done]. }
    done.
  - (* the entity enters the plan *)
    assert (Hhas : hasTag m e t = false) by (by apply hasTag_false).
    rewrite Hhas. cbn [negb mbind option_bind].
    set (n := length (vec_at (parts_vec plan) d)) in *.
    rewrite (int_of_size_small n) by done.
    destruct (Z.eqb_spec (Z.of_nat n) (-1)); [lia|].
    destruct (Z.ltb_spec (Z.of_nat n) 0); [lia|].
    cbn [parts_vec]. rewrite Nat2Z.id.
    assert (Hvec1 : vec_at (alter (λ l, l ++ [∅]) d (parts_vec plan)) d
                    = vec_at (parts_vec plan) d ++ [∅]).
    { rewrite vec_at_alter by done. by rewrite decide_True. }
    rewrite Hvec1. rewrite list_lookup_middle by done. cbn [mbind option_bind].
    eexists _, _. split; [reflexivity|].
    set (pv' := alter _ d (alter _ d (parts_vec plan))).
    assert (Hl1 : length (alter (λ l : list (gset Z), l ++ [∅]) d (parts_vec plan)) = 4).
    { by rewrite length_alter. }
    assert (Hvec : ∀ d', vec_at pv' d'
                   = if decide (d' = d)
                     then vec_at (parts_vec plan) d ++ [∅ ∪ {[to]}]
                     else vec_at (parts_vec plan) d').
    { intros d'. subst pv'. rewrite vec_at_alter by (rewrite Hl1; apply Hdim).
      case_decide as Hdd.
      - rewrite Hvec1. fold n.
        replace n with (length (vec_at (parts_vec plan) d) + 0) at 1 by (subst n; lia).
        rewrite insert_app_r. done.
      - rewrite vec_at_alter by done. by rewrite decide_False. }
    assert (Hget : ∀ e', getIntTag (setIntTag m e t (Z.of_nat n)) e' t
                         = if decide (e' = e) then Some (Z.of_nat n) else getIntTag m e' t).
    { intros e'. rewrite getIntTag_setIntTag by done.
      case_decide as H1; case_decide as H2; try done; [by destruct H1|].
      by destruct H1. }
    split.
    { split; [split; [|split; [by cbn; subst pv'; rewrite !length_alter|done]]|].
      { cbn. unfold setIntTag. cbn. rewrite lookup_alter_eq. by destruct Htag as [? ->]. }
      cbn [parts_vec parts_index_tag].
      change (ent_dim (setIntTag m e t (Z.of_nat n))) with (ent_dim m).
      split.
      { intros d' Hd'. rewrite Hvec.
        rewrite (planned_entities_new plan _ m e) by done. fold d.
        destruct (decide (d' = d)) as [->|Hdd].
        - rewrite decide_True by done. rewrite length_app. cbn.
          rewrite size_union, size_singleton.
          + rewrite <- Hsize by done. lia.
          + apply disjoint_singleton_l. unfold planned_entities.
            intros Hin%elem_of_filter. destruct Hin as [_ Hin%elem_of_dom].
            unfold getIntTag in Hi. fold t in Hin. rewrite Hi in Hin. by destruct Hin.
        - rewrite decide_False by done. by apply Hsize. }
      split.
      { intros e' i' Hi'. rewrite Hget in Hi'. rewrite Hvec.
        destruct (decide (e' = e)) as [->|Hne].
        - injection Hi' as <-. fold d. rewrite decide_True by done.
          rewrite length_app. cbn. fold n. lia.
        - destruct (Hrange e' i' Hi') as [? ?].
          case_decide as Hdd; [|done]. rewrite length_app. cbn. rewrite <- Hdd. lia. }
      intros e1 e2 i' H1 H2 Hdd. rewrite Hget in H1, H2.
      destruct (decide (e1 = e)) as [->|Hn1], (decide (e2 = e)) as [->|Hn2]; [done| | |].
      + injection H1 as <-. destruct (Hrange e2 _ H2) as [_ Hlt].
        rewrite <- Hdd in Hlt. fold d n in Hlt. lia.
      + injection H2 as <-. destruct (Hrange e1 _ H1) as [_ Hlt].
        rewrite Hdd in Hlt. fold d n in Hlt. lia.
      + by eapply Hinj. }
    split; [done|]. split; [done|]. split; [done|]. split.
    { rewrite (sending_at _ _ e d (Z.of_nat n)); [|by rewrite Hget, decide_True|lia].
      cbn [parts_vec]. rewrite Hvec, decide_True by done. rewrite Nat2Z.id.
      rewrite (sending_None plan m e) by done. cbn [from_option id].
      by rewrite list_lookup_middle. }
    split.
    { intros e' Hne. rewrite Hget, decide_False by done. split; [|done].
      destruct (getIntTag m e' t) as [i'|] eqn:Hi'.
      - destruct (Hrange e' i' Hi') as [Hi0' Hi1'].
        rewrite (sending_at _ _ e' _ i'); [|by rewrite Hget, decide_False|done].
        rewrite (sending_at plan m e' _ i') by done. cbn [parts_vec].
        rewrite Hvec. case_decide as Hdd; [|done]. rewrite Hdd.
        apply lookup_app_l. rewrite <- Hdd. lia.
      - rewrite sending_None; [|by rewrite Hget, decide_False].
        by rewrite sending_None. }
    split.
    { intros d'. rewrite Hvec. destruct (decide (d' = d)) as [->|Hdd].
      - rewrite decide_True by done. rewrite length_app. cbn. lia.
      - rewrite decide_False; [done|]. by intros [? _]. }
    split; [|done].
    intros e' t' Ht'. rewrite getIntTag_setIntTag by done.
    rewrite decide_False; [done|]. by intros [? _].
Qed.

Lemma send_list_None sends :
  foldl (λ st (s : nat * Z), '(plan, m) ← st; send plan m s.1 s.2) None sends = None.
Proof. induction sends as [|s sends IH]; [done|]. exact IH. Qed.

Lemma send_list_cons plan m s sends :
  send_list plan m (s :: sends) =
  match send plan m s.1 s.2 with
  | Some (plan', m') => send_list plan' m' sends
  | None => None
  end.
Proof.
  unfold send_list. cbn [foldl mbind option_bind].
  destruct (send plan m s.1 s.2) as [[plan' m']|]; [done|apply send_list_None].
Qed.

(** A sequence of sends on a sound plan. *)
Lemma send_list_spec sends : ∀ plan m,
  plan_wf plan m →
  (∀ d, d < 4 →
        (Z.of_nat (length (vec_at (parts_vec plan) d) + length sends) < 2 ^ 31)%Z) →
  ∃ plan' m',
    send_list plan m sends = Some (plan', m')
    ∧ plan_wf plan' m'
    ∧ ent_dim m' = ent_dim m
    ∧ parts_index_tag plan' = parts_index_tag plan
    ∧ ghost_dim plan' = ghost_dim plan
    ∧ (∀ e, e ∉ sends.*1 →
         sending plan' m' e (ent_dim m e) = sending plan m e (ent_dim m e)
         ∧ getIntTag m' e (parts_index_tag plan) = getIntTag m e (parts_index_tag plan))
    ∧ (∀ e, e ∈ sends.*1 →
         ∃ ps, sending plan' m' e (ent_dim m e) = Some ps
               ∧ ∀ p, p ∈ ps ↔ p ∈ default ∅ (sending plan m e (ent_dim m e))
                              ∨ (e, p) ∈ sends)
    ∧ (∀ e' t', t' ≠ parts_index_tag plan → getIntTag m' e' t' = getIntTag m e' t')
    ∧ live m' = live m ∧ ghosts m' = ghosts m ∧ remotes m' = remotes m.
Proof.
  induction sends as [|[e to] sends IH]; intros plan m Hwf Hroom.
  - exists plan, m. split; [done|]. split; [done|]. split; [done|]. split; [done|].
    split; [done|]. split; [done|]. split; [|done].
    intros e He. by apply elem_of_nil in He.
  - assert (Hdim : ∀ e, ent_dim m e < 4) by apply Hwf.
    destruct (send_step plan m e to Hwf) as
      (plan1 & m1 & Hsend & Hwf1 & Hdim1 & Htag1 & Hgd1 & Hmine & Hothers & Hlen
       & Htags1 & Hlive1 & Hghosts1 & Hrem1).
    { specialize (Hroom (ent_dim m e) (Hdim e)). cbn [length] in Hroom. lia. }
    destruct (IH plan1 m1 Hwf1) as
      (plan' & m' & Hrun & Hwf' & Hdim' & Htag' & Hgd' & Hout & Hin & Htags'
       & Hlive' & Hghosts' & Hrem').
    { intros d Hd. rewrite Hlen. specialize (Hroom d Hd). cbn [length] in Hroom.
      case_decide; lia. }
    exists plan', m'. rewrite send_list_cons. cbn [fst snd]. rewrite Hsend.
    split; [done|]. split; [done|]. split; [by rewrite Hdim', Hdim1|].
    split; [by rewrite Htag', Htag1|]. split; [by rewrite Hgd', Hgd1|].
    rewrite Htag1, Hdim1 in *.
    split; [|split].
    + intros e' Hnot. rewrite fmap_cons, not_elem_of_cons in Hnot.
      destruct Hnot as [Hne Hnot]. cbn [fst] in Hne.
      destruct (Hout e' Hnot) as [-> ->]. by apply Hothers.
    + intros e' He'. rewrite fmap_cons in He'. cbn [fst] in He'.
      destruct (decide (e' ∈ sends.*1)) as [Hlater|Hnot].
      * destruct (Hin e' Hlater) as (ps & Hps & Hmem). exists ps. split; [done|].
        intros p. rewrite Hmem, elem_of_cons.
        destruct (decide (e' = e)) as [->|Hne].
        -- rewrite Hmine. cbn [from_option id]. rewrite elem_of_union, elem_of_singleton.
           split; [intros [[?| ->]|?]; auto|intros [?|[ [= ->] |?]]; auto].
        -- destruct (Hothers e' Hne) as [-> _].
           split; [intros [?|?]; auto|intros [?|[ [= ? ?] |?]]; [auto|done|auto]].
      * apply elem_of_cons in He' as [->|?]; [|done].
        destruct (Hout e Hnot) as [Hsame _]. rewrite Hmine in Hsame.
        eexists. split; [exact Hsame|]. intros p.
        rewrite elem_of_union, elem_of_singleton, elem_of_cons.
        split; [intros [?| ->]; auto|intros [?|[ [= ->] |Hlater]]; auto].
        exfalso. apply Hnot. apply list_elem_of_fmap. by exists (e, p).
    + split; [intros e' t' Ht'; by rewrite Htags', Htags1|].
      split; [by rewrite Hlive', Hlive1|]. split; [by rewrite Hghosts', Hghosts1|].
      by rewrite Hrem', Hrem1.
Qed.

(** A plan is constructed without entities. *)
Lemma Ghosting_new_empty w d plan w' :
  Ghosting_new w d = Some (plan, w') →
  ∀ e, getIntTag (the_mesh w') e (parts_index_tag plan) = None.
Proof.
  intros Hnew e. unfold Ghosting_new in Hnew.
  destruct (create_if_missing _ "ghost_tag" _) as [[m1 gt]|]; [|done].
  cbn [mbind option_bind] in Hnew.
  destruct (create_if_missing m1 "ghosted_tag" _) as [[m2 gdt]|]; [|done].
  cbn [mbind option_bind] in Hnew.
  destruct (createIntTag m2 "_parts_index_") as [[m3 t3]|] eqn:Hc3; [|done].
  cbn [mbind option_bind] in Hnew. injection Hnew as <- <-.
  apply createIntTag_Some in Hc3 as (_ & -> & ->).
  cbn. unfold getIntTag, tag_data. cbn. by rewrite lookup_insert_eq.
Qed.

Lemma Ghosting_new_wf w d plan w' :
  (∀ e, ent_dim (the_mesh w) e < 4) →
  Ghosting_new w d = Some (plan, w') →
  plan_wf plan (the_mesh w')
  ∧ (∀ d', vec_at (parts_vec plan) d' = [])
  ∧ ghost_dim plan = d
  ∧ ent_dim (the_mesh w') = ent_dim (the_mesh w).
Proof.
  intros Hdim Hnew.
  pose proof (Ghosting_new_empty w d plan w' Hnew) as Hempty.
  destruct (Ghosting_new_fits w d plan w' Hdim Hnew) as [Hfit _].
  apply Ghosting_new_Some in Hnew as (ts & -> & -> & _ & Hidx).
  cbn [parts_index_tag the_mesh] in Hempty.
  assert (Hvec : ∀ d', vec_at (replicate 4 ([] : list (gset Z))) d' = []).
  { intros [|[|[|[|d']]]]; done. }
  split; [|done].
  split; [done|]. cbn [parts_vec parts_index_tag]. split.
  - intros d' _. rewrite Hvec. cbn. symmetry. apply size_empty_iff, elem_of_equiv_empty.
    intros e [_ Hin%elem_of_dom]%elem_of_filter.
    unfold getIntTag in Hempty. rewrite Hempty in Hin. by destruct Hin.
  - split; intros e; intros; by rewrite Hempty in *.
Qed.

(** X1.  The plan holds the sends that were issued.  After any sequence
    of calls send(e, to) on a newly constructed plan (on a mesh of
    dimension at most 3, fewer than 2^31 calls), every call has succeeded
    and, for every entity [e]: has(e) tells whether some call named [e];
    if none did, sending(e) fails its assertion and count(e, d) is 0; if
    one did, sending(e) is exactly the set of the part ids [e] was sent
    to and count(e, d) is its size.  So the destination set of an entity
    does not depend on the sends of any other entity, nor on the order or
    the repetition of the calls. *)
Theorem plan_holds_the_sends (w : World) (d : Z) (plan : Ghosting) (w' : World)
    (sends : list (Entity * Z)) :
  (∀ e, ent_dim (the_mesh w) e < 4) →
  Ghosting_new w d = Some (plan, w') →
  (Z.of_nat (length sends) < 2 ^ 31)%Z →
  ∃ plan' m',
    send_list plan (the_mesh w') sends = Some (plan', m')
    ∧ ∀ e,
        has plan' m' e = bool_decide (e ∈ sends.*1)
        ∧ (e ∉ sends.*1 →
             sending plan' m' e (ent_dim m' e) = None
             ∧ count_of plan' m' e (ent_dim m' e) = Some 0%Z)
        ∧ (e ∈ sends.*1 →
             ∃ ps, sending plan' m' e (ent_dim m' e) = Some ps
                   ∧ (∀ p, p ∈ ps ↔ (e, p) ∈ sends)
                   ∧ count_of plan' m' e (ent_dim m' e) = Some (Z.of_nat (size ps))).
Proof.
  intros Hdim Hnew Hroom.
  pose proof (Ghosting_new_empty w d plan w' Hnew) as Hempty.
  destruct (Ghosting_new_wf w d plan w' Hdim Hnew) as (Hwf & Hvec & _ & _).
  destruct (send_list_spec sends plan (the_mesh w') Hwf)
    as (plan' & m' & Hrun & Hwf' & Hdim' & Htag' & _ & Hout & Hin & _).
  { intros d' _. rewrite Hvec. cbn [length]. lia. }
  exists plan', m'. split; [done|]. intros e. rewrite Hdim'.
  assert (Hcount : ∀ ps, sending plan' m' e (ent_dim (the_mesh w') e) = Some ps →
            count_of plan' m' e (ent_dim (the_mesh w') e) = Some (Z.of_nat (size ps))).
  { intros ps Hps. apply sending_Some in Hps as (i & Hi & Hpos & Hlook).
    unfold count_of.
    assert (Hhas : hasTag m' e (parts_index_tag plan') = true).
    { apply hasTag_true. by rewrite Hi. }
    rewrite Hhas, Hi. cbn [negb mbind option_bind].
    destruct (Z.ltb_spec i 0); [lia|]. by rewrite Hlook. }
  destruct (decide (e ∈ sends.*1)) as [He|He].
  - destruct (Hin e He) as (ps & Hps & Hmem).
    rewrite (sending_None plan (the_mesh w') e) in Hmem by apply Hempty.
    cbn [from_option id] in Hmem.
    split.
    { rewrite bool_decide_eq_true_2 by done. unfold has.
      apply sending_Some in Hps as (i & Hi & _).
      assert (Hhas : hasTag m' e (parts_index_tag plan') = true).
      { apply hasTag_true. by rewrite Hi. }
      by rewrite Hhas. }
    split; [done|]. intros _. exists ps. split; [done|]. split; [|by apply Hcount].
    intros p. rewrite Hmem. set_solver.
  - destruct (Hout e He) as [Hsame Hget]. rewrite Hempty in Hget.
    rewrite <- Htag' in Hget.
    assert (Hhas : hasTag m' e (parts_index_tag plan') = false) by (by apply hasTag_false).
    split.
    { rewrite bool_decide_eq_false_2 by done. unfold has. by rewrite Hhas. }
    split; [|done]. intros _. split.
    + by apply sending_None.
    + unfold count_of. by rewrite Hhas.
Qed.

(** X2.  Ghosting::count() counts the planned entities of the ghost
    dimension.  After any sequence of calls send(e, to) on a newly
    constructed plan, count() is the number of distinct entities of the
    ghost dimension that were sent, whatever the number of sends per
    entity; with a ghost dimension outside 0..3 it reads outside the
    array of vectors. *)
Theorem count_is_the_number_of_planned_entities (w : World) (d : Z)
    (plan : Ghosting) (w' : World) (sends : list (Entity * Z)) :
  (∀ e, ent_dim (the_mesh w) e < 4) →
  Ghosting_new w d = Some (plan, w') →
  (Z.of_nat (length sends) < 2 ^ 31)%Z →
  ∃ plan' m',
    send_list plan (the_mesh w') sends = Some (plan', m')
    ∧ count_all plan'
      = if (0 <=? d)%Z && (d <? 4)%Z
        then Some (Z.of_nat (size (filter (λ e, Z.of_nat (ent_dim m' e) = d)
                                          (list_to_set sends.*1 : gset nat))))
        else None.
Proof.
  intros Hdim Hnew Hroom.
  pose proof (Ghosting_new_empty w d plan w' Hnew) as Hempty.
  destruct (Ghosting_new_wf w d plan w' Hdim Hnew) as (Hwf & Hvec & Hgd & _).
  destruct (send_list_spec sends plan (the_mesh w') Hwf)
    as (plan' & m' & Hrun & Hwf' & Hdim' & Htag' & Hgd' & Hout & Hin & _).
  { intros d' _. rewrite Hvec. cbn [length]. lia. }
  exists plan', m'. split; [done|]. unfold count_all. rewrite Hgd', Hgd.
  destruct ((0 <=? d)%Z && (d <? 4)%Z) eqn:Hd; [|done].
  apply andb_true_iff in Hd as [Hd0%Z.leb_le Hd4%Z.ltb_lt]. f_equal.
  destruct Hwf' as (_ & Hsize & _).
  rewrite (Hsize (Z.to_nat d)) by lia.
  assert (Hset : planned_entities plan' m' (Z.to_nat d)
                 = filter (λ e, Z.of_nat (ent_dim m' e) = d)
                          (list_to_set sends.*1 : gset nat)).
  { apply set_eq. intros e. unfold planned_entities.
    rewrite !elem_of_filter, elem_of_dom, elem_of_list_to_set.
    change (tag_data m' (parts_index_tag plan') !! e)
      with (getIntTag m' e (parts_index_tag plan')).
    assert (Htagged : is_Some (getIntTag m' e (parts_index_tag plan')) ↔ e ∈ sends.*1).
    { rewrite Htag'. destruct (decide (e ∈ sends.*1)) as [He|He].
      - destruct (Hin e He) as (ps & Hps & _).
        apply sending_Some in Hps as (i & Hi & _). rewrite Htag' in Hi.
        rewrite Hi. split; eauto.
      - destruct (Hout e He) as [_ Hget]. rewrite Hget, Hempty.
        split; [by intros [? ?]|done]. }
    rewrite Htagged. split; intros [? ?]; (split; [lia|done]). }
  rewrite Hset. apply int_of_size_small.
  assert (Hle : size (filter (λ e, Z.of_nat (ent_dim m' e) = d)
                             (list_to_set sends.*1 : gset nat)) ≤ length sends).
  { etransitivity; [apply size_filter_le|].
    etransitivity; [apply size_list_to_set_le|]. by rewrite length_fmap. }
  lia.
Qed.

Lemma alter_fixed {A} (f : A → A) (l : list A) d x :
  l !! d = Some x → f x = x → alter f d l = l.
Proof.
  intros Hx Hf. apply list_eq. intros j. destruct (decide (j = d)) as [->|Hne].
  - rewrite list_lookup_alter_eq, Hx. cbn. by rewrite Hf.
  - by rewrite list_lookup_alter_ne.
Qed.

(** X3.  send(e, to) is idempotent: a second call with the same entity
    and part id, right after the first, leaves both the plan and the mesh
    exactly as the first call left them. *)
Theorem send_again_changes_nothing (plan : Ghosting) (m : Mesh) (e : Entity)
    (to : Z) (plan' : Ghosting) (m' : Mesh) :
  plan_fits plan m →
  send plan m e to = Some (plan', m') →
  send plan' m' e to = Some (plan', m').
Proof.
  intros Hfit Hsend.
  destruct (send_Some plan m e to plan' m' Hfit Hsend)
    as (index & Hidx & _ & Hdim & Htag & _ & Hfit' & Hslot & _).
  cbv zeta in *. rewrite <- Htag in Hidx. rewrite <- Hdim in Hslot.
  unfold send.
  assert (Hhas : hasTag m' e (parts_index_tag plan') = true).
  { apply hasTag_true. by rewrite Hidx. }
  rewrite Hhas, Hidx. cbn [negb mbind option_bind].
  destruct (Z.eqb_spec (Z.of_nat index) (-1)); [lia|].
  destruct (Z.ltb_spec (Z.of_nat index) 0); [lia|].
  rewrite Nat2Z.id, Hslot. cbn [mbind option_bind]. f_equal. f_equal.
  destruct plan' as [gd pv t]. cbn [ghost_dim parts_vec parts_index_tag] in *. f_equal.
  destruct Hfit' as (_ & Hlen & Hdims). cbn [parts_vec] in Hlen.
  destruct (lookup_lt_is_Some_2 pv (ent_dim m' e)) as [l Hl]; [rewrite Hlen; apply Hdims|].
  apply (alter_fixed _ pv (ent_dim m' e) l Hl).
  unfold vec_at in Hslot. rewrite Hl in Hslot. cbn [from_option id] in Hslot.
  apply list_insert_id. rewrite Hslot. f_equal. set_solver.
Qed.

Lemma same_but_tag_refl t m : same_but_tag t m m.
Proof. by repeat split. Qed.

Lemma same_but_tag_trans t m1 m2 m3 :
  same_but_tag t m1 m2 → same_but_tag t m2 m3 → same_but_tag t m1 m3.
Proof.
  intros (Ha1 & Ha2 & Ha3 & Ha4 & Ha5 & Ha6 & Ha7) (Hb1 & Hb2 & Hb3 & Hb4 & Hb5 & Hb6 & Hb7).
  split; [intros e t' Ht'; by rewrite Hb1, Ha1|].
  split; [intros t'; by rewrite Hb2, Ha2|].
  repeat split; congruence.
Qed.

Lemma same_but_tag_removeTag t m e : same_but_tag t m (removeTag m e t).
Proof.
  split.
  { intros e' t' Ht'. unfold getIntTag, removeTag.
    change (tag_data (record ?m ?c) t') with (tag_data m t').
    rewrite int_tag_data_alter. by rewrite decide_False. }
  split; [|done].
  intros t'. cbn. destruct (decide (t' = t)) as [->|Hne].
  - rewrite lookup_alter_eq. by rewrite is_Some_fmap || (destruct (int_tags m !! t); cbn; split; eauto).
  - by rewrite lookup_alter_ne.
Qed.

Lemma same_but_tag_removeTagFromDimension t m d :
  same_but_tag t m (removeTagFromDimension m t d).
Proof.
  unfold removeTagFromDimension. generalize (iterate m d). intros es.
  assert (Hgen : ∀ m0, same_but_tag t m m0 →
            same_but_tag t m (foldl (λ m e, if hasTag m e t then removeTag m e t else m) m0 es)).
  { induction es as [|e es IH]; intros m0 H0; [done|]. cbn [foldl]. apply IH.
    destruct (hasTag m0 e t); [|done].
    eapply same_but_tag_trans; [exact H0|apply same_but_tag_removeTag]. }
  apply Hgen, same_but_tag_refl.
Qed.

(** X4.  The destructor of a plan.  It fails its assertion when the
    mesh has no tag named _parts_index_.  Otherwise it completes: the mesh
    has no tag of that name afterwards and no entity carries it, the data
    of every other tag, the entities and the remote and ghost copies are
    what they were, and a new plan can be constructed on the mesh (the
    constructor finds the name free). *)
Theorem plan_destructor_frees_the_index_tag (plan : Ghosting) (m : Mesh) :
  (int_tags m !! "_parts_index_" = None → Ghosting_delete plan m = None)
  ∧ (is_Some (int_tags m !! "_parts_index_") →
     ∃ m', Ghosting_delete plan m = Some m'
       ∧ findTag m' "_parts_index_" = None
       ∧ (∀ e, hasTag m' e "_parts_index_" = false)
       ∧ (∀ e t, t ≠ "_parts_index_" → getIntTag m' e t = getIntTag m e t)
       ∧ live m' = live m ∧ ghosts m' = ghosts m ∧ remotes m' = remotes m
       ∧ ∀ i d, is_Some (Ghosting_new (mkWorld i m') d)).
Proof.
  unfold Ghosting_delete. split.
  - intros Hnone. apply findTag_None in Hnone. by rewrite Hnone.
  - intros Htag. unfold findTag at 1. rewrite decide_True by done.
    cbn [mbind option_bind]. eexists. split; [reflexivity|].
    set (m1 := foldl _ m _).
    assert (H1 : same_but_tag "_parts_index_" m m1).
    { subst m1. generalize (seqZ 0 (ghost_dim plan + 1)). intros ds.
      assert (Hgen : ∀ m0, same_but_tag "_parts_index_" m m0 →
                same_but_tag "_parts_index_" m
                  (foldl (λ m d, removeTagFromDimension m "_parts_index_" d) m0 ds)).
      { induction ds as [|d ds IH]; intros m0 H0; [done|]. cbn [foldl]. apply IH.
        eapply same_but_tag_trans; [exact H0|apply same_but_tag_removeTagFromDimension]. }
      apply Hgen, same_but_tag_refl. }
    destruct H1 as (Hget & Htags & Hlive & Hdim & Hghosts & Hrem & _).
    assert (Hgone : int_tags (destroyTag m1 "_parts_index_") !! "_parts_index_" = None).
    { cbn. apply lookup_delete_eq. }
    split; [by apply findTag_None|].
    split; [intros e; by apply hasTag_no_tag|].
    split.
    { intros e t Ht. rewrite <- Hget by done. unfold getIntTag, tag_data, destroyTag. cbn.
      by rewrite lookup_delete_ne. }
    split; [done|]. split; [done|]. split; [done|].
    intros i d. unfold Ghosting_new. cbn [the_mesh instance].
    destruct (create_if_missing_Some (destroyTag m1 "_parts_index_") "ghost_tag"
                (ghost_tag i)) as (ts1 & -> & _ & Hother1 & _).
    cbn [mbind option_bind].
    destruct (create_if_missing_Some
                (with_tags (destroyTag m1 "_parts_index_") ts1) "ghosted_tag"
                (ghosted_tag i)) as (ts2 & -> & _ & Hother2 & _).
    cbn [mbind option_bind]. unfold createIntTag. cbn [int_tags with_tags].
    cbn [int_tags with_tags] in Hother2.
    rewrite Hother2, Hother1, Hgone by done. done.
Qed.

Lemma hasTag_setIntTag_mono m e t x e' t' :
  hasTag m e' t' = true → hasTag (setIntTag m e t x) e' t' = true.
Proof.
  rewrite !hasTag_true. unfold getIntTag, setIntTag. rewrite int_tag_data_alter.
  case_decide as Ht; [subst t'|done]. unfold tag_data.
  destruct (int_tags m !! t) as [data|]; cbn; [|by rewrite lookup_empty].
  intros Hsome. destruct (decide (e' = e)) as [->|Hne].
  - rewrite lookup_insert_eq. eauto.
  - by rewrite lookup_insert_ne.
Qed.

Lemma hasTag_setIntTag_here m e t x :
  is_Some (int_tags m !! t) → hasTag (setIntTag m e t x) e t = true.
Proof.
  intros Ht. apply hasTag_true. rewrite getIntTag_setIntTag by done.
  rewrite decide_True by done. eauto.
Qed.

Lemma int_tags_setIntTag m e t x t' :
  is_Some (int_tags (setIntTag m e t x) !! t') ↔ is_Some (int_tags m !! t').
Proof.
  cbn. destruct (decide (t' = t)) as [->|Hne].
  - rewrite lookup_alter_eq. destruct (int_tags m !! t); cbn; split; eauto.
    all: by intros [? ?].
  - by rewrite lookup_alter_ne.
Qed.

Lemma set_tags_mono m entity (tags : list (string * Z)) :
  let m' := foldl (λ m (tx : string * Z), setIntTag m entity tx.1 tx.2) m tags in
  (∀ e t, hasTag m e t = true → hasTag m' e t = true)
  ∧ (∀ t, is_Some (int_tags m' !! t) ↔ is_Some (int_tags m !! t)).
Proof.
  cbv zeta. revert m. induction tags as [|tx tags IH]; intros m; [done|].
  cbn [foldl]. destruct (IH (setIntTag m entity tx.1 tx.2)) as [Hmono Htags].
  split.
  - intros e t Hhas. by apply Hmono, hasTag_setIntTag_mono.
  - intros t. by rewrite Htags, int_tags_setIntTag.
Qed.

Lemma registry_sound_initial m : registry_sound (mkWorld pumi_new m).
Proof.
  unfold registry_sound. cbn.
  assert (Hvec : ∀ d, vec_at (replicate 4 ([] : list nat)) d = []).
  { intros [|[|[|[|d']]]]; done. }
  split; [intros d e He; rewrite Hvec in He; by apply elem_of_nil in He|].
  split; [intros d e He; rewrite Hvec in He; by apply elem_of_nil in He|].
  split; [intros d; rewrite Hvec; split; constructor|]. done.
Qed.

Lemma registry_sound_Ghosting_new w d plan w' :
  registry_sound w → Ghosting_new w d = Some (plan, w') → registry_sound w'.
Proof.
  intros (Hgv & Hgdv & Hnd & Hgt & Hgdt) Hnew. unfold Ghosting_new in Hnew.
  destruct (create_if_missing_Some (the_mesh w) "ghost_tag" (ghost_tag (instance w)))
    as (ts1 & Hc1 & Hget1 & Hother1 & Hsome1).
  rewrite Hc1 in Hnew. cbn [mbind option_bind] in Hnew.
  destruct (create_if_missing_Some (with_tags (the_mesh w) ts1) "ghosted_tag"
              (ghosted_tag (instance w))) as (ts2 & Hc2 & Hget2 & Hother2 & Hsome2).
  rewrite Hc2 in Hnew. cbn [mbind option_bind] in Hnew.
  destruct (createIntTag _ "_parts_index_") as [[m3 t3]|] eqn:Hc3; [|done].
  cbn [mbind option_bind] in Hnew. injection Hnew as <- <-.
  apply createIntTag_Some in Hc3 as (Hf3 & -> & ->).
  apply findTag_None in Hf3. cbn in Hf3.
  set (m3 := with_tags (with_tags (with_tags (the_mesh w) ts1) ts2) _).
  assert (Hget : ∀ e t, getIntTag m3 e t = getIntTag (the_mesh w) e t).
  { intros e t. etransitivity; [|apply Hget1]. etransitivity; [|apply Hget2].
    by apply (getIntTag_new_tag (with_tags (with_tags (the_mesh w) ts1) ts2)). }
  assert (Hhas : ∀ e t, hasTag m3 e t = hasTag (the_mesh w) e t).
  { intros e t. by rewrite !hasTag_getIntTag, Hget. }
  assert (Htags : ∀ t, is_Some (int_tags (the_mesh w) !! t) → is_Some (int_tags m3 !! t)).
  { intros t Ht. subst m3. cbn.
    destruct (decide (t = "_parts_index_")) as [->|Hn3]; [by rewrite lookup_insert_eq|].
    rewrite lookup_insert_ne by done. cbn in Hother2.
    destruct (decide (t = "ghosted_tag")) as [->|Hn2]; [done|].
    rewrite Hother2 by done.
    destruct (decide (t = "ghost_tag")) as [->|Hn1]; [done|].
    by rewrite Hother1. }
  assert (Hf2 : findTag (with_tags (the_mesh w) ts1) "ghosted_tag"
                = findTag (the_mesh w) "ghosted_tag").
  { unfold findTag. cbn. by rewrite Hother1. }
  rewrite Hf2. unfold registry_sound.
  cbn [instance the_mesh ghost_tag ghosted_tag ghost_vec ghosted_vec].
  split.
  { intros d' e He. destruct (Hgv d' e He) as (Hd & Hlive & t & Ht & Htag).
    split; [done|]. split; [done|]. exists t. destruct (Hgt t Ht) as [-> Hin].
    split; [|by rewrite Hhas].
    unfold findTag. by rewrite decide_True. }
  split.
  { intros d' e He. destruct (Hgdv d' e He) as (Hd & Hgh & t & Ht & Htag).
    split; [done|]. split; [done|]. exists t. destruct (Hgdt t Ht) as [-> Hin].
    split; [|by rewrite Hhas].
    unfold findTag. by rewrite decide_True. }
  split; [done|]. split.
  - intros t Ht. destruct (findTag (the_mesh w) "ghost_tag") eqn:Hf.
    + destruct (Hgt t Ht) as [-> Hin]. split; [done|]. by apply Htags.
    + injection Ht as <-. split; [done|]. subst m3. cbn.
      rewrite lookup_insert_ne by done. cbn in Hother2. by rewrite Hother2.
  - intros t Ht. destruct (findTag (the_mesh w) "ghosted_tag") eqn:Hf.
    + destruct (Hgdt t Ht) as [-> Hin]. split; [done|]. by apply Htags.
    + injection Ht as <-. split; [done|]. subst m3. cbn.
      by rewrite lookup_insert_ne.
Qed.

Lemma elem_of_push_back v d e d' x :
  d < length v →
  x ∈ vec_at (push_back v d e) d' ↔ x ∈ vec_at v d' ∨ (d' = d ∧ x = e).
Proof.
  intros Hd. rewrite vec_at_push_back by done. case_decide as Hdd.
  - subst d'. rewrite elem_of_app, list_elem_of_singleton. naive_solver.
  - naive_solver.
Qed.

Lemma NoDup_push_back v d e d' :
  d < length v → NoDup (vec_at v d') → e ∉ vec_at v d →
  NoDup (vec_at (push_back v d e) d').
Proof.
  intros Hd Hnd Hnot. rewrite vec_at_push_back by done. case_decide as Hdd; [|done].
  subst d'. apply NoDup_app. split; [done|]. split.
  - intros x Hx ->%list_elem_of_singleton. done.
  - apply NoDup_singleton.
Qed.

Lemma getGhosts_addGhost_ne m e p r e' :
  getGhosts m e' ≠ ∅ → getGhosts (addGhost m e p r) e' ≠ ∅.
Proof.
  rewrite getGhosts_addGhost. case_decide as He; [|done]. subst e'.
  intros _ Hempty. apply (insert_non_empty (getGhosts m e) p r). done.
Qed.

Lemma registry_sound_unpackGhost w from sender entity tags w' :
  registry_sound w → length (ghost_vec (instance w)) = 4 →
  (∀ e, ent_dim (the_mesh w) e < 4) →
  entity ∉ live (the_mesh w) →
  unpackGhost w from sender entity tags = Some w' → registry_sound w'.
Proof.
  intros (Hgv & Hgdv & Hnd & Hgt & Hgdt) Hlen Hdim Hfresh Hun.
  unfold unpackGhost in Hun. cbn [ghost_tag] in Hun.
  destruct (ghost_tag (instance w)) as [gt|] eqn:Hgteq; [|done].
  cbn [mbind option_bind] in Hun. injection Hun as <-.
  set (m0 := mkMesh _ _ _ _ _ _ _ _ _) in *.
  set (m1 := foldl _ m0 tags) in *.
  destruct (set_tags_frame m0 entity tags) as (Hg1 & Hd1 & Hl1 & _).
  destruct (set_tags_mono m0 entity tags) as (Hmono & Htags1).
  fold m1 in Hg1, Hd1, Hl1, Hmono, Htags1.
  set (m2 := addGhost m1 entity from sender).
  set (m3 := setIntTag m2 entity gt from).
  assert (Hdim3 : ent_dim m3 = ent_dim (the_mesh w)) by (cbn; by rewrite Hd1).
  assert (Hlive3 : live m3 = live (the_mesh w) ++ [entity]) by (cbn; by rewrite Hl1).
  destruct (Hgt gt eq_refl) as [-> Hgtin].
  assert (Hhas3 : ∀ e t, hasTag (the_mesh w) e t = true → hasTag m3 e t = true).
  { intros e t Hhas. apply hasTag_setIntTag_mono. apply (Hmono e t). exact Hhas. }
  assert (Htags3 : ∀ t, is_Some (int_tags (the_mesh w) !! t) → is_Some (int_tags m3 !! t)).
  { intros t Ht. subst m3. apply int_tags_setIntTag. cbn. by apply Htags1. }
  assert (Hghosts3 : ∀ e, getGhosts (the_mesh w) e ≠ ∅ → getGhosts m3 e ≠ ∅).
  { intros e He. change (getGhosts m3 e) with (getGhosts m2 e). subst m2.
    apply getGhosts_addGhost_ne. unfold getGhosts. by rewrite Hg1. }
  assert (Hd : ent_dim m2 entity < length (ghost_vec (instance w))).
  { change (ent_dim m2) with (ent_dim m1). rewrite Hd1, Hlen. apply Hdim. }
  unfold registry_sound.
  cbn [instance the_mesh ghost_tag ghosted_tag ghost_vec ghosted_vec].
  fold m2 m3. rewrite Hdim3, Hlive3. split.
  { intros d e He. apply (elem_of_push_back _ _ _ _ _ Hd) in He as [He|[-> ->]].
    - destruct (Hgv d e He) as (Hde & Hlive & t & Ht & Htag).
      split; [done|]. split; [set_solver|]. exists t. split; [done|]. by apply Hhas3.
    - split; [by change (ent_dim m2) with (ent_dim m1); rewrite Hd1|].
      split; [set_solver|]. exists "ghost_tag". split; [done|].
      apply hasTag_setIntTag_here. cbn. by apply Htags1. }
  split.
  { intros d e He. destruct (Hgdv d e He) as (Hde & Hgh & t & Ht & Htag).
    split; [done|]. split; [by apply Hghosts3|]. exists t. split; [done|].
    by apply Hhas3. }
  split.
  { intros d. split; [|apply Hnd]. apply NoDup_push_back; [done|apply Hnd|].
    intros Hin. apply Hfresh. by destruct (Hgv _ _ Hin) as (_ & ? & _). }
  split.
  - intros t [= <-]. split; [done|]. by apply Htags3.
  - intros t Ht. destruct (Hgdt t Ht) as [-> Hin]. split; [done|]. by apply Htags3.
Qed.

Lemma registry_sound_setupGhosts_receive w from entity sender w' :
  registry_sound w → length (ghosted_vec (instance w)) = 4 →
  (∀ e, ent_dim (the_mesh w) e < 4) →
  setupGhosts_receive w from entity sender = Some w' → registry_sound w'.
Proof.
  intros Hsound Hlen Hdim Hack. unfold setupGhosts_receive in Hack.
  destruct (ghosted_tag (instance w)) as [gdt|] eqn:Hgdteq; [|done].
  destruct Hsound as (Hgv & Hgdv & Hnd & Hgt & Hgdt).
  cbn [mbind option_bind] in Hack.
  set (m1 := addGhost (the_mesh w) entity from sender) in *.
  assert (Hghosts1 : ∀ e, getGhosts (the_mesh w) e ≠ ∅ → getGhosts m1 e ≠ ∅).
  { intros e He. by apply getGhosts_addGhost_ne. }
  assert (Hmine : getGhosts m1 entity ≠ ∅).
  { subst m1. rewrite getGhosts_addGhost, decide_True by done.
    apply insert_non_empty. }
  destruct (Hgdt gdt Hgdteq) as [-> Hgdtin].
  destruct (hasTag m1 entity "ghosted_tag") eqn:Hhas; cbn [negb] in Hack;
    injection Hack as <-; unfold registry_sound;
    cbn [instance the_mesh ghost_tag ghosted_tag ghost_vec ghosted_vec].
  - split; [exact Hgv|]. split; [|done].
    intros d e He. destruct (Hgdv d e He) as (Hde & Hgh & t & Ht & Htag).
    split; [done|]. split; [by apply Hghosts1|]. exists t; split; [cbn; congruence|done].
  - assert (Hd : ent_dim m1 entity < length (ghosted_vec (instance w))).
    { rewrite Hlen. apply Hdim. }
    split.
    { intros d e He. destruct (Hgv d e He) as (Hde & Hlive & t & Ht & Htag).
      split; [done|]. split; [done|]. exists t. split; [cbn; congruence|].
      by apply hasTag_setIntTag_mono. }
    split.
    { intros d e He. apply (elem_of_push_back _ _ _ _ _ Hd) in He as [He|[-> ->]].
      - destruct (Hgdv d e He) as (Hde & Hgh & t & Ht & Htag).
        split; [done|]. split; [by apply Hghosts1|]. exists t. split; [cbn; congruence|].
        by apply hasTag_setIntTag_mono.
      - split; [done|]. split; [done|]. exists "ghosted_tag". split; [done|].
        by apply hasTag_setIntTag_here. }
    split.
    { intros d. split; [apply Hnd|]. apply NoDup_push_back; [done|apply Hnd|].
      intros Hin. destruct (Hgdv _ _ Hin) as (_ & _ & t & Ht & Htag).
      rewrite Hgdteq in Ht. injection Ht as <-.
      change (hasTag m1 entity "ghosted_tag") with (hasTag (the_mesh w) entity "ghosted_tag") in Hhas.
      by rewrite Htag in Hhas. }
    split.
    + intros t Ht. destruct (Hgt t Ht) as [-> Hin]. split; [done|].
      by apply int_tags_setIntTag.
    + intros t Ht. assert (t = "ghosted_tag") as -> by (cbn in Ht; congruence).
      split; [done|]. by apply int_tags_setIntTag.
Qed.

Lemma registry_sound_pumi_ghost_delete w w' :
  length (ghost_vec (instance w)) = 4 → length (ghosted_vec (instance w)) = 4 →
  pumi_ghost_delete w = Some w' → registry_sound w'.
Proof.
  intros Hl1 Hl2 Hdel.
  destruct (ghosted_tag (instance w)) as [gdt|] eqn:Hgdt;
    [|by unfold pumi_ghost_delete in Hdel; rewrite Hgdt in Hdel].
  destruct (ghost_tag (instance w)) as [gt|] eqn:Hgt;
    [|by unfold pumi_ghost_delete in Hdel; rewrite Hgdt, Hgt in Hdel].
  rewrite (pumi_ghost_delete_mesh w gt gdt Hgt Hgdt) in Hdel. injection Hdel as <-.
  unfold registry_sound.
  cbn [instance the_mesh ghost_tag ghosted_tag ghost_vec ghosted_vec].
  assert (Hvec : ∀ (v : list (list nat)) d, length v = 4 →
            vec_at (foldl (λ v d, <[d := []]> v) v [3; 2; 1; 0]) d = []).
  { intros v d Hv. destruct (decide (d < 4)); [by apply cleared_vec|].
    cbn [foldl]. unfold vec_at. rewrite lookup_ge_None_2; [done|].
    rewrite !length_insert. lia. }
  cbn [foldl] in Hvec.
  split; [intros d e He; rewrite Hvec in He by done; by apply elem_of_nil in He|].
  split; [intros d e He; rewrite Hvec in He by done; by apply elem_of_nil in He|].
  split; [intros d; rewrite !Hvec by done; split; constructor|]. done.
Qed.

(** The registries stay sound, and keep their four vectors, under the
    steps of a ghosting. *)
Lemma registry_sound_run w op w' :
  registry_ok w → registry_sound w →
  match op with Unpack _ _ entity _ => entity ∉ live (the_mesh w) | _ => True end →
  run w op = Some w' → registry_sound w'.
Proof.
  intros Hok Hsound Hfresh Hrun.
  destruct Hok as (Hl1 & Hl2 & Hdim & _).
  destruct op as [d|from sender entity tags|from entity sender|]; cbn [run] in Hrun.
  - destruct (Ghosting_new w d) as [[plan w1]|] eqn:Hnew; [|done].
    injection Hrun as <-. by eapply registry_sound_Ghosting_new.
  - by eapply registry_sound_unpackGhost.
  - by eapply registry_sound_setupGhosts_receive.
  - by eapply registry_sound_pumi_ghost_delete.
Qed.

Lemma registry_sound_run_all ops : ∀ w w',
  registry_ok w → registry_sound w → unpacks_fresh w ops →
  run_all w ops = Some w' → registry_ok w' ∧ registry_sound w'.
Proof.
  induction ops as [|op ops IH]; intros w w' Hok Hsound Hfresh Hrun;
    cbn [run_all] in Hrun.
  - by injection Hrun as <-.
  - destruct (run w op) as [w1|] eqn:Hop; [|done]. cbn [mbind option_bind] in Hrun.
    cbn [unpacks_fresh] in Hfresh. rewrite Hop in Hfresh. destruct Hfresh as [Hnow Hlater].
    eapply IH; [| |exact Hlater|exact Hrun].
    + by eapply registry_ok_run.
    + by eapply registry_sound_run.
Qed.

Lemma destroyed_deletion_calls i tag :
  omap destroyed (deletion_calls i tag)
  = flat_map (vec_at (ghost_vec i)) [3; 2; 1; 0].
Proof.
  unfold deletion_calls.
  assert (H1 : ∀ l, omap destroyed (map Destroy l) = l).
  { induction l as [|x l IH]; [done|]. cbn. by rewrite IH. }
  assert (H2 : ∀ l, omap destroyed
                      (flat_map (λ e, [RemoveTag e tag; DeleteGhost e]) l) = []).
  { induction l as [|x l IH]; [done|]. cbn. exact IH. }
  cbn [flat_map]. rewrite !omap_app, !H1, !H2. cbn [omap list_omap].
  by rewrite !app_nil_r.
Qed.

Lemma elem_of_deletion_calls_destroy_inv i tag e :
  Destroy e ∈ deletion_calls i tag → ∃ d, d < 4 ∧ e ∈ vec_at (ghost_vec i) d.
Proof.
  intros Hin.
  assert (He : e ∈ omap destroyed (deletion_calls i tag)).
  { apply list_elem_of_omap. by exists (Destroy e). }
  rewrite destroyed_deletion_calls in He. cbn [flat_map] in He.
  rewrite app_nil_r, !elem_of_app in He.
  destruct He as [?|[?|[?|?]]]; [exists 3|exists 2|exists 1|exists 0]; (split; [lia|done]).
Qed.

Lemma elem_of_deletion_calls_unghost_inv i tag e :
  DeleteGhost e ∈ deletion_calls i tag → ∃ d, d < 4 ∧ e ∈ vec_at (ghosted_vec i) d.
Proof.
  unfold deletion_calls. rewrite list_elem_of_In, in_flat_map.
  intros (d & Hd & Hin). exists d. split.
  { apply list_elem_of_In in Hd. set_solver by lia. }
  apply in_app_or in Hin as [Hin|Hin].
  - apply in_map_iff in Hin as (x & Hx & _). done.
  - apply in_flat_map in Hin as (x & Hx & Hin). apply list_elem_of_In in Hx.
    destruct Hin as [Heq|[Heq|[]]]; [done|]. by injection Heq as ->.
Qed.

(** What one call leaves of an entity it is not aimed at. *)
Lemma live_perform_other m c e :
  c ≠ Destroy e → e ∈ live m → e ∈ live (perform m c).
Proof.
  intros Hc He. destruct c as [e'| | |]; cbn; try done.
  apply list_elem_of_filter. split; [|done]. intros ->. by destruct Hc.
Qed.

Lemma hasTag_perform_other m c e t :
  c ≠ Destroy e → c ≠ RemoveTag e t → c ≠ DestroyTag t →
  hasTag (perform m c) e t = hasTag m e t.
Proof.
  intros Hd Hr Ht. unfold hasTag, tag_data.
  destruct c as [e'|e' t'|e'|t']; cbn.
  - rewrite lookup_fmap. destruct (int_tags m !! t) as [data|]; cbn; [|done].
    rewrite lookup_delete_ne; [done|]. intros ->. by destruct Hd.
  - destruct (decide (t' = t)) as [->|Hne].
    + rewrite lookup_alter_eq. destruct (int_tags m !! t) as [data|]; cbn; [|done].
      rewrite lookup_delete_ne; [done|]. intros ->. by destruct Hr.
    + by rewrite lookup_alter_ne.
  - done.
  - rewrite lookup_delete_ne; [done|]. intros ->. by destruct Ht.
Qed.

Lemma getGhosts_perform_other m c e :
  c ≠ Destroy e → c ≠ DeleteGhost e →
  getGhosts (perform m c) e = getGhosts m e.
Proof.
  intros Hd Hg. unfold getGhosts.
  destruct c as [e'|e' t'|e'|t']; cbn; try done.
  - rewrite lookup_delete_ne; [done|]. intros ->. by destruct Hd.
  - rewrite lookup_delete_ne; [done|]. intros ->. by destruct Hg.
Qed.

Lemma live_foldl_perform_other m cs e :
  Destroy e ∉ cs → e ∈ live m → e ∈ live (foldl perform m cs).
Proof.
  revert m. induction cs as [|c cs IH]; intros m Hc He; [done|].
  apply not_elem_of_cons in Hc as [Hc Hcs]. cbn.
  apply IH; [done|]. by apply live_perform_other.
Qed.

Lemma hasTag_foldl_perform_other m cs e t :
  Destroy e ∉ cs → RemoveTag e t ∉ cs → DestroyTag t ∉ cs →
  hasTag (foldl perform m cs) e t = hasTag m e t.
Proof.
  revert m. induction cs as [|c cs IH]; intros m Hd Hr Ht; [done|].
  apply not_elem_of_cons in Hd as [Hd Hds].
  apply not_elem_of_cons in Hr as [Hr Hrs].
  apply not_elem_of_cons in Ht as [Ht Hts]. cbn.
  rewrite IH by done. by apply hasTag_perform_other.
Qed.

Lemma getGhosts_foldl_perform_other m cs e :
  Destroy e ∉ cs → DeleteGhost e ∉ cs →
  getGhosts (foldl perform m cs) e = getGhosts m e.
Proof.
  revert m. induction cs as [|c cs IH]; intros m Hd Hg; [done|].
  apply not_elem_of_cons in Hd as [Hd Hds].
  apply not_elem_of_cons in Hg as [Hg Hgs]. cbn.
  rewrite IH by done. by apply getGhosts_perform_other.
Qed.

(** The calls of a deletion, by kind. *)
Lemma unghosted_deletion_calls i tag :
  omap (λ c, match c with DeleteGhost e => Some e | _ => None end)
       (deletion_calls i tag)
  = flat_map (vec_at (ghosted_vec i)) [3; 2; 1; 0].
Proof.
  unfold deletion_calls.
  assert (H1 : ∀ l, omap (λ c, match c with DeleteGhost e => Some e | _ => None end)
                         (map Destroy l) = []).
  { induction l as [|x l IH]; [done|]. cbn. exact IH. }
  assert (H2 : ∀ l, omap (λ c, match c with DeleteGhost e => Some e | _ => None end)
                      (flat_map (λ e, [RemoveTag e tag; DeleteGhost e]) l) = l).
  { induction l as [|x l IH]; [done|]. cbn. by rewrite IH. }
  cbn [flat_map]. rewrite !omap_app, !H1, !H2. cbn [omap list_omap].
  by rewrite !app_nil_r.
Qed.

Lemma untagged_deletion_calls i tag :
  omap (λ c, match c with RemoveTag e _ => Some e | _ => None end)
       (deletion_calls i tag)
  = flat_map (vec_at (ghosted_vec i)) [3; 2; 1; 0].
Proof.
  unfold deletion_calls.
  assert (H1 : ∀ l, omap (λ c, match c with RemoveTag e _ => Some e | _ => None end)
                         (map Destroy l) = []).
  { induction l as [|x l IH]; [done|]. cbn. exact IH. }
  assert (H2 : ∀ l, omap (λ c, match c with RemoveTag e _ => Some e | _ => None end)
                      (flat_map (λ e, [RemoveTag e tag; DeleteGhost e]) l) = l).
  { induction l as [|x l IH]; [done|]. cbn. by rewrite IH. }
  cbn [flat_map]. rewrite !omap_app, !H1, !H2. cbn [omap list_omap].
  by rewrite !app_nil_r.
Qed.

Lemma elem_of_deletion_calls_untag_inv i tag e t :
  RemoveTag e t ∈ deletion_calls i tag → t = tag.
Proof.
  unfold deletion_calls. rewrite list_elem_of_In, in_flat_map.
  intros (d & _ & Hin).
  apply in_app_or in Hin as [Hin|Hin].
  - apply in_map_iff in Hin as (x & Hx & _). done.
  - apply in_flat_map in Hin as (x & _ & Hin).
    destruct Hin as [Heq|[Heq|[]]]; [|done]. by injection Heq as _ ->.
Qed.

Lemma DestroyTag_not_in_deletion_calls i tag t :
  DestroyTag t ∉ deletion_calls i tag.
Proof.
  unfold deletion_calls. rewrite list_elem_of_In, in_flat_map.
  intros (d & _ & Hin).
  apply in_app_or in Hin as [Hin|Hin].
  - apply in_map_iff in Hin as (x & Hx & _). done.
  - apply in_flat_map in Hin as (x & _ & Hin).
    by destruct Hin as [Heq|[Heq|[]]].
Qed.

(** Four lists without repetition whose members are told apart by a
    function of the member make one list without repetition. *)
Lemma NoDup_by_dimension (dim : Entity → nat) (v : list (list Entity)) :
  (∀ d e, e ∈ vec_at v d → dim e = d) →
  (∀ d, NoDup (vec_at v d)) →
  NoDup (flat_map (vec_at v) [3; 2; 1; 0]).
Proof.
  intros Hdim Hnd. cbn [flat_map]. rewrite app_nil_r.
  assert (Hdisj : ∀ d d' e, d ≠ d' → e ∈ vec_at v d → e ∈ vec_at v d' → False).
  { intros d d' e Hne H1 H2. apply Hdim in H1, H2. congruence. }
  repeat (apply NoDup_app; split; [apply Hnd|split; [|]]); try apply Hnd.
  - intros e H3 Hrest. rewrite !elem_of_app in Hrest.
    destruct Hrest as [H|[H|H]].
    + exact (Hdisj 3 2 e ltac:(lia) H3 H).
    + exact (Hdisj 3 1 e ltac:(lia) H3 H).
    + exact (Hdisj 3 0 e ltac:(lia) H3 H).
  - intros e H2 Hrest. rewrite !elem_of_app in Hrest.
    destruct Hrest as [H|H].
    + exact (Hdisj 2 1 e ltac:(lia) H2 H).
    + exact (Hdisj 2 0 e ltac:(lia) H2 H).
  - intros e H1 H. exact (Hdisj 1 0 e ltac:(lia) H1 H).
Qed.

(** A call that a list of calls makes once is not among the calls before
    it. *)
Lemma not_before (f : Call → option Entity) (c : Call) (e : Entity)
    (before after : list Call) :
  f c = Some e →
  NoDup (omap f (before ++ c :: after)) →
  ∀ c', f c' = Some e → c' ∉ before.
Proof.
  intros Hc Hnd c' Hc' Hin.
  rewrite omap_app in Hnd. cbn in Hnd. rewrite Hc in Hnd.
  apply NoDup_app in Hnd as (_ & Hdisj & _).
  apply (Hdisj e).
  - apply list_elem_of_omap. by exists c'.
  - apply list_elem_of_here.
Qed.

(** X5.  pumi_ghost_delete destroys ghost copies only, each once.  Start
    a process on a mesh without ghost copies and let it take any steps of
    ghosting (plans constructed, ghosts unpacked as new entities,
    acknowledgements received, deletions), ending with a plan made.  Take
    the calls the next pumi_ghost_delete makes, each on the mesh as the
    calls before it have left it.  Every destroy(e) finds e an entity of
    the part that carries ghost_tag, and no entity is destroyed twice.
    Every removeTag is for ghosted_tag and finds the tag on its entity,
    and every deleteGhost(e) finds a ghost copy of e, unless the same
    deletion has destroyed e before (an entity held by both
    registries). *)
Theorem delete_destroys_ghosts_only (m0 : Mesh) (ops : list Op) (w : World)
    (gdt : string) :
  ghosts m0 = ∅ →
  (∀ e, ent_dim m0 e < 4) →
  unpacks_fresh (mkWorld pumi_new m0) ops →
  run_all (mkWorld pumi_new m0) ops = Some w →
  ghosted_tag (instance w) = Some gdt →
  (∀ before e after,
     deletion_calls (instance w) gdt = before ++ Destroy e :: after →
     e ∈ live (foldl perform (the_mesh w) before)
     ∧ isGhost (foldl perform (the_mesh w) before) e = true)
  ∧ NoDup (omap destroyed (deletion_calls (instance w) gdt))
  ∧ (∀ before e t after,
       deletion_calls (instance w) gdt = before ++ RemoveTag e t :: after →
       t = gdt
       ∧ (Destroy e ∈ before
          ∨ hasTag (foldl perform (the_mesh w) before) e gdt = true))
  ∧ (∀ before e after,
       deletion_calls (instance w) gdt = before ++ DeleteGhost e :: after →
       Destroy e ∈ before
       ∨ isGhosted (foldl perform (the_mesh w) before) e = true).
Proof.
  intros Hghosts Hdim Hfresh Hrun Hgdt.
  destruct (registry_sound_run_all ops _ _ (registry_ok_initial m0 Hghosts Hdim)
              (registry_sound_initial m0) Hfresh Hrun) as [_ Hsound].
  destruct Hsound as (Hgv & Hgdv & Hnd & Hgt & Hgdt').
  destruct (Hgdt' gdt Hgdt) as [-> _].
  assert (Hnd1 : NoDup (omap destroyed (deletion_calls (instance w) "ghosted_tag"))).
  { rewrite destroyed_deletion_calls.
    apply (NoDup_by_dimension (ent_dim (the_mesh w))).
    - intros d e He. by destruct (Hgv d e He).
    - intros d. apply Hnd. }
  assert (Hnd2 : NoDup (flat_map (vec_at (ghosted_vec (instance w))) [3; 2; 1; 0])).
  { apply (NoDup_by_dimension (ent_dim (the_mesh w))).
    - intros d e He. by destruct (Hgdv d e He).
    - intros d. apply Hnd. }
  assert (Hcalls : ∀ before c after,
            deletion_calls (instance w) "ghosted_tag" = before ++ c :: after →
            ∀ c', c' ∈ before → c' ∈ deletion_calls (instance w) "ghosted_tag").
  { intros before c after -> c' Hin. apply elem_of_app. by left. }
  split; [|split; [done|split]].
  - intros before e after Hsplit.
    assert (Hin : Destroy e ∈ deletion_calls (instance w) "ghosted_tag").
    { rewrite Hsplit. apply elem_of_app. right. apply list_elem_of_here. }
    apply elem_of_deletion_calls_destroy_inv in Hin as (d & _ & He).
    destruct (Hgv d e He) as (_ & Hlive & t & Ht & Htag).
    destruct (Hgt t Ht) as [-> _].
    assert (Hnot : Destroy e ∉ before).
    { rewrite Hsplit in Hnd1.
      by apply (not_before destroyed (Destroy e) e before after). }
    split.
    + by apply live_foldl_perform_other.
    + unfold isGhost. rewrite hasTag_foldl_perform_other; [done|done| |].
      * intros Hin. apply (Hcalls _ _ _ Hsplit) in Hin.
        by apply elem_of_deletion_calls_untag_inv in Hin.
      * intros Hin. apply (Hcalls _ _ _ Hsplit) in Hin.
        by apply DestroyTag_not_in_deletion_calls in Hin.
  - intros before e t after Hsplit.
    assert (Hin : RemoveTag e t ∈ deletion_calls (instance w) "ghosted_tag").
    { rewrite Hsplit. apply elem_of_app. right. apply list_elem_of_here. }
    pose proof (elem_of_deletion_calls_untag_inv _ _ _ _ Hin) as ->.
    split; [done|].
    destruct (decide (Destroy e ∈ before)) as [?|Hnot]; [by left|right].
    assert (He : e ∈ flat_map (vec_at (ghosted_vec (instance w))) [3; 2; 1; 0]).
    { rewrite <- (untagged_deletion_calls _ "ghosted_tag").
      apply list_elem_of_omap. by exists (RemoveTag e "ghosted_tag"). }
    cbn [flat_map] in He. rewrite app_nil_r, !elem_of_app in He.
    assert (Hreg : ∃ d, e ∈ vec_at (ghosted_vec (instance w)) d).
    { destruct He as [?|[?|[?|?]]]; by eexists. }
    destruct Hreg as (d & Hd).
    destruct (Hgdv d e Hd) as (_ & _ & t & Ht & Htag).
    rewrite Hgdt in Ht. injection Ht as <-.
    rewrite hasTag_foldl_perform_other; [done|done| |].
    + rewrite <- (untagged_deletion_calls _ "ghosted_tag"), Hsplit in Hnd2.
      by apply (not_before _ (RemoveTag e "ghosted_tag") e before after) with
        (c' := RemoveTag e "ghosted_tag") in Hnd2.
    + intros Hin'. apply (Hcalls _ _ _ Hsplit) in Hin'.
      by apply DestroyTag_not_in_deletion_calls in Hin'.
  - intros before e after Hsplit.
    destruct (decide (Destroy e ∈ before)) as [?|Hnot]; [by left|right].
    assert (Hin : DeleteGhost e ∈ deletion_calls (instance w) "ghosted_tag").
    { rewrite Hsplit. apply elem_of_app. right. apply list_elem_of_here. }
    apply elem_of_deletion_calls_unghost_inv in Hin as (d & _ & Hd).
    destruct (Hgdv d e Hd) as (_ & Hgh & _).
    unfold isGhosted. apply bool_decide_eq_true_2.
    rewrite getGhosts_foldl_perform_other; [done|done|].
    rewrite <- (unghosted_deletion_calls _ "ghosted_tag"), Hsplit in Hnd2.
    by apply (not_before _ (DeleteGhost e) e before after) with
      (c' := DeleteGhost e) in Hnd2.
Qed.

Section layer_plan.
Variable P : Z → Prop.
Variable m0 : Mesh.

Local Abbreviation keeps := (layer_keeps P m0).

Lemma keeps_send plan m e to plan' m' :
  keeps plan m → P to → send plan m e to = Some (plan', m') → keeps plan' m'.
Proof.
  intros (Hfit & Hin & Hrem) Hto Hsend.
  destruct (send_Some plan m e to plan' m' Hfit Hsend)
    as (index & _ & _ & _ & _ & _ & Hfit' & Hslot & _ & Hnew & Hcase).
  cbv zeta in *. split; [done|]. split.
  - intros d i ps Hps p Hp.
    destruct (decide ((d, i) = (ent_dim m e, index))) as [[= -> ->]|Hne].
    + rewrite Hslot in Hps. injection Hps as <-.
      apply elem_of_union in Hp as [Hp|Hp]; [|by apply elem_of_singleton in Hp as ->].
      destruct (vec_at (parts_vec plan) (ent_dim m e) !! index) as [old|] eqn:Hold;
        cbn in Hp; [|set_solver]. by eapply Hin.
    + rewrite (Hnew d i ps Hps Hne) in Hp.
      destruct (vec_at (parts_vec plan) d !! i) as [old|] eqn:Hold;
        cbn in Hp; [|set_solver]. by eapply Hin.
  - destruct (getIntTag m e (parts_index_tag plan)); destruct Hcase as [_ ->]; done.
Qed.

Lemma keeps_send_to plan m e (to : list Z) plan' m' :
  keeps plan m → (∀ p, p ∈ to → P p) →
  foldl (λ st p, '(plan, m) ← st; send plan m e p) (Some (plan, m)) to
  = Some (plan', m') →
  keeps plan' m'.
Proof.
  revert plan m. induction to as [|p to IH]; intros plan m Hk Hto Hrun.
  - by injection Hrun as <- <-.
  - cbn [foldl mbind option_bind] in Hrun.
    destruct (send plan m e p) as [[plan1 m1]|] eqn:Hsend.
    + eapply (IH plan1 m1);
        [|intros q Hq; by apply Hto, list_elem_of_further|exact Hrun].
      eapply keeps_send; [exact Hk|apply Hto, list_elem_of_here|exact Hsend].
    + exfalso. clear -Hrun. induction to as [|q to IH]; [done|]. by apply IH.
Qed.

Lemma keeps_setIntTag plan m e t x :
  keeps plan m → keeps plan (setIntTag m e t x).
Proof.
  intros ((Htag & Hlen & Hdim) & Hin & Hrem). split; [|done].
  split; [by apply int_tags_setIntTag|]. done.
Qed.

Lemma keeps_removeTag plan m e t :
  keeps plan m → keeps plan (removeTag m e t).
Proof.
  intros ((Htag & Hlen & Hdim) & Hin & Hrem). split; [|done].
  split; [|done]. by apply (same_but_tag_removeTag t m e).
Qed.

Lemma keeps_first_layer to tag adjacent : ∀ plan m processed plan' m' processed',
  keeps plan m → (∀ p, p ∈ to → P p) →
  first_layer plan m to tag adjacent processed = Some (plan', m', processed') →
  keeps plan' m'.
Proof.
  induction adjacent as [|ghost_ent rest IH];
    intros plan m processed plan' m' processed' Hk Hto Hrun; cbn [first_layer] in Hrun.
  - by injection Hrun as <- <- <-.
  - destruct (isGhost m ghost_ent); [by eapply IH|].
    destruct (foldl _ (Some (plan, m)) to) as [[plan1 m1]|] eqn:Hsends; [|done].
    cbn [mbind option_bind] in Hrun.
    eapply IH; [|exact Hto|exact Hrun].
    apply keeps_setIntTag. by eapply keeps_send_to.
Qed.

Lemma keeps_next_layer_of to tag adj_ent :
  ∀ plan m processed n plan' m' processed' n',
  keeps plan m → (∀ p, p ∈ to → P p) →
  next_layer_of plan m to tag adj_ent processed n = Some (plan', m', processed', n') →
  keeps plan' m'.
Proof.
  induction adj_ent as [|git rest IH];
    intros plan m processed n plan' m' processed' n' Hk Hto Hrun;
    cbn [next_layer_of] in Hrun.
  - by injection Hrun as <- <- <- <-.
  - destruct (isGhost m git || hasTag m git tag); [by eapply IH|].
    destruct (foldl _ (Some (plan, m)) to) as [[plan1 m1]|] eqn:Hsends; [|done].
    cbn [mbind option_bind] in Hrun.
    eapply IH; [|exact Hto|exact Hrun].
    apply keeps_setIntTag. by eapply keeps_send_to.
Qed.

Lemma keeps_scan_prev_layer adj to tag b g idx :
  ∀ plan m processed n plan' m' processed' n',
  keeps plan m → (∀ p, p ∈ to → P p) →
  scan_prev_layer adj plan m to tag b g idx processed n
  = Some (plan', m', processed', n') →
  keeps plan' m'.
Proof.
  induction idx as [|i rest IH];
    intros plan m processed n plan' m' processed' n' Hk Hto Hrun;
    cbn [scan_prev_layer] in Hrun.
  - by injection Hrun as <- <- <- <-.
  - destruct (processed !! Z.to_nat i) as [ghost_ent|]; [|done].
    cbn [mbind option_bind] in Hrun.
    destruct (next_layer_of plan m to tag _ processed n)
      as [[[[plan1 m1] processed1] n1]|] eqn:Hnext; [|done].
    cbn [mbind option_bind] in Hrun.
    eapply IH; [|exact Hto|exact Hrun]. by eapply keeps_next_layer_of.
Qed.

Lemma keeps_more_layers adj to tag b g layers :
  ∀ plan m processed start size plan' m' processed',
  keeps plan m → (∀ p, p ∈ to → P p) →
  more_layers adj layers plan m to tag b g processed start size
  = Some (plan', m', processed') →
  keeps plan' m'.
Proof.
  induction layers as [|layers IH];
    intros plan m processed start size plan' m' processed' Hk Hto Hrun;
    cbn [more_layers] in Hrun.
  - by injection Hrun as <- <- <-.
  - destruct (scan_prev_layer adj plan m to tag b g _ processed 0)
      as [[[[plan1 m1] processed1] n1]|] eqn:Hscan; [|done].
    cbn [mbind option_bind] in Hrun.
    eapply IH; [|exact Hto|exact Hrun]. by eapply keeps_scan_prev_layer.
Qed.

Lemma keeps_each_bridge self adj tag b g L ic bridges :
  ∀ plan m plan' m',
  keeps plan m →
  (∀ brg p, brg ∈ bridges → p ∈ dom (getRemotes m0 brg) → P p) →
  each_bridge self adj plan m tag b g L ic bridges = Some (plan', m') →
  keeps plan' m'.
Proof.
  induction bridges as [|brg rest IH]; intros plan m plan' m' Hk Hb Hrun;
    cbn [each_bridge] in Hrun.
  - by injection Hrun as <- <-.
  - assert (Hrest : ∀ brg' p, brg' ∈ rest → p ∈ dom (getRemotes m0 brg') → P p).
    { intros brg' p Hin. apply Hb. by apply list_elem_of_further. }
    destruct (negb (isShared m brg)); [by eapply IH|].
    destruct ((ic =? 0)%Z && negb (getOwner m brg =? self)%Z); [by eapply IH|].
    cbv zeta in Hrun.
    assert (Hto : ∀ p, p ∈ elements (dom (getRemotes m brg)) → P p).
    { intros p Hp%elem_of_elements. apply (Hb brg p); [apply list_elem_of_here|].
      destruct Hk as (_ & _ & Hrem). unfold getRemotes in *. by rewrite <- Hrem. }
    destruct (first_layer plan m _ tag _ []) as [[[plan1 m1] processed1]|] eqn:Hfirst;
      [|done].
    cbn [mbind option_bind] in Hrun.
    destruct (more_layers adj _ plan1 m1 _ tag b g processed1 0 _)
      as [[[plan2 m2] processed2]|] eqn:Hmore; [|done].
    cbn [mbind option_bind] in Hrun.
    eapply IH; [|exact Hrest|exact Hrun].
    assert (Hk2 : keeps plan2 m2).
    { eapply keeps_more_layers; [|exact Hto|exact Hmore].
      by eapply keeps_first_layer. }
    clear -Hk2. revert m2 Hk2. induction processed2 as [|e es IHes]; intros m2 Hk2; [done|].
    cbn [foldl]. apply IHes. by apply keeps_removeTag.
Qed.

End layer_plan.

(** X6.  The plan pumi_ghost_createLayer builds sends entities only to
    parts that hold a remote copy of a bridge entity.  When the call gets
    as far as pumi_ghost_create, every part id in a destination set of
    its plan is a part of the remote copies of some entity of the bridge
    dimension; so the local part is in no destination set when no entity
    lists the local part among its remote copies.  The mesh is handed on
    without the tag ghost_check_mark and with its remote copies
    unchanged. *)
Theorem createLayer_sends_to_sharing_parts (self peers : Z)
    (get2ndAdj : Mesh → Entity → Z → Z → list Entity) (w : World)
    (brg_dim ghost_dim num_layer include_copy : Z) (w' : World) (plan : Ghosting) :
  (∀ e, ent_dim (the_mesh w) e < 4) →
  pumi_ghost_createLayer self peers get2ndAdj w brg_dim ghost_dim num_layer
                         include_copy = Ghosts w' plan →
  (∀ d i ps p, vec_at (parts_vec plan) d !! i = Some ps → p ∈ ps →
     ∃ brg, brg ∈ iterate (the_mesh w) brg_dim
            ∧ p ∈ dom (getRemotes (the_mesh w) brg))
  ∧ ((∀ e, self ∉ dom (getRemotes (the_mesh w) e)) → self_free self plan)
  ∧ findTag (the_mesh w') "ghost_check_mark" = None
  ∧ remotes (the_mesh w') = remotes (the_mesh w).
Proof.
  intros Hdim Hrun. unfold pumi_ghost_createLayer in Hrun.
  destruct ((peers =? 1)%Z || (num_layer =? 0)%Z); [done|]. cbv zeta in Hrun.
  match type of Hrun with (if ?c then _ else _) = _ => destruct c; [done|] end.
  destruct (createIntTag (the_mesh w) "ghost_check_mark") as [[m1 tag]|] eqn:Htag;
    [|done].
  cbn [mbind option_bind] in Hrun.
  destruct (Ghosting_new (mkWorld (instance w) m1) ghost_dim) as [[plan0 w1]|] eqn:Hnew;
    [|done].
  cbn [mbind option_bind] in Hrun.
  destruct (each_bridge self get2ndAdj plan0 (the_mesh w1) tag brg_dim ghost_dim
              num_layer include_copy (iterate (the_mesh w1) brg_dim))
    as [[plan1 m2]|] eqn:Hloop; [|done].
  cbn [mbind option_bind] in Hrun. injection Hrun as <- <-.
  apply createIntTag_Some in Htag as (_ & -> & ->).
  match type of Hnew with Ghosting_new ?w0 _ = _ =>
    assert (Hdim1 : ∀ e, ent_dim (the_mesh w0) e < 4) by exact Hdim end.
  destruct (Ghosting_new_wf _ _ _ _ Hdim1 Hnew) as ((Hfit & _) & Hvec & _ & Hdims).
  assert (Hsame : remotes (the_mesh w1) = remotes (the_mesh w)
                  ∧ live (the_mesh w1) = live (the_mesh w)).
  { apply Ghosting_new_Some in Hnew as (ts & _ & -> & _). done. }
  destruct Hsame as [Hrem Hlive].
  assert (Hiter : iterate (the_mesh w1) brg_dim = iterate (the_mesh w) brg_dim).
  { unfold iterate. rewrite Hlive, Hdims. done. }
  set (P := λ p, ∃ brg, brg ∈ iterate (the_mesh w) brg_dim
                        ∧ p ∈ dom (getRemotes (the_mesh w) brg)).
  assert (Hk : layer_keeps P (the_mesh w) plan0 (the_mesh w1)).
  { split; [done|]. split; [|done]. intros d i ps Hps. rewrite Hvec in Hps.
    by rewrite lookup_nil in Hps. }
  assert (Hb : ∀ brg p, brg ∈ iterate (the_mesh w1) brg_dim →
                 p ∈ dom (getRemotes (the_mesh w) brg) → P p).
  { intros brg p Hbrg Hp. exists brg. by rewrite <- Hiter. }
  destruct (keeps_each_bridge P (the_mesh w) self get2ndAdj _ brg_dim ghost_dim
              num_layer include_copy _ _ _ _ _ Hk Hb Hloop) as (_ & Hin & Hrem2).
  split; [intros d i ps p Hps Hp; exact (Hin d i ps Hps p Hp)|].
  split.
  { intros Hself d i ps Hps Hmem. destruct (Hin d i ps Hps self Hmem) as (brg & _ & Hbad).
    by apply (Hself brg). }
  split; [|done].
  apply findTag_None. cbn. apply lookup_delete_eq.
Qed.

Lemma plan_holds_the_sends_witness :
  ∃ plan' m',
    send_list sample_plan.1 (the_mesh sample_plan.2)
              [(20, 1%Z); (10, 1%Z); (20, 0%Z); (20, 1%Z)] = Some (plan', m')
    ∧ has plan' m' 11 = false
    ∧ count_of plan' m' 11 (ent_dim m' 11) = Some 0%Z
    ∧ ∃ ps, sending plan' m' 20 (ent_dim m' 20) = Some ps
            ∧ (1%Z ∈ ps ∧ 0%Z ∈ ps ∧ 2%Z ∉ ps)
            ∧ count_of plan' m' 20 (ent_dim m' 20) = Some (Z.of_nat (size ps)).
Proof.
  destruct (plan_holds_the_sends sample_world 2 sample_plan.1 sample_plan.2
              [(20, 1%Z); (10, 1%Z); (20, 0%Z); (20, 1%Z)]
              sample_dimensions sample_plan_eq ltac:(done))
    as (plan' & m' & Hrun & Hall).
  exists plan', m'. split; [exact Hrun|].
  destruct (Hall 11) as (Hhas & Hout & _).
  destruct (Hall 20) as (_ & _ & Hin).
  assert (H11 : 11 ∉ [(20, 1%Z); (10, 1%Z); (20, 0%Z); (20, 1%Z)].*1).
  { cbn. rewrite !not_elem_of_cons. repeat split; try lia. apply not_elem_of_nil. }
  split; [by rewrite Hhas, bool_decide_eq_false_2|].
  split; [by apply Hout|].
  destruct Hin as (ps & Hps & Hmem & Hcount); [cbn; apply list_elem_of_here|].
  exists ps. split; [exact Hps|]. split; [|exact Hcount].
  rewrite !Hmem. split; [apply list_elem_of_here|]. split.
  - do 2 apply list_elem_of_further. apply list_elem_of_here.
  - rewrite !not_elem_of_cons. repeat split; try (intros [= ?]; lia).
    apply not_elem_of_nil.
Defined.

Lemma count_is_the_number_of_planned_entities_witness :
  ∃ plan' m',
    send_list sample_plan.1 (the_mesh sample_plan.2)
              [(20, 1%Z); (10, 1%Z); (20, 0%Z); (20, 1%Z)] = Some (plan', m')
    ∧ count_all plan' = Some 1%Z.
Proof.
  destruct (count_is_the_number_of_planned_entities sample_world 2 sample_plan.1
              sample_plan.2 [(20, 1%Z); (10, 1%Z); (20, 0%Z); (20, 1%Z)]
              sample_dimensions sample_plan_eq ltac:(done))
    as (plan' & m' & Hrun & Hcount).
  exists plan', m'. split; [exact Hrun|]. rewrite Hcount.
  assert (Hrun' := Hrun). vm_compute in Hrun'. injection Hrun' as _ <-.
  vm_compute. reflexivity.
Defined.

Lemma send_again_changes_nothing_witness :
  ∃ plan' m',
    send sample_plan.1 (the_mesh sample_plan.2) 20 1 = Some (plan', m')
    ∧ send plan' m' 20 1 = Some (plan', m').
Proof.
  destruct (send sample_plan.1 (the_mesh sample_plan.2) 20 1) as [[plan' m']|] eqn:Hsend;
    [|by vm_compute in Hsend].
  exists plan', m'. split; [done|].
  exact (send_again_changes_nothing _ _ _ _ _ _ sample_plan_fits Hsend).
Defined.

Lemma delete_destroys_ghosts_only_witness :
  run_all (mkWorld pumi_new sample_mesh)
    [NewGhosting 2; Unpack 1 500 30 [("_parts_index_", 0%Z)]; Acknowledge 1 20 700]
  = Some ghosted_world
  ∧ deletion_calls (instance ghosted_world) "ghosted_tag"
    = [Destroy 30; RemoveTag 20 "ghosted_tag"; DeleteGhost 20]
  ∧ 30 ∈ live (the_mesh ghosted_world)
  ∧ isGhost (the_mesh ghosted_world) 30 = true
  ∧ hasTag (foldl perform (the_mesh ghosted_world) [Destroy 30]) 20 "ghosted_tag" = true
  ∧ isGhosted (foldl perform (the_mesh ghosted_world)
                     [Destroy 30; RemoveTag 20 "ghosted_tag"]) 20 = true.
Proof.
  split; [exact ghosted_world_eq|]. split; [vm_compute; reflexivity|].
  assert (Hfresh : unpacks_fresh (mkWorld pumi_new sample_mesh)
            [NewGhosting 2; Unpack 1 500 30 [("_parts_index_", 0%Z)];
             Acknowledge 1 20 700]).
  { cbn [unpacks_fresh].
    destruct (run (mkWorld pumi_new sample_mesh) (NewGhosting 2)) as [w1|] eqn:H1;
      [|done].
    split; [done|]. split.
    - vm_compute in H1. injection H1 as <-. cbn [the_mesh live].
      rewrite !not_elem_of_cons. repeat split; try lia. apply not_elem_of_nil.
    - destruct (run w1 _) as [w2|]; [|done]. split; [done|].
      by destruct (run w2 _). }
  destruct (delete_destroys_ghosts_only sample_mesh _ ghosted_world "ghosted_tag"
              eq_refl sample_dimensions Hfresh ghosted_world_eq eq_refl)
    as (Hdestroy & _ & Huntag & Hunghost).
  destruct (Hdestroy [] 30 [RemoveTag 20 "ghosted_tag"; DeleteGhost 20] eq_refl)
    as [Hlive Hghost].
  split; [exact Hlive|]. split; [exact Hghost|]. split.
  - destruct (Huntag [Destroy 30] 20 "ghosted_tag" [DeleteGhost 20] eq_refl)
      as [_ [Hin|Htag]]; [|exact Htag].
    apply list_elem_of_singleton in Hin. discriminate Hin.
  - destruct (Hunghost [Destroy 30; RemoveTag 20 "ghosted_tag"] 20 [] eq_refl)
      as [Hin|Hgh]; [|exact Hgh].
    apply elem_of_cons in Hin as [Hin|Hin]; [discriminate Hin|].
    apply list_elem_of_singleton in Hin. discriminate Hin.
Defined.

(** Why the calls on the ghosted entities are stated with an exception.
    When an acknowledgement names an entity that is itself a received
    ghost, the entity is in both registries: pumi_ghost_delete destroys it
    and then calls removeTag and deleteGhost on it, when it has neither
    the tag nor a ghost copy left. *)
Remark deleteGhost_after_destroy :
  ∃ w,
    run_all (mkWorld pumi_new sample_mesh)
      [NewGhosting 2; Unpack 1 500 30 []; Acknowledge 2 30 900] = Some w
    ∧ deletion_calls (instance w) "ghosted_tag"
      = [Destroy 30; RemoveTag 30 "ghosted_tag"; DeleteGhost 30]
    ∧ hasTag (the_mesh w) 30 "ghosted_tag" = true
    ∧ isGhosted (the_mesh w) 30 = true
    ∧ hasTag (foldl perform (the_mesh w) [Destroy 30]) 30 "ghosted_tag" = false
    ∧ isGhosted (foldl perform (the_mesh w)
                       [Destroy 30; RemoveTag 30 "ghosted_tag"]) 30 = false.
Proof.
  eexists. split; [vm_compute; reflexivity|].
  split; [vm_compute; reflexivity|]. split; [vm_compute; reflexivity|].
  split; [vm_compute; reflexivity|]. split; vm_compute; reflexivity.
Qed.

Lemma createLayer_sends_to_sharing_parts_witness :
  ∃ w' plan,
    pumi_ghost_createLayer 0 2 sample_get2ndAdj sample_world 0 2 1 1 = Ghosts w' plan
    ∧ self_free 0 plan
    ∧ findTag (the_mesh w') "ghost_check_mark" = None.
Proof.
  destruct (pumi_ghost_createLayer 0 2 sample_get2ndAdj sample_world 0 2 1 1)
    as [w1 printed|w' plan|] eqn:Hrun;
    [by vm_compute in Hrun| |by vm_compute in Hrun].
  exists w', plan. split; [done|].
  destruct (createLayer_sends_to_sharing_parts 0 2 sample_get2ndAdj sample_world
              0 2 1 1 w' plan sample_dimensions Hrun) as (_ & Hfree & Hmark & _).
  split; [|exact Hmark]. apply Hfree. intros e.
  assert (Hcases : e = 1 ∨ e = 2 ∨ e = 11 ∨ getRemotes (the_mesh sample_world) e = ∅).
  { destruct (decide (e = 1)) as [->|?]; [by left|].
    destruct (decide (e = 2)) as [->|?]; [by right; left|].
    destruct (decide (e = 11)) as [->|?]; [by right; right; left|].
    right; right; right. unfold getRemotes. cbn.
    rewrite !lookup_insert_ne by done. by rewrite lookup_empty. }
  destruct Hcases as [->|[->|[->|He]]]; [vm_compute; intros H; discriminate H..|].
  rewrite He, dom_empty_L. apply not_elem_of_empty.
Defined.

End ghost_coverage.
